(** * Bagging ensembles (torchensemble/bagging.py)

    A shallow embedding of [BaggingClassifier] and [BaggingRegressor]:
    [forward], [fit] and [predict], with the ensemble object, the random
    generator and the standard output as an explicit state.

    Conventions.
    - Python integers are [Z]; a floating-point scalar is an element of a
      type [F] with the operations of the class [Scalar].  The structural
      results hold for every such [F] (they use no law of arithmetic, so
      they also cover rounding arithmetic); the results that need the laws
      of a field are stated for the instance [R].
    - A two-dimensional tensor is the list of its rows.
    - The base learner, the loss functions, automatic differentiation, the
      Adam update and the raw random generator belong to the numeric engine
      the module is written against; they are the methods of the class
      [Engine].  A call [estimator(X)] runs in the mode that [self.train()]
      or [self.eval()] set last: in training mode it may draw from the
      generator and update the state of the learner, and the loss functions
      raise where the engine's do. *)

From Stdlib Require Import String Ascii.
From Stdlib Require Import List ZArith Lia Bool.
From Stdlib Require Import Reals Lra.
From Stdlib Require Import Sorted Permutation.
Import ListNotations.

Set Implicit Arguments.
Local Open Scope Z_scope.

(** ** Scalars *)

Class Scalar (F : Type) : Type := {
  f0 : F;                       (* the float 0. *)
  fadd : F -> F -> F;
  fmul : F -> F -> F;
  fdiv : F -> F -> F;
  fexp : F -> F;
  of_Z : Z -> F;                (* conversion of an integer to a float *)
  fltb : F -> F -> bool;        (* strict comparison *)
  fround5 : F -> Z              (* x * 10^5 rounded to an integer, as the
                                   float formatter does for [.5f] *)
}.

(** ** Exceptions and results *)

Inductive exn : Type :=
| ZeroDivisionError
| RuntimeError
| IndexError
| ValueError.

Inductive result (A : Type) : Type :=
| Ok (a : A)
| Raise (e : exn).
Arguments Ok {A} a.
Arguments Raise {A} e.

Definition rbind {A B} (r : result A) (k : A -> result B) : result B :=
  match r with
  | Ok a => k a
  | Raise e => Raise e
  end.

Fixpoint rmap_all {A B} (f : A -> result B) (l : list A) : result (list B) :=
  match l with
  | [] => Ok []
  | x :: t => rbind (f x) (fun y => rbind (rmap_all f t) (fun ys => Ok (y :: ys)))
  end.

(** ** Tensors *)

Definition Tensor (F : Type) : Type := list (list F).

Section Tensors.
Context {F : Type} `{Scalar F}.

(** [t] has [B] rows of [D] entries each. *)
Definition has_shape (B D : nat) (t : Tensor F) : Prop :=
  length t = B /\ Forall (fun r => length r = D) t.

(** Entry (i, j), with [f0] outside the tensor. *)
Definition entry (t : Tensor F) (i j : nat) : F := nth j (nth i t []) f0.

(** [torch.zeros(B, D)]; a negative dimension raises. *)
Definition zeros (B : nat) (D : Z) : result (Tensor F) :=
  if D <? 0 then Raise RuntimeError
  else Ok (repeat (repeat f0 (Z.to_nat D)) B).

(** Broadcasting of the right operand of an in-place operation to the
    shape of the left one: a dimension of size 1 is repeated, any other
    mismatch raises. *)
Definition expand_row (D : nat) (r : list F) : result (list F) :=
  if Nat.eqb (length r) D then Ok r
  else match r with
       | [x] => Ok (repeat x D)
       | _ => Raise RuntimeError
       end.

Definition expand_as (B D : nat) (t : Tensor F) : result (Tensor F) :=
  if Nat.eqb (length t) B then rmap_all (expand_row D) t
  else match t with
       | [r] => rbind (expand_row D r) (fun r' => Ok (repeat r' B))
       | _ => Raise RuntimeError
       end.

Fixpoint add_rows (a b : list F) : list F :=
  match a, b with
  | x :: a', y :: b' => fadd x y :: add_rows a' b'
  | _, _ => []
  end.

Fixpoint add_tensors (a b : Tensor F) : Tensor F :=
  match a, b with
  | r :: a', s :: b' => add_rows r s :: add_tensors a' b'
  | _, _ => []
  end.

(** [a += b] for a tensor [a] of shape (B, D). *)
Definition iadd (B D : nat) (a b : Tensor F) : result (Tensor F) :=
  rbind (expand_as B D b) (fun b' => Ok (add_tensors a b')).

(** [a /= n] for a Python number [n]: every entry is divided by it. *)
Definition idiv (a : Tensor F) (n : F) : Tensor F :=
  map (map (fun x => fdiv x n)) a.

Definition fsum (l : list F) : F := fold_left fadd l f0.

(** [F.softmax(t, dim=1)]: every row is exponentiated and divided by the
    sum of its exponentials. *)
Definition softmax_row (r : list F) : list F :=
  let e := map fexp r in
  map (fun x => fdiv x (fsum e)) e.

Definition softmax (t : Tensor F) : Tensor F := map softmax_row t.

(** [row.max()[1]]: the index of the first maximal entry. *)
Fixpoint argmax_from (best : F) (bi i : Z) (l : list F) : Z :=
  match l with
  | [] => bi
  | x :: t =>
      if fltb best x then argmax_from x i (i + 1) t
      else argmax_from best bi (i + 1) t
  end.

Definition argmax (r : list F) : result Z :=
  match r with
  | [] => Raise RuntimeError
  | x :: t => Ok (argmax_from x 0 1 t)
  end.

(** [t.max(1)[1]] *)
Definition max1_indices (t : Tensor F) : result (list Z) := rmap_all argmax t.

(** [p.eq(q).sum()] for one-dimensional integer tensors; a tensor of one
    element is broadcast, another mismatch of the lengths raises. *)
Fixpoint count_eq (p q : list Z) : Z :=
  match p, q with
  | x :: p', y :: q' => (if x =? y then 1 else 0) + count_eq p' q'
  | _, _ => 0
  end.

Definition eq_sum (p q : list Z) : result Z :=
  if Nat.eqb (length p) (length q) then Ok (count_eq p q)
  else match p, q with
       | [x], _ => Ok (count_eq (repeat x (length q)) q)
       | _, [y] => Ok (count_eq p (repeat y (length p)))
       | _, _ => Raise RuntimeError
       end.
End Tensors.

(** ** Integer tensors and indexing *)

(** [range(n)] *)
Definition range (n : Z) : list Z := map Z.of_nat (seq 0 (Z.to_nat n)).

(** [enumerate(l)] *)
Definition enumerate {A} (l : list A) : list (Z * A) :=
  combine (range (Z.of_nat (length l))) l.

(** [torch.unique(t)] for a one-dimensional integer tensor: the distinct
    elements, in ascending order. *)
Fixpoint insert_unique (x : Z) (l : list Z) : list Z :=
  match l with
  | [] => [x]
  | y :: t =>
      if x <? y then x :: l
      else if x =? y then l
      else y :: insert_unique x t
  end.

Definition unique (l : list Z) : list Z := fold_right insert_unique [] l.

(** [l[i]] for a tensor index: a negative index counts from the end, an
    index outside the tensor raises. *)
Definition index_one {A} (l : list A) (i : Z) : result A :=
  let n := Z.of_nat (length l) in
  let i' := if i <? 0 then i + n else i in
  if (0 <=? i') && (i' <? n) then
    match nth_error l (Z.to_nat i') with
    | Some a => Ok a
    | None => Raise IndexError
    end
  else Raise IndexError.

(** Indexing by the offset [i - k] of a valid index. *)
Definition at_offset {A} (l : list A) (k : nat) (i : Z) : result A :=
  match nth_error l (Z.to_nat (i - Z.of_nat k)) with
  | Some a => Ok a
  | None => Raise IndexError
  end.

(** [l[mask]] for an integer index tensor [mask]. *)
Definition select {A} (l : list A) (mask : list Z) : result (list A) :=
  rmap_all (index_one l) mask.

(** ** Formatting *)

Definition digit_char (d : Z) : ascii := ascii_of_nat (48 + Z.to_nat d).

Fixpoint digits_acc (fuel : nat) (n : Z) (acc : string) : string :=
  let acc' := String (digit_char (n mod 10)) acc in
  match fuel with
  | O => acc'
  | S fuel' => if n <? 10 then acc' else digits_acc fuel' (n / 10) acc'
  end.

(** The decimal digits of a natural number (a number has no more decimal
    digits than binary ones). *)
Definition digits (n : Z) : string :=
  digits_acc (Z.to_nat (Z.log2 n)) n EmptyString.

Fixpoint zeros_string (n : nat) : string :=
  match n with
  | O => EmptyString
  | S n' => String "0" (zeros_string n')
  end.

(** [{:d}] *)
Definition fmt_d (n : Z) : string :=
  if n <? 0 then String "-" (digits (- n)) else digits n.

(** [{:0Wd}]: the sign, then zeros up to the width [W], then the digits. *)
Definition fmt_0d (W : nat) (n : Z) : string :=
  let sign := if n <? 0 then "-"%string else EmptyString in
  let ds := digits (Z.abs n) in
  (sign ++ zeros_string (W - String.length sign - String.length ds) ++ ds)%string.

(** [{:.5f}] *)
Definition fmt_5f {F} `{Scalar F} (x : F) : string :=
  let n := fround5 x in
  let sign := if n <? 0 then "-"%string else EmptyString in
  (sign ++ digits (Z.abs n / 100000) ++ "." ++ fmt_0d 5 (Z.abs n mod 100000))%string.

(** Decimal digits, to read formatted fields back. *)
Definition is_digit (c : ascii) : bool :=
  let n := nat_of_ascii c in (48 <=? n)%nat && (n <=? 57)%nat.

Fixpoint all_digits (s : string) : bool :=
  match s with
  | EmptyString => true
  | String c t => is_digit c && all_digits t
  end.

Fixpoint digits_value_acc (s : string) (acc : Z) : Z :=
  match s with
  | EmptyString => acc
  | String c t => digits_value_acc t (10 * acc + (Z.of_nat (nat_of_ascii c) - 48))
  end.

Definition digits_value (s : string) : Z := digits_value_acc s 0.

(** A field of exactly [W] decimal digits that reads as [n]. *)
Definition is_field (W : nat) (n : Z) (s : string) : bool :=
  Nat.eqb (String.length s) W && all_digits s && (digits_value s =? n).

(** [check n], [check (n + 1)], ..., for [fuel] consecutive integers. *)
Fixpoint holds_from (check : Z -> bool) (fuel : nat) (n : Z) : bool :=
  match fuel with
  | O => true
  | S fuel' => check n && holds_from check fuel' (n + 1)
  end.

(** The lines of the training log: fields separated by [" | "]. *)
Definition clf_log_line {F} `{Scalar F} (est_idx epoch batch_idx : Z) (loss : F)
    (correct total : Z) : string :=
  String.concat " | "
    [("Estimator: " ++ fmt_0d 3 est_idx)%string;
     ("Epoch: " ++ fmt_0d 3 epoch)%string;
     ("Batch: " ++ fmt_0d 3 batch_idx)%string;
     ("Loss: " ++ fmt_5f loss)%string;
     ("Correct: " ++ fmt_d correct ++ "/" ++ fmt_d total)%string].

Definition reg_log_line {F} `{Scalar F} (est_idx epoch batch_idx : Z) (loss : F) : string :=
  String.concat " | "
    [("Estimator: " ++ fmt_0d 3 est_idx)%string;
     ("Epoch: " ++ fmt_0d 3 epoch)%string;
     ("Batch: " ++ fmt_0d 3 batch_idx)%string;
     ("Loss: " ++ fmt_5f loss)%string].

(** ** The numeric engine *)

(** A base learner is a module with a state (its parameters and its
    buffers) and a mode.  In evaluation mode a call is a function of the
    state and the input.  In training mode a call may also draw from the
    process-wide generator (dropout) and update the state (the running
    statistics of batch normalisation): it returns the output, the state of
    the learner and the generator after the call.  The loss functions raise
    where the engine's do (shapes that do not broadcast, a class index out
    of range). *)
Class Engine (F : Type) `{Scalar F} : Type := {
  Input : Type;                  (* the features of one example *)
  Params : Type;                 (* the state of one base learner *)
  (* the process-wide random generator: one raw draw *)
  Gen : Type;
  random : Gen -> Z * Gen;
  (* [estimator(X)] in evaluation mode *)
  net : Params -> list Input -> Tensor F;
  (* [estimator(X)] in training mode *)
  net_train : Params -> list Input -> Gen -> Tensor F * Params * Gen;
  cross_entropy : Tensor F -> list Z -> result F;   (* [nn.CrossEntropyLoss()] *)
  mse_loss : Tensor F -> Tensor F -> result F;      (* [nn.MSELoss()] *)
  (* [loss.backward()]: the gradient, with respect to the learner's
     parameters, of the loss of the output of a call on a batch; the call
     is given by its mode, the generator and the state of the learner it
     started from, and its input *)
  grad_cross_entropy : bool -> Gen -> Params -> list Input -> list Z -> Params;
  grad_mse : bool -> Gen -> Params -> list Input -> Tensor F -> Params;
  (* [torch.optim.Adam]: the state of a new optimizer, and one update of
     the parameters from their gradient *)
  OptState : Type;
  adam_init : OptState;
  adam_update : F -> F -> OptState -> Params -> Params -> OptState * Params
}.

(** ** The ensemble object and the state of a run *)

Section State.
Context {F : Type} `{Engine F}.

(** The attributes of a [BaseModule] that [bagging.py] reads or writes.
    [estimators_] holds the current state of every base learner; a
    reference to a base learner is its position in this list.  [training]
    is the mode of the module and of its base learners. *)
Record Ensemble : Type := {
  estimators_ : list Params;
  n_estimators : Z;
  output_dim : Z;
  lr : F;
  weight_decay : F;
  epochs : Z;
  log_interval : Z;
  training : bool
}.

Record World : Type := {
  self : Ensemble;
  gen : Gen;
  stdout : list string
}.

(** A data loader: what iterating it yields, and the length of the data
    set it was built on ([len(loader.dataset)]). *)
Record DataLoader (T : Type) : Type := {
  dataset_len : nat;
  batches : list (list Input * T)
}.

(** [len(loader)]: the number of batches. *)
Definition loader_len {T} (l : DataLoader T) : nat := length (batches l).

(** Computations on the state; a raised exception keeps the state reached
    so far. *)
Definition M (A : Type) : Type := World -> result A * World.

Definition ret {A} (a : A) : M A := fun w => (Ok a, w).

Definition bind {A B} (c : M A) (k : A -> M B) : M B :=
  fun w =>
    match c w with
    | (Ok a, w') => k a w'
    | (Raise e, w') => (Raise e, w')
    end.

Definition raise {A} (e : exn) : M A := fun w => (Raise e, w).

Definition lift {A} (r : result A) : M A := fun w => (r, w).

Definition get_self : M Ensemble := fun w => (Ok (self w), w).

Definition put_self (e : Ensemble) : M unit :=
  fun w => (Ok tt, {| self := e; gen := gen w; stdout := stdout w |}).

Definition get_gen : M Gen := fun w => (Ok (gen w), w).

Definition put_gen (g : Gen) : M unit :=
  fun w => (Ok tt, {| self := self w; gen := g; stdout := stdout w |}).

Definition print (line : string) : M unit :=
  fun w => (Ok tt, {| self := self w; gen := gen w; stdout := stdout w ++ [line] |}).

Notation "x <- c ;; k" := (bind c (fun x => k))
  (at level 61, c at next level, right associativity).
Notation "c ;;; k" := (bind c (fun _ => k))
  (at level 61, right associativity).

(** A [for] loop over [l] that carries the local variables [acc]. *)
Fixpoint for_fold {A S} (l : list A) (acc : S) (body : S -> A -> M S) : M S :=
  match l with
  | [] => ret acc
  | x :: t => acc' <- body acc x ;; for_fold t acc' body
  end.

(** [self.train()] and [self.eval()] *)
Definition with_training (e : Ensemble) (b : bool) : Ensemble :=
  {| estimators_ := estimators_ e; n_estimators := n_estimators e;
     output_dim := output_dim e; lr := lr e;
     weight_decay := weight_decay e; epochs := epochs e;
     log_interval := log_interval e; training := b |}.

Definition with_estimators (e : Ensemble) (ps : list Params) : Ensemble :=
  {| estimators_ := ps; n_estimators := n_estimators e;
     output_dim := output_dim e; lr := lr e;
     weight_decay := weight_decay e; epochs := epochs e;
     log_interval := log_interval e; training := training e |}.

Definition set_training (b : bool) : M unit :=
  e <- get_self ;;
  put_self (with_training e b).

(** The current parameters of the base learner at reference [ref]. *)
Definition read_estimator (ref : nat) : M Params :=
  e <- get_self ;;
  match nth_error (estimators_ e) ref with
  | Some p => ret p
  | None => raise IndexError
  end.

Fixpoint list_update {A} (l : list A) (i : nat) (a : A) : list A :=
  match l, i with
  | [], _ => []
  | _ :: t, O => a :: t
  | x :: t, S i' => x :: list_update t i' a
  end.

Definition write_estimator (ref : nat) (p : Params) : M unit :=
  e <- get_self ;;
  put_self (with_estimators e (list_update (estimators_ e) ref p)).

(** [estimator(X)] for the base learner at reference [ref], in the mode
    the module is in. *)
Definition call_estimator (ref : nat) (X : list Input) : M (Tensor F) :=
  e <- get_self ;;
  p <- read_estimator ref ;;
  if training e then
    g <- get_gen ;;
    let '(output, p', g') := net_train p X g in
    write_estimator ref p' ;;;
    put_gen g' ;;;
    ret output
  else ret (net p X).

(** [torch.randint(high=high, size=(size,))]: [size] raw draws, each
    reduced modulo [high]; an empty range raises. *)
Fixpoint draws (n : nat) (g : Gen) : list Z * Gen :=
  match n with
  | O => ([], g)
  | S n' =>
      let (x, g1) := random g in
      let (xs, g2) := draws n' g1 in
      (x :: xs, g2)
  end.

Definition randint (high : Z) (size : nat) : M (list Z) :=
  fun w =>
    if high <=? 0 then (Raise RuntimeError, w)
    else
      let (xs, g') := draws size (gen w) in
      (Ok (map (fun x => x mod high) xs),
       {| self := self w; gen := g'; stdout := stdout w |}).

(** The bootstrap mask of a batch of size [batch_size]. *)
Definition bootstrap_mask (batch_size : nat) : M (list Z) :=
  mask <- randint (Z.of_nat batch_size) batch_size ;;
  ret (unique mask).

(** An Adam optimizer: the base learner whose parameters it was built
    on, its hyper-parameters and its running state. *)
Record Adam : Type := {
  param_ref : nat;
  adam_lr : F;
  adam_weight_decay : F;
  adam_state : OptState
}.

(** [torch.optim.Adam(estimator.parameters(), lr=.., weight_decay=..)] *)
Definition Adam_new (estimator : nat) (lr_ wd : F) : Adam :=
  {| param_ref := estimator; adam_lr := lr_; adam_weight_decay := wd;
     adam_state := adam_init |}.

(** [zero_grad(); loss.backward(); step()]: the parameters the optimizer
    was built on are replaced by their update from the gradient [g] of
    this loss. *)
Definition Adam_step (o : Adam) (g : Params) : M Adam :=
  p <- read_estimator (param_ref o) ;;
  let (st', p') := adam_update (adam_lr o) (adam_weight_decay o) (adam_state o) p g in
  write_estimator (param_ref o) p' ;;;
  ret {| param_ref := param_ref o; adam_lr := adam_lr o;
         adam_weight_decay := adam_weight_decay o; adam_state := st' |}.

(** [a % b] on Python integers *)
Definition py_mod (a b : Z) : M Z :=
  if b =? 0 then raise ZeroDivisionError else ret (a mod b).
End State.

Notation "x <- c ;; k" := (bind c (fun x => k))
  (at level 61, c at next level, right associativity).
Notation "' pat <- c ;; k" := (bind c (fun x => match x with pat => k end))
  (at level 61, pat pattern, c at next level, right associativity).
Notation "c ;;; k" := (bind c (fun _ => k))
  (at level 61, right associativity).

(** The methods of the base class [BaseModule] that [bagging.py] calls. *)
Class BaseModule (F : Type) `{Engine F} : Type := {
  _validate_parameters : Ensemble -> result unit
}.

(** ** BaggingClassifier *)

Module BaggingClassifier.
Section Methods.
Context {F : Type} `{BaseModule F}.

Definition forward (X : list Input) : M (Tensor F) :=
  e <- get_self ;;
  let batch_size := length X in
  y_pred_proba <- lift (zeros batch_size (output_dim e)) ;;
  (* Average over the class distributions predicted from all base estimators *)
  y_pred_proba <-
    for_fold (seq 0 (length (estimators_ e))) y_pred_proba
      (fun y_pred_proba estimator =>
         output <- call_estimator estimator X ;;
         lift (iadd batch_size (Z.to_nat (output_dim e)) y_pred_proba
                    (softmax output))) ;;
  ret (idiv y_pred_proba (of_Z (n_estimators e))).

Definition msg (est_idx epoch batch_idx : Z) (loss : F) (correct total : Z) : string :=
  ("Estimator: " ++ fmt_0d 3 est_idx ++ " | Epoch: " ++ fmt_0d 3 epoch ++ " |"
   ++ " Batch: " ++ fmt_0d 3 batch_idx ++ " | Loss: " ++ fmt_5f loss ++ " | Correct:"
   ++ " " ++ fmt_d correct ++ "/" ++ fmt_d total)%string.

(** The body of the loop over the batches of [fit]. *)
Definition fit_batch (est_idx : Z) (estimator : nat) (epoch : Z)
    (estimator_optimizer : Adam) (b : Z * (list Input * list Z)) : M Adam :=
  let '(batch_idx, (X_train, y_train)) := b in
  let batch_size := length X_train in
  let loss := f0 in
  (* each base estimator is fitted on a batch of data after sampling with
     replacement *)
  sampling_mask <- bootstrap_mask batch_size ;;
  sampling_X_train <- lift (select X_train sampling_mask) ;;
  sampling_y_train <- lift (select y_train sampling_mask) ;;
  (* what the engine records of the call for [backward] *)
  e <- get_self ;;
  g <- get_gen ;;
  p <- read_estimator estimator ;;
  sampling_output <- call_estimator estimator sampling_X_train ;;
  l <- lift (cross_entropy sampling_output sampling_y_train) ;;
  let loss := fadd loss l in
  estimator_optimizer <-
    Adam_step estimator_optimizer
              (grad_cross_entropy (training e) g p sampling_X_train sampling_y_train) ;;
  (* Print training status *)
  e <- get_self ;;
  r <- py_mod batch_idx (log_interval e) ;;
  if r =? 0 then
    y_pred <- lift (max1_indices (softmax sampling_output)) ;;
    correct <- lift (eq_sum y_pred sampling_y_train) ;;
    print (msg est_idx epoch batch_idx loss correct (Z.of_nat (length y_pred))) ;;;
    ret estimator_optimizer
  else ret estimator_optimizer.

Definition fit_epoch (train_loader : DataLoader (list Z)) (est_idx : Z)
    (estimator : nat) (estimator_optimizer : Adam) (epoch : Z) : M Adam :=
  for_fold (enumerate (batches train_loader)) estimator_optimizer
           (fit_batch est_idx estimator epoch).

(** The body of the loop over the estimators of [fit]. *)
Definition fit_estimator (train_loader : DataLoader (list Z))
    (_ : unit) (ie : Z * nat) : M unit :=
  let '(est_idx, estimator) := ie in
  e <- get_self ;;
  (* an independent optimizer for each base estimator *)
  let estimator_optimizer := Adam_new estimator (lr e) (weight_decay e) in
  _ <- for_fold (range (epochs e)) estimator_optimizer
                (fit_epoch train_loader est_idx estimator) ;;
  ret tt.

Definition fit (train_loader : DataLoader (list Z)) : M unit :=
  set_training true ;;;
  e <- get_self ;;
  lift (_validate_parameters e) ;;;
  for_fold (enumerate (seq 0 (length (estimators_ e)))) tt
           (fit_estimator train_loader).

Definition predict (test_loader : DataLoader (list Z)) : M F :=
  set_training false ;;;
  correct <-
    for_fold (enumerate (batches test_loader)) f0 (fun correct b =>
      let '(batch_idx, (X_test, y_test)) := b in
      output <- forward X_test ;;
      y_pred <- lift (max1_indices output) ;;
      c <- lift (eq_sum y_pred y_test) ;;
      ret (fadd correct (of_Z c))) ;;
  if Nat.eqb (dataset_len test_loader) 0 then raise ZeroDivisionError
  else ret (fdiv (fmul (of_Z 100) correct)
                 (of_Z (Z.of_nat (dataset_len test_loader)))).
End Methods.
End BaggingClassifier.

(** ** BaggingRegressor *)

Module BaggingRegressor.
Section Methods.
Context {F : Type} `{BaseModule F}.

Definition forward (X : list Input) : M (Tensor F) :=
  e <- get_self ;;
  let batch_size := length X in
  y_pred <- lift (zeros batch_size (output_dim e)) ;;
  (* Average over predictions from all base estimators *)
  y_pred <-
    for_fold (seq 0 (length (estimators_ e))) y_pred (fun y_pred estimator =>
      output <- call_estimator estimator X ;;
      lift (iadd batch_size (Z.to_nat (output_dim e)) y_pred output)) ;;
  ret (idiv y_pred (of_Z (n_estimators e))).

Definition msg (est_idx epoch batch_idx : Z) (loss : F) : string :=
  ("Estimator: " ++ fmt_0d 3 est_idx ++ " | Epoch: " ++ fmt_0d 3 epoch ++ " |"
   ++ " Batch: " ++ fmt_0d 3 batch_idx ++ " | Loss: " ++ fmt_5f loss)%string.

(** The body of the loop over the batches of [fit]. *)
Definition fit_batch (est_idx : Z) (estimator : nat) (epoch : Z)
    (estimator_optimizer : Adam) (b : Z * (list Input * Tensor F)) : M Adam :=
  let '(batch_idx, (X_train, y_train)) := b in
  let batch_size := length X_train in
  let loss := f0 in
  sampling_mask <- bootstrap_mask batch_size ;;
  sampling_X_train <- lift (select X_train sampling_mask) ;;
  sampling_y_train <- lift (select y_train sampling_mask) ;;
  (* what the engine records of the call for [backward] *)
  e <- get_self ;;
  g <- get_gen ;;
  p <- read_estimator estimator ;;
  sampling_output <- call_estimator estimator sampling_X_train ;;
  l <- lift (mse_loss sampling_output sampling_y_train) ;;
  let loss := fadd loss l in
  estimator_optimizer <-
    Adam_step estimator_optimizer
              (grad_mse (training e) g p sampling_X_train sampling_y_train) ;;
  (* Print training status *)
  e <- get_self ;;
  r <- py_mod batch_idx (log_interval e) ;;
  if r =? 0 then
    print (msg est_idx epoch batch_idx loss) ;;;
    ret estimator_optimizer
  else ret estimator_optimizer.

Definition fit_epoch (train_loader : DataLoader (Tensor F)) (est_idx : Z)
    (estimator : nat) (estimator_optimizer : Adam) (epoch : Z) : M Adam :=
  for_fold (enumerate (batches train_loader)) estimator_optimizer
           (fit_batch est_idx estimator epoch).

(** The body of the loop over the estimators of [fit]. *)
Definition fit_estimator (train_loader : DataLoader (Tensor F))
    (_ : unit) (ie : Z * nat) : M unit :=
  let '(est_idx, estimator) := ie in
  e <- get_self ;;
  let estimator_optimizer := Adam_new estimator (lr e) (weight_decay e) in
  _ <- for_fold (range (epochs e)) estimator_optimizer
                (fit_epoch train_loader est_idx estimator) ;;
  ret tt.

Definition fit (train_loader : DataLoader (Tensor F)) : M unit :=
  set_training true ;;;
  e <- get_self ;;
  lift (_validate_parameters e) ;;;
  for_fold (enumerate (seq 0 (length (estimators_ e)))) tt
           (fit_estimator train_loader).

Definition predict (test_loader : DataLoader (Tensor F)) : M F :=
  set_training false ;;;
  mse <-
    for_fold (enumerate (batches test_loader)) f0 (fun mse b =>
      let '(batch_idx, (X_test, y_test)) := b in
      output <- forward X_test ;;
      m <- lift (mse_loss output y_test) ;;
      ret (fadd mse m)) ;;
  if Nat.eqb (loader_len test_loader) 0 then raise ZeroDivisionError
  else ret (fdiv mse (of_Z (Z.of_nat (loader_len test_loader)))).
End Methods.
End BaggingRegressor.

(** ** Real arithmetic as an instance of the scalars *)

Definition Rltb (x y : R) : bool := if Rlt_dec x y then true else false.

(** [x * 10^5] rounded to the nearest integer, a tie going to the even
    neighbour. *)
Definition Rround5 (x : R) : Z :=
  let t := (x * 100000)%R in
  let f := Int_part t in
  let r := (t - IZR f)%R in
  if Rlt_dec r (1 / 2) then f
  else if Rlt_dec (1 / 2) r then f + 1
  else if Z.even f then f else f + 1.

#[export] Instance R_Scalar : Scalar R := {
  f0 := 0%R;
  fadd := Rplus;
  fmul := Rmult;
  fdiv := Rdiv;
  fexp := exp;
  of_Z := IZR;
  fltb := Rltb;
  fround5 := Rround5
}.

(** The sum of a list of integers. *)
Definition Zsum (l : list Z) : Z := fold_right Z.add 0 l.

(** The sum of a list of reals. *)
Definition Rsum (l : list R) : R := fold_right Rplus 0%R l.

(** ** Reference definitions the properties are stated against *)

Section Reference.
Context {F : Type} `{BaseModule F}.

Definition tabulate {A} (n : nat) (f : nat -> A) : list A := map f (seq 0 n).

(** A loop whose body only computes. *)
Fixpoint rfold {A S} (f : S -> A -> result S) (l : list A) (acc : S) : result S :=
  match l with
  | [] => Ok acc
  | x :: t => rbind (f acc x) (rfold f t)
  end.

(** The unweighted arithmetic mean of the tensors [outs], as a tensor of
    shape (B, D): entry (i, j) is the sum of the entries (i, j) of the
    tensors divided by the number of tensors. *)
Definition mean_outputs (outs : list (Tensor F)) (B D : nat) : Tensor F :=
  tabulate B (fun i => tabulate D (fun j =>
    fdiv (fsum (map (fun o => entry o i j) outs))
         (of_Z (Z.of_nat (length outs))))).

(** A call [estimator(X)] in the mode [mode]: the output, the state of the
    learner and the generator after the call. *)
Definition call (mode : bool) (p : Params) (X : list Input) (g : Gen)
    : Tensor F * Params * Gen :=
  if mode then net_train p X g else (net p X, p, g).

(** The calls of the learners [ps] on [X], one after the other: their
    outputs, their states after the calls and the generator after the last
    call. *)
Fixpoint calls (mode : bool) (ps : list Params) (X : list Input) (g : Gen)
    : list (Tensor F) * list Params * Gen :=
  match ps with
  | [] => ([], [], g)
  | p :: rest =>
      let '(out, p', g1) := call mode p X g in
      let '(outs, ps', g2) := calls mode rest X g1 in
      (out :: outs, p' :: ps', g2)
  end.

(** What the base learners of the world [w] return on [X] when they are
    called one after the other in the order of [estimators_], and the world
    after these calls. *)
Definition learner_outputs (w : World) (X : list Input) : list (Tensor F) :=
  fst (fst (calls (training (self w)) (estimators_ (self w)) X (gen w))).

Definition after_calls (w : World) (X : list Input) : World :=
  {| self := with_estimators (self w)
               (snd (fst (calls (training (self w)) (estimators_ (self w)) X (gen w))));
     gen := snd (calls (training (self w)) (estimators_ (self w)) X (gen w));
     stdout := stdout w |}.

(** The shape contract of the base learners of [w] on the batch [X]: every
    call returns one row per example and [output_dim] entries per row. *)
Definition outputs_shaped (w : World) (X : list Input) : Prop :=
  Forall (has_shape (length X) (Z.to_nat (output_dim (self w)))) (learner_outputs w X).

(** The elements of [l] whose index is in [mask], in the order of [l]. *)
Definition keep_indices {A} (mask : list Z) (l : list A) : list A :=
  map snd (filter (fun ia => existsb (Z.eqb (fst ia)) mask) (enumerate l)).

(** The bootstrap mask drawn in the world [w] for a batch of size [B], and
    the generator after the draw. *)
Definition mask_of (w : World) (B : nat) : list Z :=
  unique (map (fun x => x mod Z.of_nat B) (fst (draws B (gen w)))).

Definition gen_after (w : World) (B : nat) : Gen := snd (draws B (gen w)).

(** The call that a step of [fit] makes on the bootstrap subset of the
    batch [X], for the learner in state [p]: it follows the draw of the
    mask. *)
Definition step_call (w : World) (X : list Input) (p : Params)
    : Tensor F * Params * Gen :=
  call (training (self w)) p (keep_indices (mask_of w (length X)) X)
       (gen_after w (length X)).

Definition step_output (w : World) (X : list Input) (p : Params) : Tensor F :=
  fst (fst (step_call w X p)).

(** The gradient that [backward] computes in that step. *)
Definition step_grad_cross_entropy (w : World) (X : list Input) (y : list Z)
    (p : Params) : Params :=
  grad_cross_entropy (training (self w)) (gen_after w (length X)) p
    (keep_indices (mask_of w (length X)) X) (keep_indices (mask_of w (length X)) y).

Definition step_grad_mse (w : World) (X : list Input) (y : Tensor F)
    (p : Params) : Params :=
  grad_mse (training (self w)) (gen_after w (length X)) p
    (keep_indices (mask_of w (length X)) X) (keep_indices (mask_of w (length X)) y).

(** The world after a step of [fit] on the learner at [i] that got as far
    as the call, or as the optimizer step: the learner has the state [p'],
    the generator is the one the call left, nothing is printed. *)
Definition stepped (w : World) (X : list Input) (i : nat) (p p' : Params) : World :=
  {| self := with_estimators (self w) (list_update (estimators_ (self w)) i p');
     gen := snd (step_call w X p);
     stdout := stdout w |}.

(** The optimizer step of that training step: the update, by the optimizer
    [o] and from the gradient [grad], of the state that the call left. *)
Definition step_update (o : Adam) (w : World) (X : list Input) (p grad : Params)
    : OptState * Params :=
  adam_update (adam_lr o) (adam_weight_decay o) (adam_state o)
              (snd (fst (step_call w X p))) grad.

(** The optimizer [o] with the running state [st]. *)
Definition optimizer_after (o : Adam) (st : OptState) : Adam :=
  {| param_ref := param_ref o; adam_lr := adam_lr o;
     adam_weight_decay := adam_weight_decay o; adam_state := st |}.

(** The world [w] after one more line of output. *)
Definition printed (w : World) (line : string) : World :=
  {| self := self w; gen := gen w; stdout := stdout w ++ [line] |}.

(** The world after [self.eval()]. *)
Definition eval_world (w : World) : World :=
  {| self := with_training (self w) false; gen := gen w; stdout := stdout w |}.

(** The number of examples that iterating over the batches [bs] yields. *)
Definition total_examples {T} (bs : list (list Input * T)) : nat :=
  fold_right plus O (map (fun b => length (fst b)) bs).

(** The world in which the ensemble holds the single base learner [p]. *)
Definition solo (w : World) (p : Params) : World :=
  {| self := with_estimators (self w) [p]; gen := gen w; stdout := stdout w |}.

Definition with_world_estimators (w : World) (ps : list Params) : World :=
  {| self := with_estimators (self w) ps; gen := gen w; stdout := stdout w |}.

(** Training the base learners [ps] one after the other, [session] being
    the training of one base learner on its own, in a world that holds no
    other: what one session hands to the next is the generator and the
    standard output, and an exception ends the sequence. *)
Fixpoint one_by_one (session : Z -> M unit) (est_idx : Z) (ps : list Params)
    (w : World) : result unit * World :=
  match ps with
  | [] => (Ok tt, with_world_estimators w [])
  | p :: rest =>
      match session est_idx (solo w p) with
      | (Ok _, w1) =>
          let '(r, w2) := one_by_one session (est_idx + 1) rest w1 in
          (r, with_world_estimators w2 (estimators_ (self w1) ++ estimators_ (self w2)))
      | (Raise e, w1) =>
          (Raise e, with_world_estimators w1 (estimators_ (self w1) ++ rest))
      end
  end.

(** The steps of a training session of [E] epochs on the loader [l], in
    the order they are made: each with its epoch, the index of its batch
    and the batch. *)
Definition steps {T} (l : DataLoader T) (E : Z) : list (Z * (Z * (list Input * T))) :=
  flat_map (fun epoch => map (fun b => (epoch, b)) (enumerate (batches l))) (range E).

(** The world after [self.train()]. *)
Definition train_world (w : World) : World :=
  {| self := with_training (self w) true; gen := gen w; stdout := stdout w |}.

(** [w'] is the world [w] cut down to the base learner at position [i],
    the base learners of [w] being those of [ps] but for that one. *)
Definition in_slot (ps : list Params) (i : nat) (w w' : World) : Prop :=
  exists p, estimators_ (self w) = list_update ps i p /\ w' = solo w p.

(** Two computations, one on a world and one on that world cut down to the
    base learner at [i], have the same outcome: related values or the same
    exception, and related worlds. *)
Definition sim (ps : list Params) (i : nat) {A A'} (RA : A -> A' -> Prop)
    (c : M A) (c' : M A') : Prop :=
  forall w w', in_slot ps i w w' ->
    match c w, c' w' with
    | (Ok a, w1), (Ok a', w1') => RA a a' /\ in_slot ps i w1 w1'
    | (Raise e, w1), (Raise e', w1') => e = e' /\ in_slot ps i w1 w1'
    | _, _ => False
    end.

(** Ensembles that differ at most in their base learners. *)
Definition same_config (e e' : Ensemble) : Prop :=
  with_estimators e [] = with_estimators e' [].

(** The optimizer built on the learner at [i], and its counterpart built on
    the only learner of the cut-down world. *)
Definition same_opt (i : nat) (o o' : Adam) : Prop :=
  param_ref o = i /\ param_ref o' = O /\ adam_lr o = adam_lr o' /\
  adam_weight_decay o = adam_weight_decay o' /\ adam_state o = adam_state o'.

(** What a computation may change of a world when it only trains and
    prints: the ensemble keeps its configuration and its number of base
    learners, and the output is only added to. *)
Definition grows (w w' : World) : Prop :=
  with_estimators (self w') [] = with_estimators (self w) [] /\
  length (estimators_ (self w')) = length (estimators_ (self w)) /\
  exists lines, stdout w' = stdout w ++ lines.

Definition keeps {A} (c : M A) : Prop := forall w, grows w (snd (c w)).


(** A batch that is not empty and has one target per example. *)
Definition paired {T} (b : list Input * list T) : Prop :=
  fst b <> [] /\ length (snd b) = length (fst b).



(** What [fit] leaves of the world [w] in the world [w1], whatever it
    returns or raises: the hyper-parameters and the number of base learners
    are kept, the mode is training, and the output starts with what it
    was. *)
Definition after_fit (w w1 : World) : Prop :=
  n_estimators (self w1) = n_estimators (self w) /\
  output_dim (self w1) = output_dim (self w) /\
  lr (self w1) = lr (self w) /\
  weight_decay (self w1) = weight_decay (self w) /\
  epochs (self w1) = epochs (self w) /\
  log_interval (self w1) = log_interval (self w) /\
  training (self w1) = true /\
  length (estimators_ (self w1)) = length (estimators_ (self w)) /\
  exists lines, stdout w1 = stdout w ++ lines.

End Reference.

(** ** A small engine to run the definitions on

    A linear base learner without bias on one real feature: the parameters
    are one weight per output, [net] multiplies the feature by each weight,
    in training mode as in evaluation mode.  The losses raise when the
    output and the target do not have the same number of rows, the
    cross-entropy also on a class index that is not a column of the
    output.  The optimizer makes plain gradient steps with weight decay
    (the moment estimates of Adam are left out), the generator is a linear
    congruential one.  A second learner drops its output at random in
    training mode and counts its training calls. *)

Module Example.
Local Open Scope R_scope.

Definition linear (ws : list R) (X : list R) : Tensor R :=
  map (fun x => map (fun wk => wk * x) ws) X.

Definition mse (out y : Tensor R) : R :=
  Rsum (map (fun oy => (fst oy - snd oy) * (fst oy - snd oy))
            (combine (concat out) (concat y)))
  / INR (length (concat out)).

Definition nll (out : Tensor R) (ys : list Z) : R :=
  Rsum (map (fun ry => - ln (nth (Z.to_nat (snd ry)) (softmax_row (fst ry)) 0))
            (combine out ys))
  / INR (length out).

Definition mse_checked (out y : Tensor R) : result R :=
  if Nat.eqb (length out) (length y) then Ok (mse out y) else Raise RuntimeError.

Definition nll_checked (out : Tensor R) (ys : list Z) : result R :=
  if Nat.eqb (length out) (length ys) then
    if forallb (fun ry => (0 <=? snd ry)%Z && (snd ry <? Z.of_nat (length (fst ry)))%Z)
               (combine out ys)
    then Ok (nll out ys) else Raise IndexError
  else Raise ValueError.

Definition grad_mse_linear (ws : list R) (X : list R) (y : Tensor R) : list R :=
  map (fun k =>
         2 * Rsum (map (fun xy => (nth k ws 0 * fst xy - nth k (snd xy) 0) * fst xy)
                       (combine X y))
         / INR (length X * length ws))
      (seq 0 (length ws)).

Definition grad_nll_linear (ws : list R) (X : list R) (ys : list Z) : list R :=
  map (fun k =>
         Rsum (map (fun xy =>
                      (nth k (softmax_row (map (fun wk => wk * fst xy) ws)) 0
                       - (if Z.eqb (Z.of_nat k) (snd xy) then 1 else 0)) * fst xy)
                   (combine X ys))
         / INR (length X))
      (seq 0 (length ws)).

Definition gradient_step (lr_ wd : R) (t : nat) (ps g : list R) : nat * list R :=
  (S t, map (fun pg => fst pg - lr_ * (snd pg + wd * fst pg)) (combine ps g)).

Definition lcg (g : Z) : Z * Z :=
  let g' := ((g * 6364136223846793005 + 1442695040888963407) mod 2 ^ 64)%Z in
  (g', g').

#[export] Instance engine : @Engine R R_Scalar := {
  Input := R;
  Params := list R;
  Gen := Z;
  random := lcg;
  net := linear;
  net_train := fun ws X g => (linear ws X, ws, g);
  cross_entropy := nll_checked;
  mse_loss := mse_checked;
  grad_cross_entropy := fun _ _ => grad_nll_linear;
  grad_mse := fun _ _ => grad_mse_linear;
  OptState := nat;
  adam_init := O;
  adam_update := gradient_step
}.

Definition validate (e : Ensemble) : result unit :=
  if ((0 <? n_estimators e) && (0 <? output_dim e) && (0 <? epochs e)
      && (0 <? log_interval e))%Z
  then Ok tt else Raise ValueError.

#[export] Instance base_module : @BaseModule R R_Scalar engine := {
  _validate_parameters := validate
}.

(** Two learners with one output each, and a world that holds them. *)
Definition ensemble2 : Ensemble := {|
  estimators_ := [[1]; [3]];
  n_estimators := 2;
  output_dim := 1;
  lr := 1 / 10;
  weight_decay := 0;
  epochs := 1;
  log_interval := 1;
  training := true
|}.

Definition world2 : World := {| self := ensemble2; gen := 7%Z; stdout := [] |}.

(** The same learners in evaluation mode, another generator state and
    some output already printed. *)
Definition world2' : World :=
  {| self := with_training ensemble2 false; gen := 99%Z; stdout := ["x"%string] |}.

(** A data set of three examples served in batches of two, the last and
    incomplete batch being dropped ([batch_size=2, drop_last=True]). *)
Definition loader_drop_last : DataLoader (list Z) :=
  {| dataset_len := 3; batches := [([1; 2], [0; 0]%Z)] |}.

(** A batch of two examples and a new optimizer on the first learner. *)
Definition X2 : list R := [1; 2].

Definition opt0 : Adam := Adam_new 0 (lr ensemble2) (weight_decay ensemble2).

(** The outputs of [forward] for these learners on a batch [X]. *)
Definition clf_out2 (X : list R) : Tensor R :=
  mean_outputs (map (fun p => softmax (linear p X)) [[1]; [3]]) (length X) 1.

Definition reg_out2 (X : list R) : Tensor R :=
  mean_outputs (map (fun p => linear p X) [[1]; [3]]) (length X) 1.

(** Two batches of a regression data set, of two and of one example. *)
Definition loader_reg : DataLoader (Tensor R) :=
  {| dataset_len := 3; batches := [([1; 2], [[2]; [4]]); ([3], [[5]])] |}.

(** An ensemble of a single learner. *)
Definition ensemble1 : Ensemble := {|
  estimators_ := [[1]];
  n_estimators := 1;
  output_dim := 1;
  lr := 1 / 10;
  weight_decay := 0;
  epochs := 1;
  log_interval := 1;
  training := true
|}.

Definition world1 : World := {| self := ensemble1; gen := 7%Z; stdout := [] |}.

(** The same learners with a log interval of 0, which [validate] rejects. *)
Definition ensemble_bad : Ensemble := {|
  estimators_ := [[1]; [3]];
  n_estimators := 2;
  output_dim := 1;
  lr := 1 / 10;
  weight_decay := 0;
  epochs := 1;
  log_interval := 0;
  training := false
|}.

Definition world_bad : World := {| self := ensemble_bad; gen := 7%Z; stdout := [] |}.

(** Loaders that yield nothing. *)
Definition loader_none_clf : DataLoader (list Z) := {| dataset_len := 0; batches := [] |}.

Definition loader_none_reg : DataLoader (Tensor R) := {| dataset_len := 0; batches := [] |}.

(** A training stream of two classification batches. *)
Definition loader_clf : DataLoader (list Z) :=
  {| dataset_len := 3; batches := [([1; 2], [0; 0]%Z); ([3], [0]%Z)] |}.





(** A learner that returns two rows whatever the batch is, and the engine
    and the world that hold it. *)
Definition two_rows (p : list R) (X : list R) : Tensor R := [p; p].

Definition engine_two_rows : @Engine R R_Scalar := {|
  Input := R;
  Params := list R;
  Gen := Z;
  random := lcg;
  net := two_rows;
  net_train := fun p X g => (two_rows p X, p, g);
  cross_entropy := nll_checked;
  mse_loss := mse_checked;
  grad_cross_entropy := fun _ _ => grad_nll_linear;
  grad_mse := fun _ _ => grad_mse_linear;
  OptState := nat;
  adam_init := O;
  adam_update := gradient_step
|}.







(** A learner with dropout and a counter of its training calls: its state
    is a weight and the counter.  In evaluation mode it multiplies the
    feature by the weight; in training mode it draws from the generator and
    returns zeros on an even draw, twice the product on an odd one.  The
    generator of this engine is a counter. *)
Definition dropout_eval (p : R * Z) (X : list R) : Tensor R :=
  map (fun x => [fst p * x]) X.

Definition dropout_train (p : R * Z) (X : list R) (g : Z) : Tensor R * (R * Z) * Z :=
  (map (fun x => [if Z.even g then 0 else 2 * (fst p * x)]) X,
   (fst p, (snd p + 1)%Z), (g + 1)%Z).

Definition engine_dropout : @Engine R R_Scalar := {|
  Input := R;
  Params := (R * Z)%type;
  Gen := Z;
  random := fun g => (g, (g + 1)%Z);
  net := dropout_eval;
  net_train := dropout_train;
  cross_entropy := nll_checked;
  mse_loss := mse_checked;
  grad_cross_entropy := fun _ _ p _ _ => p;
  grad_mse := fun _ _ p _ _ => p;
  OptState := nat;
  adam_init := O;
  adam_update := fun lr_ wd t p g => (S t, p)
|}.

(** An ensemble of one such learner in training mode, in two worlds that
    differ in nothing but the state of the generator. *)
Definition ensemble_dropout : @Ensemble R R_Scalar engine_dropout :=
  @Build_Ensemble R R_Scalar engine_dropout [(1, 0%Z)] 1%Z 1%Z (1 / 10) 0 1%Z 1%Z true.

Definition world_dropout (g : Z) : @World R R_Scalar engine_dropout :=
  @Build_World R R_Scalar engine_dropout ensemble_dropout g [].

Definition world_two_rows : @World R R_Scalar engine_two_rows :=
  @Build_World R R_Scalar engine_two_rows
    (@Build_Ensemble R R_Scalar engine_two_rows [[1]] 1%Z 1%Z (1 / 10) 0 1%Z 1%Z false)
    7%Z [].
End Example.

(** * Properties *)

(** ** Tensors *)

Section TensorFacts.
Context {F : Type} `{Scalar F}.

Lemma rmap_all_id {A} (f : A -> result A) (l : list A) :
  Forall (fun x => f x = Ok x) l -> rmap_all f l = Ok l.
Proof.
  induction 1 as [|x l Hx _ IH]; simpl; [reflexivity|].
  now rewrite Hx, IH.
Qed.

Lemma expand_row_same (D : nat) (r : list F) :
  length r = D -> expand_row D r = Ok r.
Proof.
  intros <-. unfold expand_row. now rewrite Nat.eqb_refl.
Qed.

Lemma expand_as_same (B D : nat) (t : Tensor F) :
  has_shape B D t -> expand_as B D t = Ok t.
Proof.
  intros [<- Hr]. unfold expand_as. rewrite Nat.eqb_refl.
  apply rmap_all_id. revert Hr. apply Forall_impl.
  intros r. apply expand_row_same.
Qed.

Lemma length_add_rows (a b : list F) :
  length b = length a -> length (add_rows a b) = length a.
Proof.
  revert b; induction a as [|x a IH]; intros [|y b]; simpl; try discriminate; auto.
Qed.

Lemma nth_add_rows (a b : list F) (j : nat) :
  length b = length a -> (j < length a)%nat ->
  nth j (add_rows a b) f0 = fadd (nth j a f0) (nth j b f0).
Proof.
  revert b j; induction a as [|x a IH]; intros [|y b] [|j]; simpl;
    try discriminate; try lia; auto.
  intros Hl Hj. apply IH; lia.
Qed.

Lemma has_shape_add (B D : nat) (a b : Tensor F) :
  has_shape B D a -> has_shape B D b -> has_shape B D (add_tensors a b).
Proof.
  revert B b; induction a as [|r a IH]; intros B [|s b] [Ha Hra] [Hb Hrb];
    simpl in *; subst B; try discriminate; try (split; [reflexivity|constructor]).
  inversion Hra as [|? ? Hr Hra']; inversion Hrb as [|? ? Hs Hrb']; subst.
  destruct (IH (length a) b) as [Hl Hf]; [split; auto | split; auto; lia |].
  split; [simpl; now rewrite Hl|].
  constructor; [|exact Hf]. apply length_add_rows. congruence.
Qed.

Lemma entry_add (B D : nat) (a b : Tensor F) (i j : nat) :
  has_shape B D a -> has_shape B D b -> (i < B)%nat -> (j < D)%nat ->
  entry (add_tensors a b) i j = fadd (entry a i j) (entry b i j).
Proof.
  unfold entry.
  revert B b i; induction a as [|r a IH]; intros B [|s b] i [Ha Hra] [Hb Hrb] Hi Hj;
    simpl in *; subst B; try discriminate; try lia.
  inversion Hra as [|? ? Hr Hra']; inversion Hrb as [|? ? Hs Hrb']; subst.
  destruct i as [|i].
  - apply nth_add_rows; [congruence | lia].
  - apply (IH (length a)); [split; auto | split; auto; lia | lia | lia].
Qed.

Lemma has_shape_repeat (B D : nat) (x : F) :
  has_shape B D (repeat (repeat x D) B).
Proof.
  split; [apply repeat_length|].
  apply Forall_forall. intros r Hr. apply repeat_spec in Hr. subst r.
  apply repeat_length.
Qed.

Lemma entry_repeat (B D : nat) (i j : nat) :
  entry (repeat (repeat f0 D) B) i j = f0.
Proof.
  unfold entry.
  destruct (Nat.lt_ge_cases i B) as [Hi|Hi].
  - rewrite (nth_indep _ [] (repeat f0 D)) by (now rewrite repeat_length).
    rewrite nth_repeat. apply nth_repeat.
  - rewrite (nth_overflow (repeat _ B)) by (now rewrite repeat_length).
    now destruct j.
Qed.

Lemma has_shape_idiv (B D : nat) (t : Tensor F) (n : F) :
  has_shape B D t -> has_shape B D (idiv t n).
Proof.
  intros [Hl Hr]. split; [unfold idiv; now rewrite length_map|].
  unfold idiv. apply Forall_map. revert Hr. apply Forall_impl.
  intros r Hlr. now rewrite length_map.
Qed.

Lemma entry_idiv (B D : nat) (t : Tensor F) (n : F) (i j : nat) :
  has_shape B D t -> (i < B)%nat -> (j < D)%nat ->
  entry (idiv t n) i j = fdiv (entry t i j) n.
Proof.
  intros [Hl Hr] Hi Hj. unfold entry, idiv.
  assert (Hrow : length (nth i t []) = D).
  { rewrite Forall_forall in Hr. apply Hr. apply nth_In. lia. }
  rewrite (nth_indep _ [] (map (fun x => fdiv x n) [])) by (rewrite length_map; lia).
  rewrite (map_nth (map (fun x => fdiv x n))).
  rewrite (nth_indep _ f0 (fdiv f0 n)) by (rewrite length_map; lia).
  now rewrite (map_nth (fun x => fdiv x n)).
Qed.

Lemma has_shape_softmax (B D : nat) (t : Tensor F) :
  has_shape B D t -> has_shape B D (softmax t).
Proof.
  intros [Hl Hr]. unfold softmax. split; [now rewrite length_map|].
  apply Forall_map. revert Hr. apply Forall_impl.
  intros r Hlr. unfold softmax_row. now rewrite !length_map.
Qed.

(** A tensor is determined by its shape and its entries. *)
Lemma tensor_ext (B D : nat) (t u : Tensor F) :
  has_shape B D t -> has_shape B D u ->
  (forall i j, (i < B)%nat -> (j < D)%nat -> entry t i j = entry u i j) ->
  t = u.
Proof.
  intros [Hlt Hrt] [Hlu Hru] He.
  apply (nth_ext _ _ [] []); [congruence|].
  intros i Hi. rewrite Forall_forall in Hrt, Hru.
  assert (Hti : length (nth i t []) = D) by (apply Hrt, nth_In; lia).
  assert (Hui : length (nth i u []) = D) by (apply Hru, nth_In; lia).
  apply (nth_ext _ _ f0 f0); [congruence|].
  intros j Hj. apply He; lia.
Qed.

Lemma has_shape_tabulate (B D : nat) (f : nat -> nat -> F) :
  has_shape B D (map (fun i => map (f i) (seq 0 D)) (seq 0 B)).
Proof.
  split; [now rewrite length_map, length_seq|].
  apply Forall_map, Forall_forall. intros i _.
  now rewrite length_map, length_seq.
Qed.

Lemma entry_tabulate (B D : nat) (f : nat -> nat -> F) (i j : nat) :
  (i < B)%nat -> (j < D)%nat ->
  entry (map (fun i => map (f i) (seq 0 D)) (seq 0 B)) i j = f i j.
Proof.
  intros Hi Hj. unfold entry.
  rewrite (nth_indep _ [] ((fun i => map (f i) (seq 0 D)) O))
    by (now rewrite length_map, length_seq).
  rewrite (map_nth (fun i => map (f i) (seq 0 D))), seq_nth by lia. simpl.
  rewrite (nth_indep _ f0 (f i O)) by (now rewrite length_map, length_seq).
  rewrite (map_nth (f i)), seq_nth by lia. reflexivity.
Qed.

(** The accumulation of a list of tensors of one shape, entry by entry. *)
Lemma rfold_iadd (B D : nat) (outs : list (Tensor F)) (acc : Tensor F) :
  has_shape B D acc -> Forall (has_shape B D) outs ->
  exists acc',
    rfold (iadd B D) outs acc = Ok acc' /\ has_shape B D acc' /\
    forall i j, (i < B)%nat -> (j < D)%nat ->
      entry acc' i j = fold_left fadd (map (fun o => entry o i j) outs) (entry acc i j).
Proof.
  intros Hacc Houts. revert acc Hacc.
  induction Houts as [|o outs Ho _ IH]; intros acc Hacc.
  - exists acc. simpl. auto.
  - simpl. unfold iadd at 1. rewrite (expand_as_same Ho). simpl.
    destruct (IH (add_tensors acc o)) as (acc' & Hrun & Hsh & Hent).
    { now apply has_shape_add. }
    exists acc'. split; [exact Hrun|]. split; [exact Hsh|].
    intros i j Hi Hj. rewrite Hent by assumption. simpl.
    now rewrite (entry_add Hacc Ho Hi Hj).
Qed.
End TensorFacts.

(** ** Loops *)

Section LoopFacts.
Context {F : Type} `{Engine F}.

Lemma for_fold_lift {A S} (f : S -> A -> result S) (l : list A) (acc : S) (w : World) :
  for_fold l acc (fun a x => lift (f a x)) w = (rfold f l acc, w).
Proof.
  revert acc; induction l as [|x l IH]; intros acc; simpl; [reflexivity|].
  unfold bind, lift at 1. destruct (f acc x); simpl; auto.
Qed.

Lemma rfold_map {A B S} (f : S -> B -> result S) (g : A -> B) (l : list A) (acc : S) :
  rfold (fun a x => f a (g x)) l acc = rfold f (map g l) acc.
Proof.
  revert acc; induction l as [|x l IH]; intros acc; simpl; [reflexivity|].
  destruct (f acc (g x)); simpl; auto.
Qed.
End LoopFacts.

(** ** Updates of a list *)

Section ListUpdate.
Context {F : Type} `{Engine F}.

Lemma nth_error_list_update_eq {A} (l : list A) (i : nat) (a : A) :
  (i < length l)%nat -> nth_error (list_update l i a) i = Some a.
Proof.
  revert i; induction l as [|x l IH]; intros [|i] Hi; simpl in *; try lia; auto.
  apply IH. lia.
Qed.

Lemma nth_error_list_update_ne {A} (l : list A) (i j : nat) (a : A) :
  j <> i -> nth_error (list_update l i a) j = nth_error l j.
Proof.
  revert i j; induction l as [|x l IH]; intros [|i] [|j] Hne; simpl; auto; try congruence.
Qed.

Lemma list_update_twice {A} (l : list A) (i : nat) (a b : A) :
  list_update (list_update l i a) i b = list_update l i b.
Proof.
  revert i; induction l as [|x l IH]; intros [|i]; simpl; auto. now rewrite IH.
Qed.

Lemma list_update_same {A} (l : list A) (i : nat) (a : A) :
  nth_error l i = Some a -> list_update l i a = l.
Proof.
  revert i; induction l as [|x l IH]; intros [|i] Hn; simpl in *; auto; try congruence.
  now rewrite IH.
Qed.

Lemma length_list_update {A} (l : list A) (i : nat) (a : A) :
  length (list_update l i a) = length l.
Proof. revert i; induction l as [|x l IH]; intros [|i]; simpl; auto. Qed.

Lemma list_update_middle {A} (l1 l2 : list A) (a b : A) :
  list_update (l1 ++ a :: l2) (length l1) b = l1 ++ b :: l2.
Proof. induction l1 as [|x l1 IH]; simpl; [reflexivity|now rewrite IH]. Qed.

Lemma nth_error_middle {A} (l1 l2 : list A) (a : A) :
  nth_error (l1 ++ a :: l2) (length l1) = Some a.
Proof. induction l1 as [|x l1 IH]; simpl; auto. Qed.
End ListUpdate.

(** ** The calls of the base learners *)

Section CallFacts.
Context {F : Type} `{Engine F}.

Lemma calls_cons (mode : bool) (p : Params) (rest : list Params) (X : list Input) (g : Gen) :
  calls mode (p :: rest) X g =
    (fst (fst (call mode p X g))
       :: fst (fst (calls mode rest X (snd (call mode p X g)))),
     snd (fst (call mode p X g))
       :: snd (fst (calls mode rest X (snd (call mode p X g)))),
     snd (calls mode rest X (snd (call mode p X g)))).
Proof.
  simpl. destruct (call mode p X g) as [[out p'] g1]. simpl.
  destruct (calls mode rest X g1) as [[outs ps'] g2]. reflexivity.
Qed.

(** In evaluation mode the calls return the values of [net] and change
    nothing. *)
Lemma calls_eval (ps : list Params) (X : list Input) (g : Gen) :
  calls false ps X g = (map (fun p => net p X) ps, ps, g).
Proof.
  induction ps as [|p ps IH]; [reflexivity|].
  rewrite calls_cons. unfold call. simpl. now rewrite IH.
Qed.

Lemma length_calls (mode : bool) (ps : list Params) (X : list Input) (g : Gen) :
  length (fst (fst (calls mode ps X g))) = length ps /\
  length (snd (fst (calls mode ps X g))) = length ps.
Proof.
  revert g; induction ps as [|p ps IH]; intros g; [split; reflexivity|].
  rewrite calls_cons. simpl. destruct (IH (snd (call mode p X g))) as [-> ->]. auto.
Qed.

Lemma world_eta (w : World) :
  {| self := with_estimators (self w) (estimators_ (self w));
     gen := gen w; stdout := stdout w |} = w.
Proof. destruct w as [[] g out]. reflexivity. Qed.

Lemma learner_outputs_eval (w : World) (X : list Input) :
  training (self w) = false ->
  learner_outputs w X = map (fun p => net p X) (estimators_ (self w)).
Proof. intros Ht. unfold learner_outputs. now rewrite Ht, calls_eval. Qed.

Lemma after_calls_eval (w : World) (X : list Input) :
  training (self w) = false -> after_calls w X = w.
Proof.
  intros Ht. unfold after_calls. rewrite Ht, calls_eval. simpl. apply world_eta.
Qed.

Lemma length_learner_outputs (w : World) (X : list Input) :
  length (learner_outputs w X) = length (estimators_ (self w)).
Proof. unfold learner_outputs. apply length_calls. Qed.

(** In evaluation mode the shape contract is a contract on [net]. *)
Lemma outputs_shaped_eval (w : World) (X : list Input) :
  training (self w) = false ->
  (outputs_shaped w X <->
   forall p, In p (estimators_ (self w)) ->
     has_shape (length X) (Z.to_nat (output_dim (self w))) (net p X)).
Proof.
  intros Ht. unfold outputs_shaped. rewrite (learner_outputs_eval _ X Ht).
  rewrite Forall_map, Forall_forall. reflexivity.
Qed.

(** One call through a reference. *)
Lemma call_estimator_run (w : World) (i : nat) (p : Params) (X : list Input) :
  nth_error (estimators_ (self w)) i = Some p ->
  call_estimator i X w =
    (Ok (fst (fst (call (training (self w)) p X (gen w)))),
     if training (self w) then
       {| self := with_estimators (self w)
                    (list_update (estimators_ (self w)) i
                       (snd (fst (call true p X (gen w)))));
          gen := snd (call true p X (gen w));
          stdout := stdout w |}
     else w).
Proof.
  intros Hp. unfold call_estimator.
  unfold bind at 1, get_self at 1. unfold bind at 1, read_estimator, bind at 1, get_self at 1.
  rewrite Hp. unfold ret at 1.
  destruct (training (self w)); [|reflexivity].
  unfold call, bind at 1, get_gen.
  destruct (net_train p X (gen w)) as [[output p'] g']. reflexivity.
Qed.

Lemma call_estimator_missing (w : World) (i : nat) (X : list Input) :
  nth_error (estimators_ (self w)) i = None ->
  call_estimator i X w = (Raise IndexError, w).
Proof.
  intros Hp. unfold call_estimator.
  unfold bind at 1, get_self at 1. unfold bind at 1, read_estimator, bind at 1, get_self at 1.
  rewrite Hp. reflexivity.
Qed.

(** The loop of [forward] over the learners not yet called: its result is
    the accumulation of their outputs; in evaluation mode the state is
    left as it is, and when the loop completes every learner has the state
    its call left. *)
Lemma forward_loop (act : Tensor F -> Tensor F) (B D : nat) (X : list Input)
    (rest : list Params) :
  forall (done : list Params) (w : World) (y : Tensor F),
    estimators_ (self w) = done ++ rest ->
    exists w',
      for_fold (seq (length done) (length rest)) y
        (fun y i => output <- call_estimator i X ;; lift (iadd B D y (act output))) w
      = (rfold (fun y o => iadd B D y (act o))
               (fst (fst (calls (training (self w)) rest X (gen w)))) y, w')
      /\ (training (self w) = false -> w' = w)
      /\ (forall y',
            rfold (fun y o => iadd B D y (act o))
                  (fst (fst (calls (training (self w)) rest X (gen w)))) y = Ok y' ->
            w' = {| self := with_estimators (self w)
                              (done ++ snd (fst (calls (training (self w)) rest X (gen w))));
                    gen := snd (calls (training (self w)) rest X (gen w));
                    stdout := stdout w |}).
Proof.
  induction rest as [|p rest IH]; intros done w y Hps.
  - exists w. simpl. split; [reflexivity|]. split; [auto|].
    intros y' _. rewrite app_nil_r in *. rewrite <- Hps. symmetry. apply world_eta.
  - assert (Hp : nth_error (estimators_ (self w)) (length done) = Some p)
      by (rewrite Hps; apply nth_error_middle).
    rewrite calls_cons. cbn [fst snd length seq for_fold rfold].
    unfold bind at 1. unfold bind at 1. rewrite (call_estimator_run _ _ X Hp).
    set (w1 := if training (self w) then _ else w).
    assert (Hw1 : estimators_ (self w1)
                  = (done ++ [snd (fst (call (training (self w)) p X (gen w)))]) ++ rest
                  /\ training (self w1) = training (self w)
                  /\ gen w1 = snd (call (training (self w)) p X (gen w))
                  /\ stdout w1 = stdout w
                  /\ with_estimators (self w1) [] = with_estimators (self w) []).
    { subst w1. rewrite <- app_assoc. simpl.
      destruct (training (self w)) eqn:Ht.
      - cbn. rewrite Hps, list_update_middle. auto.
      - unfold call. simpl. auto. }
    destruct Hw1 as (Hps1 & Ht1 & Hg1 & Ho1 & Hc1).
    unfold lift at 1.
    destruct (iadd B D y (act (fst (fst (call (training (self w)) p X (gen w))))))
      as [y1|e] eqn:Hadd; cbn [rbind].
    + destruct (IH _ w1 y1 Hps1) as (w' & Hrun & Heval & Hok).
      rewrite length_app, Nat.add_comm in Hrun. cbn [length Nat.add] in Hrun.
      rewrite Ht1, Hg1 in Hrun, Hok. rewrite Ht1 in Heval.
      exists w'. split; [exact Hrun|]. split.
      * intros Ht. rewrite (Heval Ht). subst w1. now rewrite Ht.
      * intros y' Hy'. rewrite (Hok _ Hy'), Ho1. rewrite <- app_assoc. simpl.
        f_equal. destruct (self w1), (self w). simpl in *. inversion Hc1. reflexivity.
    + exists w1. split; [reflexivity|]. split.
      * intros Ht. subst w1. now rewrite Ht.
      * intros y' [=].
Qed.
End CallFacts.

(** ** forward *)

Section ForwardFacts.
Context {F : Type} `{BaseModule F}.

(** The accumulation loop of [forward] followed by the division, for
    outputs [out p] of the shape of the accumulator. *)
Lemma accumulate_mean {A} (out : A -> Tensor F) (ps : list A) (B : nat) (D n : Z) :
  0 <= D -> Z.of_nat (length ps) = n ->
  (forall p, In p ps -> has_shape B (Z.to_nat D) (out p)) ->
  rbind (zeros B D) (fun y0 =>
    rbind (rfold (fun y p => iadd B (Z.to_nat D) y (out p)) ps y0) (fun y =>
      Ok (idiv y (of_Z n))))
  = Ok (mean_outputs (map out ps) B (Z.to_nat D)).
Proof.
  intros HD Hn Hout. unfold zeros.
  destruct (D <? 0) eqn:E; [lia|]. simpl.
  rewrite (rfold_map (iadd B (Z.to_nat D)) out).
  destruct (@rfold_iadd F _ B (Z.to_nat D) (map out ps)
              (repeat (repeat f0 (Z.to_nat D)) B)) as (acc & Hrun & Hsh & Hent).
  { apply has_shape_repeat. }
  { apply Forall_map, Forall_forall. exact Hout. }
  rewrite Hrun. simpl. f_equal.
  apply (@tensor_ext F _ B (Z.to_nat D)).
  - now apply has_shape_idiv.
  - apply has_shape_tabulate.
  - intros i j Hi Hj. rewrite (entry_idiv _ Hsh Hi Hj), (Hent i j Hi Hj).
    unfold mean_outputs, tabulate. rewrite entry_tabulate by assumption.
    rewrite entry_repeat, length_map, Hn. reflexivity.
Qed.

(** What [forward] returns is the accumulation of the outputs of the
    calls, whatever the mode; in evaluation mode the state is left as it
    is, and when [forward] returns the state is the one the calls left. *)
Lemma clf_forward_result (w : World) (X : list Input) :
  exists w',
    BaggingClassifier.forward X w =
      (rbind (zeros (length X) (output_dim (self w))) (fun y0 =>
         rbind (rfold (fun y o => iadd (length X) (Z.to_nat (output_dim (self w))) y
                                       (softmax o))
                      (learner_outputs w X) y0) (fun y =>
           Ok (idiv y (of_Z (n_estimators (self w)))))), w')
    /\ (training (self w) = false -> w' = w)
    /\ (forall y0 y,
          zeros (length X) (output_dim (self w)) = Ok y0 ->
          rfold (fun y o => iadd (length X) (Z.to_nat (output_dim (self w))) y (softmax o))
                (learner_outputs w X) y0 = Ok y ->
          w' = after_calls w X).
Proof.
  unfold BaggingClassifier.forward.
  unfold bind at 1, get_self at 1. unfold bind at 1, lift at 1.
  destruct (zeros (length X) (output_dim (self w))) as [y0|e]; cbn [rbind].
  2:{ exists w. split; [reflexivity|]. split; [auto|]. intros y0 y [=]. }
  destruct (@forward_loop F _ _ softmax (length X) (Z.to_nat (output_dim (self w))) X
              (estimators_ (self w)) [] w y0 eq_refl) as (w' & Hrun & Heval & Hok).
  cbn [length app] in Hrun, Hok.
  exists w'. unfold bind at 1. rewrite Hrun. fold (learner_outputs w X) in *.
  split; [|split; [exact Heval|]].
  - destruct (rfold _ (learner_outputs w X) y0); reflexivity.
  - intros y1 y [= <-] Hy. exact (Hok _ Hy).
Qed.

Lemma reg_forward_result (w : World) (X : list Input) :
  exists w',
    BaggingRegressor.forward X w =
      (rbind (zeros (length X) (output_dim (self w))) (fun y0 =>
         rbind (rfold (fun y o => iadd (length X) (Z.to_nat (output_dim (self w))) y o)
                      (learner_outputs w X) y0) (fun y =>
           Ok (idiv y (of_Z (n_estimators (self w)))))), w')
    /\ (training (self w) = false -> w' = w)
    /\ (forall y0 y,
          zeros (length X) (output_dim (self w)) = Ok y0 ->
          rfold (fun y o => iadd (length X) (Z.to_nat (output_dim (self w))) y o)
                (learner_outputs w X) y0 = Ok y ->
          w' = after_calls w X).
Proof.
  unfold BaggingRegressor.forward.
  unfold bind at 1, get_self at 1. unfold bind at 1, lift at 1.
  destruct (zeros (length X) (output_dim (self w))) as [y0|e]; cbn [rbind].
  2:{ exists w. split; [reflexivity|]. split; [auto|]. intros y0 y [=]. }
  destruct (@forward_loop F _ _ (fun o => o) (length X) (Z.to_nat (output_dim (self w))) X
              (estimators_ (self w)) [] w y0 eq_refl) as (w' & Hrun & Heval & Hok).
  cbn [length app] in Hrun, Hok.
  exists w'. unfold bind at 1. rewrite Hrun. fold (learner_outputs w X) in *.
  split; [|split; [exact Heval|]].
  - destruct (rfold _ (learner_outputs w X) y0); reflexivity.
  - intros y1 y [= <-] Hy. exact (Hok _ Hy).
Qed.

(** [forward] in evaluation mode, as a computation on the values of [net]. *)
Lemma clf_forward_pure (w : World) (X : list Input) :
  training (self w) = false ->
  BaggingClassifier.forward X w =
    (rbind (zeros (length X) (output_dim (self w))) (fun y0 =>
       rbind (rfold (fun y p => iadd (length X) (Z.to_nat (output_dim (self w))) y
                                     (softmax (net p X)))
                    (estimators_ (self w)) y0) (fun y =>
         Ok (idiv y (of_Z (n_estimators (self w)))))), w).
Proof.
  intros Ht. destruct (clf_forward_result w X) as (w' & -> & Heval & _).
  rewrite (Heval Ht), (learner_outputs_eval _ X Ht). f_equal.
  destruct (zeros _ _) as [y0|e]; [|reflexivity]. cbn [rbind].
  now rewrite <- (rfold_map (fun y o => iadd _ _ y (softmax o)) (fun p => net p X)).
Qed.

Lemma reg_forward_pure (w : World) (X : list Input) :
  training (self w) = false ->
  BaggingRegressor.forward X w =
    (rbind (zeros (length X) (output_dim (self w))) (fun y0 =>
       rbind (rfold (fun y p => iadd (length X) (Z.to_nat (output_dim (self w))) y
                                     (net p X))
                    (estimators_ (self w)) y0) (fun y =>
         Ok (idiv y (of_Z (n_estimators (self w)))))), w).
Proof.
  intros Ht. destruct (reg_forward_result w X) as (w' & -> & Heval & _).
  rewrite (Heval Ht), (learner_outputs_eval _ X Ht). f_equal.
  destruct (zeros _ _) as [y0|e]; [|reflexivity]. cbn [rbind].
  now rewrite <- (rfold_map (fun y o => iadd _ _ y o) (fun p => net p X)).
Qed.

Lemma clf_forward_run (w : World) (X : list Input) :
  Z.of_nat (length (estimators_ (self w))) = n_estimators (self w) ->
  0 <= output_dim (self w) ->
  outputs_shaped w X ->
  BaggingClassifier.forward X w =
    (Ok (mean_outputs (map softmax (learner_outputs w X))
                      (length X) (Z.to_nat (output_dim (self w)))), after_calls w X).
Proof.
  intros Hn HD Hsh. destruct (clf_forward_result w X) as (w' & Hrun & _ & Hok).
  rewrite <- (length_learner_outputs w X) in Hn.
  assert (E := accumulate_mean softmax (learner_outputs w X) (B := length X) HD Hn).
  rewrite E in Hrun.
  2:{ intros o Ho. apply has_shape_softmax. revert o Ho. now apply Forall_forall. }
  rewrite Hrun. f_equal.
  destruct (zeros (length X) (output_dim (self w))) as [y0|e] eqn:Hz.
  2:{ exfalso. unfold zeros in Hz. destruct (output_dim (self w) <? 0) eqn:E0; [lia|discriminate]. }
  destruct (rfold (fun y o => iadd (length X) (Z.to_nat (output_dim (self w))) y (softmax o))
                  (learner_outputs w X) y0) as [y|e] eqn:Hy.
  - exact (Hok _ _ eq_refl Hy).
  - exfalso. cbn [rbind] in E. rewrite Hy in E.
    specialize (E (fun o Ho => has_shape_softmax (proj1 (Forall_forall _ _) Hsh o Ho))).
    discriminate.
Qed.

Lemma reg_forward_run (w : World) (X : list Input) :
  Z.of_nat (length (estimators_ (self w))) = n_estimators (self w) ->
  0 <= output_dim (self w) ->
  outputs_shaped w X ->
  BaggingRegressor.forward X w =
    (Ok (mean_outputs (learner_outputs w X)
                      (length X) (Z.to_nat (output_dim (self w)))), after_calls w X).
Proof.
  intros Hn HD Hsh. destruct (reg_forward_result w X) as (w' & Hrun & _ & Hok).
  rewrite <- (length_learner_outputs w X) in Hn.
  assert (E := accumulate_mean (fun o => o) (learner_outputs w X) (B := length X) HD Hn).
  rewrite map_id in E. rewrite E in Hrun.
  2:{ intros o Ho. revert o Ho. now apply Forall_forall. }
  rewrite Hrun. f_equal.
  destruct (zeros (length X) (output_dim (self w))) as [y0|e] eqn:Hz.
  2:{ exfalso. unfold zeros in Hz. destruct (output_dim (self w) <? 0) eqn:E0; [lia|discriminate]. }
  destruct (rfold (fun y o => iadd (length X) (Z.to_nat (output_dim (self w))) y o)
                  (learner_outputs w X) y0) as [y|e] eqn:Hy.
  - exact (Hok _ _ eq_refl Hy).
  - exfalso. cbn [rbind] in E. rewrite Hy in E.
    specialize (E (proj1 (Forall_forall _ _) Hsh)).
    discriminate.
Qed.

(** [forward] in evaluation mode, for learners that keep the shape
    contract: the mean of the values of [net], the state left as it is. *)
Lemma clf_forward_eval (w : World) (X : list Input) :
  training (self w) = false ->
  Z.of_nat (length (estimators_ (self w))) = n_estimators (self w) ->
  0 <= output_dim (self w) ->
  (forall p, In p (estimators_ (self w)) ->
     has_shape (length X) (Z.to_nat (output_dim (self w))) (net p X)) ->
  BaggingClassifier.forward X w =
    (Ok (mean_outputs (map (fun p => softmax (net p X)) (estimators_ (self w)))
                      (length X) (Z.to_nat (output_dim (self w)))), w).
Proof.
  intros Ht Hn HD Hsh. apply (outputs_shaped_eval _ X Ht) in Hsh.
  rewrite (clf_forward_run Hn HD Hsh), (after_calls_eval _ X Ht), (learner_outputs_eval _ X Ht).
  now rewrite map_map.
Qed.

Lemma reg_forward_eval (w : World) (X : list Input) :
  training (self w) = false ->
  Z.of_nat (length (estimators_ (self w))) = n_estimators (self w) ->
  0 <= output_dim (self w) ->
  (forall p, In p (estimators_ (self w)) ->
     has_shape (length X) (Z.to_nat (output_dim (self w))) (net p X)) ->
  BaggingRegressor.forward X w =
    (Ok (mean_outputs (map (fun p => net p X) (estimators_ (self w)))
                      (length X) (Z.to_nat (output_dim (self w)))), w).
Proof.
  intros Ht Hn HD Hsh. apply (outputs_shaped_eval _ X Ht) in Hsh.
  now rewrite (reg_forward_run Hn HD Hsh), (after_calls_eval _ X Ht), (learner_outputs_eval _ X Ht).
Qed.

(** C1. For an ensemble whose [estimators_] has length [n_estimators >= 1]
    and whose base learners return one row of [output_dim] entries per
    example, [forward] returns the unweighted arithmetic mean of the
    outputs of the calls [estimator(X)], made in the order of
    [estimators_] and in the mode the module is in: the mean of
    [softmax(estimator(X))] for the classifier and the mean of
    [estimator(X)] for the regressor; the state is the one these calls
    leave.  In evaluation mode the outputs are the values of [net] and the
    state is left as it was. *)
Theorem forward_returns_mean (w : World) (X : list Input) :
  Z.of_nat (length (estimators_ (self w))) = n_estimators (self w) ->
  1 <= n_estimators (self w) ->
  0 <= output_dim (self w) ->
  outputs_shaped w X ->
  BaggingClassifier.forward X w =
    (Ok (mean_outputs (map softmax (learner_outputs w X))
                      (length X) (Z.to_nat (output_dim (self w)))), after_calls w X)
  /\ BaggingRegressor.forward X w =
    (Ok (mean_outputs (learner_outputs w X)
                      (length X) (Z.to_nat (output_dim (self w)))), after_calls w X)
  /\ (training (self w) = false ->
        learner_outputs w X = map (fun p => net p X) (estimators_ (self w))
        /\ after_calls w X = w).
Proof.
  intros Hn _ HD Hsh. split; [|split].
  - now apply clf_forward_run.
  - now apply reg_forward_run.
  - intros Ht. split; [now apply learner_outputs_eval|now apply after_calls_eval].
Qed.
End ForwardFacts.

Import Example.

Lemma forward_returns_mean_witness :
  BaggingClassifier.forward [1%R; 2%R] world2 =
    (Ok (mean_outputs (map softmax (learner_outputs world2 [1%R; 2%R]))
                      2 (Z.to_nat (output_dim (self world2)))), after_calls world2 [1%R; 2%R])
  /\ BaggingRegressor.forward [1%R; 2%R] world2 =
    (Ok (mean_outputs (learner_outputs world2 [1%R; 2%R])
                      2 (Z.to_nat (output_dim (self world2)))), after_calls world2 [1%R; 2%R])
  /\ (training (self world2) = false ->
        learner_outputs world2 [1%R; 2%R]
          = map (fun p => net p [1%R; 2%R]) (estimators_ (self world2))
        /\ after_calls world2 [1%R; 2%R] = world2).
Proof.
  apply (forward_returns_mean (w := world2) (X := [1%R; 2%R])).
  - reflexivity.
  - simpl. lia.
  - simpl. lia.
  - repeat constructor.
Defined.

(** ** Sums of reals *)

Section RealSums.
Local Open Scope R_scope.

Lemma fold_left_Rplus (l : list R) (a : R) : fold_left Rplus l a = a + Rsum l.
Proof.
  revert a; induction l as [|x l IH]; intros a; simpl; [lra|].
  rewrite IH. lra.
Qed.

Lemma fsum_Rsum (l : list R) : fsum l = Rsum l.
Proof. unfold fsum. simpl. rewrite fold_left_Rplus. lra. Qed.

Lemma Rsum_nonneg (l : list R) : Forall (fun x => 0 <= x) l -> 0 <= Rsum l.
Proof. induction 1; simpl; lra. Qed.

Lemma Rsum_map_div {A} (f : A -> R) (c : R) (l : list A) :
  Rsum (map (fun a => f a / c) l) = Rsum (map f l) / c.
Proof. induction l as [|a l IH]; simpl; [|rewrite IH]; lra. Qed.

Lemma Rsum_map_const {A} (c : R) (l : list A) :
  Rsum (map (fun _ => c) l) = INR (length l) * c.
Proof.
  induction l as [|a l IH]; [simpl; lra|].
  change (length (a :: l)) with (S (length l)). rewrite S_INR. simpl. rewrite IH. lra.
Qed.

Lemma Rsum_map_ext {A} (f g : A -> R) (l : list A) :
  (forall a, In a l -> f a = g a) -> Rsum (map f l) = Rsum (map g l).
Proof.
  induction l as [|a l IH]; intros Hfg; simpl; [reflexivity|].
  rewrite (Hfg a) by (now left). rewrite IH; [reflexivity|].
  intros b Hb. apply Hfg. now right.
Qed.

(** The two orders of summation of a table agree. *)
Lemma Rsum_swap {A B} (f : A -> B -> R) (la : list A) (lb : list B) :
  Rsum (map (fun b => Rsum (map (fun a => f a b) la)) lb)
  = Rsum (map (fun a => Rsum (map (f a) lb)) la).
Proof.
  induction la as [|a la IH]; simpl.
  - induction lb as [|b lb IHb]; simpl; lra.
  - rewrite <- IH. clear IH.
    induction lb as [|b lb IHb]; simpl; lra.
Qed.

Lemma Rsum_nth_seq (r : list R) :
  Rsum (map (fun j => nth j r 0) (seq 0 (length r))) = Rsum r.
Proof.
  induction r as [|x r IH]; [reflexivity|].
  simpl. rewrite <- seq_shift, map_map. simpl. now rewrite IH.
Qed.

Lemma Rsum_exp_pos (r : list R) : r <> [] -> 0 < Rsum (map exp r).
Proof.
  destruct r as [|x r]; [congruence|]. intros _. simpl.
  assert (0 <= Rsum (map exp r)).
  { apply Rsum_nonneg, Forall_map, Forall_forall. intros y _. left. apply exp_pos. }
  pose proof (exp_pos x). lra.
Qed.

Lemma softmax_row_nonneg (r : list R) : Forall (fun x => 0 <= x) (softmax_row r).
Proof.
  unfold softmax_row. rewrite map_map. apply Forall_map, Forall_forall.
  intros x _. simpl. rewrite fsum_Rsum.
  destruct r as [|y r'] eqn:E.
  - simpl. unfold Rdiv. rewrite Rinv_0. lra.
  - apply Rlt_le, Rdiv_lt_0_compat; [apply exp_pos | apply Rsum_exp_pos; congruence].
Qed.

Lemma softmax_row_sum (r : list R) : r <> [] -> Rsum (softmax_row r) = 1.
Proof.
  intros Hr. unfold softmax_row. simpl. rewrite fsum_Rsum.
  rewrite (Rsum_map_div (fun x => x)), map_id.
  pose proof (Rsum_exp_pos Hr). field. lra.
Qed.
End RealSums.

(** ** The rows of the classifier's forward *)

Section Distribution.
Context {E : @Engine R R_Scalar}.
Local Open Scope R_scope.

Lemma nth_Forall {A} (P : A -> Prop) (l : list A) (d : A) (n : nat) :
  Forall P l -> P d -> P (nth n l d).
Proof.
  intros Hl Hd. destruct (nth_in_or_default n l d) as [Hin | ->]; [|exact Hd].
  rewrite Forall_forall in Hl. now apply Hl.
Qed.

Lemma entry_softmax_nonneg (t : Tensor R) (i j : nat) : 0 <= entry (softmax t) i j.
Proof.
  unfold entry.
  apply (@nth_Forall _ (fun x => 0 <= x)); [|simpl; lra].
  apply (@nth_Forall _ (fun r => Forall (fun x => 0 <= x) r)); [|constructor].
  unfold softmax. apply Forall_map, Forall_forall. intros r _.
  apply softmax_row_nonneg.
Qed.

Lemma softmax_row_i_sum (B D : nat) (t : Tensor R) (i : nat) :
  has_shape B D t -> (i < B)%nat -> (1 <= D)%nat ->
  Rsum (map (fun j => entry (softmax t) i j) (seq 0 D)) = 1.
Proof.
  intros [Hl Hr] Hi HD. unfold entry, softmax.
  rewrite (nth_indep _ [] (softmax_row [])) by (rewrite length_map; lia).
  rewrite (map_nth softmax_row).
  assert (Hrow : length (nth i t []) = D).
  { rewrite Forall_forall in Hr. apply Hr, nth_In. lia. }
  assert (Hlen : length (softmax_row (nth i t [])) = D).
  { unfold softmax_row. now rewrite !length_map. }
  rewrite <- Hlen at 1. rewrite Rsum_nth_seq.
  apply softmax_row_sum. intros Hnil. rewrite Hnil in Hrow. simpl in Hrow. lia.
Qed.

(** C5. For an ensemble of [n_estimators >= 1] base learners over at least
    one class, in whatever mode, every row of the output of the
    classifier's [forward] is a probability distribution: its entries are
    non-negative and sum to 1 (in real arithmetic). *)
Theorem clf_forward_rows_are_distributions (w : World) (X : list Input) :
  Z.of_nat (length (estimators_ (self w))) = n_estimators (self w) ->
  (1 <= n_estimators (self w))%Z ->
  (1 <= output_dim (self w))%Z ->
  outputs_shaped w X ->
  exists t,
    BaggingClassifier.forward X w = (Ok t, after_calls w X) /\
    has_shape (length X) (Z.to_nat (output_dim (self w))) t /\
    Forall (fun row => Forall (fun x => 0 <= x) row /\ Rsum row = 1) t.
Proof.
  intros Hn Hn1 HD Hsh.
  rewrite (clf_forward_run Hn) by (assumption || lia).
  eexists. split; [reflexivity|]. split; [apply has_shape_tabulate|].
  set (outs := map softmax (learner_outputs w X)).
  assert (Hlen : length outs = length (estimators_ (self w))).
  { unfold outs. now rewrite length_map, length_learner_outputs. }
  assert (Hc : 0 < IZR (Z.of_nat (length outs))).
  { apply IZR_lt. lia. }
  unfold mean_outputs, tabulate.
  apply Forall_map, Forall_forall. intros i Hi. apply in_seq in Hi. split.
  - apply Forall_map, Forall_forall. intros j _. simpl.
    rewrite fsum_Rsum. apply Rmult_le_pos; [|left; now apply Rinv_0_lt_compat].
    apply Rsum_nonneg, Forall_map, Forall_forall. intros o Ho.
    unfold outs in Ho. apply in_map_iff in Ho. destruct Ho as (p & <- & _).
    apply entry_softmax_nonneg.
  - simpl.
    rewrite (Rsum_map_div (fun j => fsum (map (fun o => entry o i j) outs))).
    rewrite (Rsum_map_ext _ (fun j => Rsum (map (fun o => entry o i j) outs)))
      by (intros; apply fsum_Rsum).
    rewrite (Rsum_swap (fun o j => entry o i j)).
    rewrite (Rsum_map_ext _ (fun _ => 1)).
    + rewrite Rsum_map_const, <- INR_IZR_INZ. field.
      rewrite INR_IZR_INZ. lra.
    + intros o Ho. unfold outs in Ho. apply in_map_iff in Ho.
      destruct Ho as (p & <- & Hp).
      apply (@softmax_row_i_sum (length X) (Z.to_nat (output_dim (self w))));
        [exact (proj1 (Forall_forall _ _) Hsh p Hp) | lia | lia].
Qed.
End Distribution.

Lemma clf_forward_rows_are_distributions_witness :
  exists t,
    BaggingClassifier.forward [1%R; 2%R] world2
      = (Ok t, after_calls world2 [1%R; 2%R]) /\
    has_shape 2 (Z.to_nat (output_dim (self world2))) t /\
    Forall (fun row => Forall (fun x => (0 <= x)%R) row /\ Rsum row = 1%R) t.
Proof.
  apply (clf_forward_rows_are_distributions (w := world2) (X := [1%R; 2%R])).
  - reflexivity.
  - simpl. lia.
  - simpl. lia.
  - repeat constructor.
Defined.

(** ** The bootstrap mask *)

Section UniqueFacts.

Lemma in_insert_unique (x a : Z) (l : list Z) :
  In x (insert_unique a l) <-> x = a \/ In x l.
Proof.
  induction l as [|y t IH]; simpl.
  - intuition.
  - destruct (a <? y) eqn:Hlt; [simpl; intuition|].
    destruct (a =? y) eqn:Heq.
    + apply Z.eqb_eq in Heq. subst y. simpl. intuition.
    + simpl. rewrite IH. intuition.
Qed.

Lemma in_unique (x : Z) (l : list Z) : In x (unique l) <-> In x l.
Proof.
  unfold unique. induction l as [|a l IH]; simpl; [reflexivity|].
  rewrite in_insert_unique, IH. intuition.
Qed.

Lemma sorted_insert_unique (a : Z) (l : list Z) :
  StronglySorted Z.lt l -> StronglySorted Z.lt (insert_unique a l).
Proof.
  induction 1 as [|y t Hs IH Hy]; simpl.
  - constructor; constructor.
  - destruct (a <? y) eqn:Hlt.
    + apply Z.ltb_lt in Hlt. constructor; [now constructor|].
      constructor; [exact Hlt|].
      revert Hy. apply Forall_impl. intros z Hz. lia.
    + destruct (a =? y) eqn:Heq; [now constructor|].
      apply Z.ltb_ge in Hlt. apply Z.eqb_neq in Heq.
      constructor; [exact IH|].
      apply Forall_forall. intros z Hz. apply in_insert_unique in Hz.
      destruct Hz as [->|Hz]; [lia|].
      rewrite Forall_forall in Hy. now apply Hy.
Qed.

Lemma sorted_unique (l : list Z) : StronglySorted Z.lt (unique l).
Proof.
  unfold unique. induction l as [|a l IH]; simpl; [constructor|].
  now apply sorted_insert_unique.
Qed.

Lemma NoDup_sorted (l : list Z) : StronglySorted Z.lt l -> NoDup l.
Proof.
  induction 1 as [|y t Hs IH Hy]; constructor; [|exact IH].
  intros Hin. rewrite Forall_forall in Hy. specialize (Hy y Hin). lia.
Qed.

Lemma length_insert_unique (a : Z) (l : list Z) :
  (1 <= length (insert_unique a l) <= S (length l))%nat.
Proof.
  induction l as [|y t IH]; simpl; [lia|].
  destruct (a <? y); [simpl; lia|].
  destruct (a =? y); simpl; lia.
Qed.

Lemma length_unique (l : list Z) :
  (length (unique l) <= length l)%nat /\ (l <> [] -> 1 <= length (unique l))%nat.
Proof.
  unfold unique. induction l as [|a l [IH _]]; simpl; [split; [lia|congruence]|].
  pose proof (length_insert_unique a (fold_right insert_unique [] l)). split; [lia|].
  intros _. lia.
Qed.
End UniqueFacts.

Section MaskFacts.
Context {F : Type} `{Engine F}.

Lemma length_draws (n : nat) (g : Gen) : length (fst (draws n g)) = n.
Proof.
  revert g; induction n as [|n IH]; intros g; simpl; [reflexivity|].
  destruct (random g) as [x g1]. specialize (IH g1).
  destruct (draws n g1) as [xs g2]. simpl in *. now rewrite IH.
Qed.

(** The run of the resampler on a batch that is not empty. *)
Lemma bootstrap_mask_run (B : nat) (w : World) :
  (1 <= B)%nat ->
  bootstrap_mask B w =
    (Ok (unique (map (fun x => x mod Z.of_nat B) (fst (draws B (gen w))))),
     {| self := self w; gen := snd (draws B (gen w)); stdout := stdout w |}).
Proof.
  intros HB. unfold bootstrap_mask, bind, randint, ret.
  destruct (Z.of_nat B <=? 0) eqn:E; [lia|].
  now destruct (draws B (gen w)) as [xs g'].
Qed.

(** C2. For a batch of size B >= 1 the resampler returns a mask of at
    least one and at most B indices, all of them in [0, B), and no index
    occurs twice; it changes nothing but the state of the generator. *)
Theorem bootstrap_mask_size_range_nodup (B : nat) (w : World) :
  (1 <= B)%nat ->
  exists mask w',
    bootstrap_mask B w = (Ok mask, w') /\
    self w' = self w /\ stdout w' = stdout w /\
    (1 <= length mask <= B)%nat /\
    (forall i, In i mask -> 0 <= i < Z.of_nat B) /\
    NoDup mask.
Proof.
  intros HB. rewrite (bootstrap_mask_run w HB).
  set (raw := map (fun x => x mod Z.of_nat B) (fst (draws B (gen w)))).
  assert (Hlen : length raw = B).
  { unfold raw. now rewrite length_map, length_draws. }
  exists (unique raw). eexists. split; [reflexivity|].
  split; [reflexivity|]. split; [reflexivity|].
  destruct (length_unique raw) as [Hle Hge]. split; [|split].
  - split; [|lia]. apply Hge. intros Hnil. rewrite Hnil in Hlen. simpl in Hlen. lia.
  - intros i Hi. rewrite in_unique in Hi. unfold raw in Hi.
    apply in_map_iff in Hi. destruct Hi as (x & <- & _).
    apply Z.mod_pos_bound. lia.
  - apply NoDup_sorted, sorted_unique.
Qed.
End MaskFacts.

Lemma bootstrap_mask_size_range_nodup_witness :
  exists mask w',
    bootstrap_mask 4 world2 = (Ok mask, w') /\
    self w' = self world2 /\ stdout w' = stdout world2 /\
    (1 <= length mask <= 4)%nat /\
    (forall i, In i mask -> 0 <= i < Z.of_nat 4) /\
    NoDup mask.
Proof.
  apply (bootstrap_mask_size_range_nodup world2 (B := 4)). lia.
Defined.

(** ** Selection by an increasing mask *)

Section SelectFacts.
Context {A : Type}.

Lemma rmap_all_ext_in {B} (f g : Z -> result B) (l : list Z) :
  (forall i, In i l -> f i = g i) -> rmap_all f l = rmap_all g l.
Proof.
  induction l as [|a l IH]; intros Hfg; simpl; [reflexivity|].
  rewrite (Hfg a) by (now left). rewrite IH; [reflexivity|].
  intros i Hi. apply Hfg. now right.
Qed.

Lemma existsb_eqb_false (k : Z) (mask : list Z) :
  (forall i, In i mask -> i <> k) -> existsb (Z.eqb k) mask = false.
Proof.
  induction mask as [|m ms IH]; intros Hne; simpl; [reflexivity|].
  rewrite IH by (intros i Hi; apply Hne; now right).
  assert (m <> k) by (apply Hne; now left).
  destruct (Z.eqb_spec k m); [congruence|reflexivity].
Qed.

Lemma fst_in_enum_from (k : nat) (l : list A) (ia : Z * A) :
  In ia (combine (map Z.of_nat (seq k (length l))) l) ->
  Z.of_nat k <= fst ia < Z.of_nat k + Z.of_nat (length l).
Proof.
  destruct ia as [i a]. intros Hin. apply in_combine_l in Hin.
  apply in_map_iff in Hin. destruct Hin as (n & <- & Hn).
  apply in_seq in Hn. simpl. lia.
Qed.

Lemma select_sorted_aux (l : list A) :
  forall (k : nat) (mask : list Z),
    StronglySorted Z.lt mask ->
    (forall i, In i mask -> Z.of_nat k <= i < Z.of_nat k + Z.of_nat (length l)) ->
    rmap_all (at_offset l k) mask =
    Ok (map snd (filter (fun ia => existsb (Z.eqb (fst ia)) mask)
                        (combine (map Z.of_nat (seq k (length l))) l))).
Proof.
  induction l as [|x l IH]; intros k mask Hs Hr.
  - destruct mask as [|m ms]; [reflexivity|].
    specialize (Hr m (or_introl eq_refl)). simpl in Hr. lia.
  - assert (Hshift : forall i, Z.of_nat (S k) <= i ->
                       at_offset (x :: l) k i = at_offset l (S k) i).
    { intros i Hi. unfold at_offset.
      replace (Z.to_nat (i - Z.of_nat k)) with (S (Z.to_nat (i - Z.of_nat (S k)))) by lia.
      reflexivity. }
    change (combine (map Z.of_nat (seq k (length (x :: l)))) (x :: l))
      with ((Z.of_nat k, x) :: combine (map Z.of_nat (seq (S k) (length l))) l).
    cbn [filter fst].
    destruct mask as [|m ms].
    + specialize (IH (S k) [] (SSorted_nil _) (fun i (Hi : In i []) => match Hi with end)).
      cbn [existsb rmap_all] in IH |- *. exact IH.
    + inversion Hs as [|? ? Hs' Hm]; subst.
      rewrite Forall_forall in Hm.
      assert (Hmk : Z.of_nat k <= m) by (apply Hr; now left).
      assert (Hms : forall i, In i ms -> Z.of_nat (S k) <= i < Z.of_nat (S k) + Z.of_nat (length l)).
      { intros i Hi. specialize (Hm i Hi). specialize (Hr i (or_intror Hi)).
        simpl length in Hr. lia. }
      destruct (Z.eqb_spec (Z.of_nat k) m) as [Heq|Hne].
      * subst m. cbn [existsb]. rewrite Z.eqb_refl. cbn [orb map snd rmap_all].
        unfold at_offset at 1. rewrite Z.sub_diag. cbn [Z.to_nat nth_error rbind].
        rewrite (rmap_all_ext_in (at_offset (x :: l) k) (at_offset l (S k)))
          by (intros i Hi; apply Hshift, Hms, Hi).
        rewrite (IH (S k) ms Hs' Hms). cbn [rbind]. do 3 f_equal.
        apply filter_ext_in. intros ia Hia. apply fst_in_enum_from in Hia.
        cbn [existsb]. destruct (Z.eqb_spec (fst ia) (Z.of_nat k)); [lia|reflexivity].
      * rewrite existsb_eqb_false.
        2:{ intros i [<-|Hi]; [congruence|]. specialize (Hm i Hi). lia. }
        rewrite (rmap_all_ext_in (at_offset (x :: l) k) (at_offset l (S k))).
        2:{ intros i [<-|Hi]; apply Hshift; [lia|]. apply Hms, Hi. }
        apply IH; [exact Hs|].
        intros i [<-|Hi]; [|apply Hms, Hi].
        specialize (Hr m (or_introl eq_refl)). simpl length in Hr. lia.
Qed.

(** Selecting by a strictly increasing mask of valid indices keeps the
    elements whose index is in the mask, in their order. *)
Lemma select_sorted (l : list A) (mask : list Z) :
  StronglySorted Z.lt mask ->
  (forall i, In i mask -> 0 <= i < Z.of_nat (length l)) ->
  select l mask = Ok (keep_indices mask l).
Proof.
  intros Hs Hr. unfold select, keep_indices, enumerate, range.
  rewrite Nat2Z.id. rewrite <- (select_sorted_aux l O Hs) by (simpl; exact Hr).
  apply rmap_all_ext_in. intros i Hi. specialize (Hr i Hi).
  unfold index_one, at_offset.
  destruct (i <? 0) eqn:E1; [lia|].
  destruct (0 <=? i) eqn:E2; [|lia].
  destruct (i <? Z.of_nat (length l)) eqn:E3; [|lia].
  simpl. now rewrite Z.sub_0_r.
Qed.
End SelectFacts.

Section MaskOrder.
Context {F : Type} `{Engine F}.

(** C10. The bootstrap mask of a batch that is not empty is strictly
    increasing, so the bootstrap subset of the inputs and of the targets of
    the batch are the examples whose index is in the mask, in the order
    they have in the batch. *)
Theorem bootstrap_subset_keeps_order {T} (X : list Input) (y : list T) (w : World) :
  X <> [] -> length y = length X ->
  exists mask w',
    bootstrap_mask (length X) w = (Ok mask, w') /\
    StronglySorted Z.lt mask /\
    select X mask = Ok (keep_indices mask X) /\
    select y mask = Ok (keep_indices mask y).
Proof.
  intros HX Hy.
  assert (HB : (1 <= length X)%nat) by (destruct X; [congruence|simpl; lia]).
  rewrite (bootstrap_mask_run w HB).
  set (raw := map (fun x => x mod Z.of_nat (length X)) (fst (draws (length X) (gen w)))).
  assert (Hrange : forall i, In i (unique raw) -> 0 <= i < Z.of_nat (length X)).
  { intros i Hi. rewrite in_unique in Hi. unfold raw in Hi.
    apply in_map_iff in Hi. destruct Hi as (x & <- & _).
    apply Z.mod_pos_bound. lia. }
  exists (unique raw). eexists. split; [reflexivity|].
  split; [apply sorted_unique|]. split.
  - apply select_sorted; [apply sorted_unique | exact Hrange].
  - apply select_sorted; [apply sorted_unique | now rewrite Hy].
Qed.
End MaskOrder.

Lemma bootstrap_subset_keeps_order_witness :
  exists mask w',
    bootstrap_mask 3 world2 = (Ok mask, w') /\
    StronglySorted Z.lt mask /\
    select [1%R; 2%R; 3%R] mask = Ok (keep_indices mask [1%R; 2%R; 3%R]) /\
    select [0; 1; 0] mask = Ok (keep_indices mask [0; 1; 0]).
Proof.
  apply (@bootstrap_subset_keeps_order R R_Scalar engine Z [1%R; 2%R; 3%R] [0; 1; 0] world2).
  - discriminate.
  - reflexivity.
Defined.

(** ** What forward and predict leave unchanged *)

Section FrameFacts.
Context {F : Type} `{BaseModule F}.

Lemma for_fold_frame {A S} (body : S -> A -> M S) (w : World) :
  (forall acc x, snd (body acc x w) = w) ->
  forall l acc, snd (for_fold l acc body w) = w.
Proof.
  intros Hb. induction l as [|x l IH]; intros acc; simpl; [reflexivity|].
  unfold bind. specialize (Hb acc x).
  destruct (body acc x w) as [[a|e] w']; simpl in Hb; subst w'; [apply IH|reflexivity].
Qed.

Lemma bind_frame {A B} (c : M A) (k : A -> M B) (w : World) :
  snd (c w) = w -> (forall a, snd (k a w) = w) -> snd (bind c k w) = w.
Proof.
  intros Hc Hk. unfold bind. destruct (c w) as [[a|e] w']; simpl in Hc; subst w'.
  - apply Hk.
  - reflexivity.
Qed.

(** What [forward] returns depends on the world only through the states
    of the base learners, the mode and, in training mode, the generator. *)
Lemma learner_outputs_agree (w1 w2 : World) (X : list Input) :
  estimators_ (self w1) = estimators_ (self w2) ->
  training (self w1) = training (self w2) ->
  training (self w1) = false \/ gen w1 = gen w2 ->
  learner_outputs w1 X = learner_outputs w2 X.
Proof.
  intros He Ht [Hf|Hg].
  - rewrite !learner_outputs_eval by congruence. now rewrite He.
  - unfold learner_outputs. now rewrite He, Ht, Hg.
Qed.

(** C9, as the code has it.  In evaluation mode [forward] is deterministic and
    changes no state: two runs on worlds that agree on the states of the
    base learners (and on [n_estimators] and [output_dim]) return the same
    result for the same input, whatever the generator, the output and the
    other attributes are, and each run leaves its world as it was.  In
    training mode the result is the same for two runs that also start from
    the same state of the generator. *)
Theorem forward_deterministic_and_pure (w1 w2 : World) (X : list Input) :
  estimators_ (self w1) = estimators_ (self w2) ->
  n_estimators (self w1) = n_estimators (self w2) ->
  output_dim (self w1) = output_dim (self w2) ->
  training (self w1) = training (self w2) ->
  training (self w1) = false \/ gen w1 = gen w2 ->
  fst (BaggingClassifier.forward X w1) = fst (BaggingClassifier.forward X w2)
  /\ fst (BaggingRegressor.forward X w1) = fst (BaggingRegressor.forward X w2)
  /\ (training (self w1) = false ->
        snd (BaggingClassifier.forward X w1) = w1
        /\ snd (BaggingClassifier.forward X w2) = w2
        /\ snd (BaggingRegressor.forward X w1) = w1
        /\ snd (BaggingRegressor.forward X w2) = w2).
Proof.
  intros He Hn Hd Ht Hg.
  pose proof (learner_outputs_agree w1 w2 X He Ht Hg) as Ho.
  destruct (clf_forward_result w1 X) as (c1 & Hc1 & Ec1 & _).
  destruct (clf_forward_result w2 X) as (c2 & Hc2 & Ec2 & _).
  destruct (reg_forward_result w1 X) as (r1 & Hr1 & Er1 & _).
  destruct (reg_forward_result w2 X) as (r2 & Hr2 & Er2 & _).
  rewrite Hc1, Hc2, Hr1, Hr2. cbn [fst snd].
  rewrite Ho, Hn, Hd. split; [reflexivity|]. split; [reflexivity|].
  intros Hf. rewrite (Ec1 Hf), (Er1 Hf).
  rewrite Ht in Hf. rewrite (Ec2 Hf), (Er2 Hf). auto.
Qed.

(** The world after [self.eval()]. *)
Lemma clf_predict_frame (l : DataLoader (list Z)) (w : World) :
  snd (BaggingClassifier.predict l w) =
    {| self := with_training (self w) false; gen := gen w; stdout := stdout w |}.
Proof.
  unfold BaggingClassifier.predict.
  unfold bind at 1. unfold set_training, bind at 1, get_self, put_self. simpl.
  set (w' := {| self := _; gen := _; stdout := _ |}).
  apply bind_frame.
  - apply for_fold_frame. intros acc [batch_idx [X_test y_test]].
    apply bind_frame; [now rewrite clf_forward_pure by reflexivity|]. intros output.
    unfold bind, lift, ret.
    destruct (max1_indices output); [|reflexivity].
    destruct (eq_sum _ _); reflexivity.
  - intros correct. destruct (Nat.eqb _ _); reflexivity.
Qed.

Lemma reg_predict_frame (l : DataLoader (Tensor F)) (w : World) :
  snd (BaggingRegressor.predict l w) =
    {| self := with_training (self w) false; gen := gen w; stdout := stdout w |}.
Proof.
  unfold BaggingRegressor.predict.
  unfold bind at 1. unfold set_training, bind at 1, get_self, put_self. simpl.
  set (w' := {| self := _; gen := _; stdout := _ |}).
  apply bind_frame.
  - apply for_fold_frame. intros acc [batch_idx [X_test y_test]].
    apply bind_frame; [now rewrite reg_forward_pure by reflexivity|]. intros output.
    unfold bind, lift, ret. destruct (mse_loss output y_test); reflexivity.
  - intros mse. destruct (Nat.eqb _ _); reflexivity.
Qed.

(** C6. Any number of calls of [predict], of the classifier or of the
    regressor, each on a loader of its own, leave the parameters of every
    base learner as they were (also when a call raises). *)
Theorem predict_keeps_parameters
    (cs : list (DataLoader (list Z))) (rs : list (DataLoader (Tensor F))) (w : World) :
  estimators_ (self (fold_left (fun w l => snd (BaggingClassifier.predict l w)) cs w))
    = estimators_ (self w)
  /\ estimators_ (self (fold_left (fun w l => snd (BaggingRegressor.predict l w)) rs w))
    = estimators_ (self w).
Proof.
  split.
  - revert w. induction cs as [|l cs IH]; intros w; simpl; [reflexivity|].
    rewrite IH, clf_predict_frame. reflexivity.
  - revert w. induction rs as [|l rs IH]; intros w; simpl; [reflexivity|].
    rewrite IH, reg_predict_frame. reflexivity.
Qed.
End FrameFacts.

Lemma forward_deterministic_and_pure_witness :
  fst (BaggingClassifier.forward [1%R] (eval_world world2))
    = fst (BaggingClassifier.forward [1%R] world2')
  /\ fst (BaggingRegressor.forward [1%R] (eval_world world2))
    = fst (BaggingRegressor.forward [1%R] world2')
  /\ (training (self (eval_world world2)) = false ->
        snd (BaggingClassifier.forward [1%R] (eval_world world2)) = eval_world world2
        /\ snd (BaggingClassifier.forward [1%R] world2') = world2'
        /\ snd (BaggingRegressor.forward [1%R] (eval_world world2)) = eval_world world2
        /\ snd (BaggingRegressor.forward [1%R] world2') = world2').
Proof.
  apply (@forward_deterministic_and_pure R R_Scalar engine (eval_world world2) world2' [1%R]);
    try reflexivity.
  left. reflexivity.
Defined.

(** In training mode [forward] is what the learners make it.  For a learner
    with dropout and a counter of its training calls, two runs with the same
    learner state and the same input return different outputs when the
    generator is in different states, and a run changes the state of the
    learner and advances the generator. *)
Lemma forward_in_training_mode_depends_on_generator :
  self (world_dropout 0) = self (world_dropout 1)
  /\ fst (@BaggingRegressor.forward R R_Scalar engine_dropout [1%R] (world_dropout 0))
       <> fst (@BaggingRegressor.forward R R_Scalar engine_dropout [1%R] (world_dropout 1))
  /\ estimators_ (self (snd (@BaggingRegressor.forward R R_Scalar engine_dropout [1%R] (world_dropout 0))))
       <> estimators_ (self (world_dropout 0))
  /\ gen (snd (@BaggingRegressor.forward R R_Scalar engine_dropout [1%R] (world_dropout 0))) <> gen (world_dropout 0).
Proof.
  assert (Hrun : forall g,
            @BaggingRegressor.forward R R_Scalar engine_dropout [1%R] (world_dropout g)
            = (Ok (mean_outputs (@learner_outputs R R_Scalar engine_dropout (world_dropout g) [1%R]) 1 1),
               @after_calls R R_Scalar engine_dropout (world_dropout g) [1%R])).
  { intros g. apply (@reg_forward_run R R_Scalar engine_dropout (world_dropout g) [1%R]).
    - reflexivity.
    - simpl. lia.
    - repeat constructor. }
  rewrite !Hrun. cbn [fst snd]. split; [reflexivity|]. split; [|split].
  - intros E.
    apply (f_equal (fun r => match r with Ok t => entry t 0 0 | Raise _ => 0%R end)) in E.
    revert E. unfold mean_outputs, tabulate, learner_outputs, entry, fsum.
    cbn. lra.
  - cbn. intros E. discriminate E.
  - cbn. discriminate.
Qed.


(** ** The value of predict *)

Section PredictFacts.
Context {F : Type} `{BaseModule F}.

(** A loop whose body succeeds on every element without changing the
    state [w], the element [x] contributing [m] to the local variables. *)
Lemma for_fold_Forall2 {A B S} (body : S -> A -> M S) (f : S -> B -> S) (w : World)
    (l : list A) (ms : list B) :
  Forall2 (fun x m => forall acc, body acc x w = (Ok (f acc m), w)) l ms ->
  forall acc, for_fold l acc body w = (Ok (fold_left f ms acc), w).
Proof.
  induction 1 as [|x m l ms Hx _ IH]; intros acc; simpl; [reflexivity|].
  unfold bind. rewrite Hx. apply IH.
Qed.

Lemma Forall2_enumerate {A B} (P : A -> B -> Prop) (l : list A) (ms : list B) :
  Forall2 P l ms -> Forall2 (fun ix m => P (snd ix) m) (enumerate l) ms.
Proof.
  intros HF. unfold enumerate, range. rewrite Nat2Z.id. generalize O.
  induction HF as [|x m l ms Hx _ IH]; intros k; simpl; constructor; auto.
Qed.

Lemma reg_predict_run (l : DataLoader (Tensor F)) (w : World) (ms : list F) :
  Forall2 (fun b m => exists out,
             BaggingRegressor.forward (fst b) (eval_world w) = (Ok out, eval_world w)
             /\ mse_loss out (snd b) = Ok m)
          (batches l) ms ->
  batches l <> [] ->
  BaggingRegressor.predict l w =
    (Ok (fdiv (fold_left fadd ms f0) (of_Z (Z.of_nat (length ms)))), eval_world w).
Proof.
  intros Hb Hne. unfold BaggingRegressor.predict.
  unfold bind at 1. unfold set_training, bind at 1, get_self, put_self.
  cbn [fst snd]. fold (eval_world w).
  unfold bind.
  rewrite (@for_fold_Forall2 _ _ _ _ fadd (eval_world w) _ ms).
  - unfold loader_len. rewrite (Forall2_length Hb).
    destruct ms as [|m ms]; [inversion Hb; congruence|]. reflexivity.
  - eapply Forall2_impl; [|apply (Forall2_enumerate Hb)].
    intros [i [X y]] m (out & Hf & Hm) acc. cbn [fst snd] in *.
    rewrite Hf. unfold lift. rewrite Hm. reflexivity.
Qed.

Lemma clf_predict_run (l : DataLoader (list Z)) (w : World) (cs : list Z) :
  Forall2 (fun b c => exists out y_pred,
             BaggingClassifier.forward (fst b) (eval_world w) = (Ok out, eval_world w)
             /\ max1_indices out = Ok y_pred
             /\ eq_sum y_pred (snd b) = Ok c)
          (batches l) cs ->
  dataset_len l <> O ->
  BaggingClassifier.predict l w =
    (Ok (fdiv (fmul (of_Z 100) (fold_left (fun a c => fadd a (of_Z c)) cs f0))
              (of_Z (Z.of_nat (dataset_len l)))), eval_world w).
Proof.
  intros Hb Hne. unfold BaggingClassifier.predict.
  unfold bind at 1. unfold set_training, bind at 1, get_self, put_self.
  cbn [fst snd]. fold (eval_world w).
  unfold bind.
  rewrite (@for_fold_Forall2 _ _ _ _ (fun a c => fadd a (of_Z c)) (eval_world w) _ cs).
  - destruct (Nat.eqb_spec (dataset_len l) 0); [congruence|reflexivity].
  - eapply Forall2_impl; [|apply (Forall2_enumerate Hb)].
    intros [i [X y]] c (out & y_pred & Hf & Hm & He) acc. cbn [fst snd] in *.
    rewrite Hf. unfold lift. rewrite Hm, He. reflexivity.
Qed.
End PredictFacts.

Section PredictReal.
Context {E : @Engine R R_Scalar} {BM : @BaseModule R R_Scalar E}.
Local Open Scope R_scope.

Lemma fold_left_count (cs : list Z) (a : R) :
  fold_left (fun a c => a + IZR c) cs a = a + IZR (Zsum cs).
Proof.
  revert a; induction cs as [|c cs IH]; intros a; simpl; [lra|].
  rewrite IH, plus_IZR. lra.
Qed.

(** C3. The regressor's [predict] on a stream of at least one batch
    returns the sum of the mean squared errors of the batches, each taken
    between [forward] of the batch and its targets, divided by the number
    of batches; for two batches with errors m1 and m2 this is
    (m1 + m2) / 2, whatever the sizes of the batches. *)
Theorem reg_predict_mean_of_batch_mse
    (l : DataLoader (Tensor R)) (w : World) (ms : list R) :
  Forall2 (fun b m => exists out,
             BaggingRegressor.forward (fst b) (eval_world w) = (Ok out, eval_world w)
             /\ mse_loss out (snd b) = Ok m)
          (batches l) ms ->
  batches l <> [] ->
  BaggingRegressor.predict l w =
    (Ok (Rsum ms / INR (length (batches l))), eval_world w)
  /\ (forall m1 m2, ms = [m1; m2] ->
        BaggingRegressor.predict l w = (Ok ((m1 + m2) / 2), eval_world w)).
Proof.
  intros Hb Hne.
  assert (Hrun : BaggingRegressor.predict l w =
                 (Ok (Rsum ms / INR (length (batches l))), eval_world w)).
  { rewrite (reg_predict_run l Hb Hne). simpl.
    rewrite fold_left_Rplus, <- INR_IZR_INZ, (Forall2_length Hb).
    do 2 f_equal. lra. }
  split; [exact Hrun|].
  intros m1 m2 ->. rewrite Hrun, (Forall2_length Hb). simpl.
  do 2 f_equal. lra.
Qed.

(** C4, as the code has it. The classifier's [predict] returns 100 times
    the number of predictions equal to their target, counted over all the
    batches of the stream, divided by the length of the data set of the
    loader; this is the number of examples of the stream when the loader
    yields every example of its data set once. *)
Theorem clf_predict_accuracy
    (l : DataLoader (list Z)) (w : World) (cs : list Z) :
  Forall2 (fun b c => exists out y_pred,
             BaggingClassifier.forward (fst b) (eval_world w) = (Ok out, eval_world w)
             /\ max1_indices out = Ok y_pred
             /\ eq_sum y_pred (snd b) = Ok c)
          (batches l) cs ->
  dataset_len l <> O ->
  BaggingClassifier.predict l w =
    (Ok (100 * IZR (Zsum cs) / INR (dataset_len l)), eval_world w)
  /\ (dataset_len l = total_examples (batches l) ->
      BaggingClassifier.predict l w =
        (Ok (100 * IZR (Zsum cs) / INR (total_examples (batches l))), eval_world w)).
Proof.
  intros Hb Hne.
  assert (Hrun : BaggingClassifier.predict l w =
                 (Ok (100 * IZR (Zsum cs) / INR (dataset_len l)), eval_world w)).
  { rewrite (clf_predict_run l Hb Hne). simpl.
    rewrite fold_left_count, <- INR_IZR_INZ. do 2 f_equal. lra. }
  split; [exact Hrun|]. intros <-. exact Hrun.
Qed.
End PredictReal.

(** The batches of the examples, as [forward] sees them. *)
Lemma reg_batches_example :
  Forall2 (fun b m => exists out,
             BaggingRegressor.forward (fst b) (eval_world world2) = (Ok out, eval_world world2)
             /\ mse_loss out (snd b) = Ok m)
          (batches loader_reg)
          [mse (reg_out2 [1; 2]) [[2]; [4]]; mse (reg_out2 [3]) [[5]]]%R.
Proof.
  repeat constructor.
  - exists (reg_out2 [1; 2]%R). split; [|reflexivity].
    apply (reg_forward_eval (eval_world world2) [1; 2]%R);
      [reflexivity | reflexivity | simpl; lia |].
    intros p [<-|[<-|[]]]; split; simpl; auto.
  - exists (reg_out2 [3]%R). split; [|reflexivity].
    apply (reg_forward_eval (eval_world world2) [3]%R);
      [reflexivity | reflexivity | simpl; lia |].
    intros p [<-|[<-|[]]]; split; simpl; auto.
Qed.

Lemma clf_batches_example :
  Forall2 (fun b c => exists out y_pred,
             BaggingClassifier.forward (fst b) (eval_world world2) = (Ok out, eval_world world2)
             /\ max1_indices out = Ok y_pred
             /\ eq_sum y_pred (snd b) = Ok c)
          (batches loader_drop_last) [2].
Proof.
  repeat constructor.
  exists (clf_out2 [1; 2]%R), [0; 0]. split; [|split; reflexivity].
  apply (clf_forward_eval (eval_world world2) [1; 2]%R);
    [reflexivity | reflexivity | simpl; lia |].
  intros p [<-|[<-|[]]]; split; simpl; auto.
Qed.

Lemma reg_predict_mean_of_batch_mse_witness :
  BaggingRegressor.predict loader_reg world2 =
    (Ok (Rsum [mse (reg_out2 [1; 2]) [[2]; [4]]; mse (reg_out2 [3]) [[5]]]
         / INR (length (batches loader_reg))), eval_world world2)%R
  /\ (forall m1 m2,
        [mse (reg_out2 [1; 2]) [[2]; [4]]; mse (reg_out2 [3]) [[5]]]%R = [m1; m2] ->
        BaggingRegressor.predict loader_reg world2 = (Ok ((m1 + m2) / 2)%R, eval_world world2)).
Proof.
  apply (reg_predict_mean_of_batch_mse loader_reg reg_batches_example).
  discriminate.
Defined.

Lemma clf_predict_accuracy_witness :
  BaggingClassifier.predict loader_drop_last world2 =
    (Ok (100 * IZR (Zsum [2%Z]) / INR (dataset_len loader_drop_last))%R, eval_world world2)
  /\ (dataset_len loader_drop_last = total_examples (batches loader_drop_last) ->
      BaggingClassifier.predict loader_drop_last world2 =
        (Ok (100 * IZR (Zsum [2%Z]) / INR (total_examples (batches loader_drop_last)))%R,
         eval_world world2)).
Proof.
  apply (clf_predict_accuracy loader_drop_last clf_batches_example).
  discriminate.
Defined.

(** C4, as it is stated, fails on a loader that drops its incomplete last
    batch: of a data set of 3 examples the stream yields one batch of 2,
    both predicted right, and [predict] does not return
    100 * 2 / 2 (it returns 100 * 2 / 3). *)
Lemma clf_predict_not_over_streamed_examples :
  Forall2 (fun b c => exists out y_pred,
             BaggingClassifier.forward (fst b) (eval_world world2) = (Ok out, eval_world world2)
             /\ max1_indices out = Ok y_pred
             /\ eq_sum y_pred (snd b) = Ok c)
          (batches loader_drop_last) [2]
  /\ total_examples (batches loader_drop_last) = 2%nat
  /\ fst (BaggingClassifier.predict loader_drop_last world2)
     <> Ok (100 * IZR (Zsum [2%Z]) / INR (total_examples (batches loader_drop_last)))%R.
Proof.
  split; [exact clf_batches_example|]. split; [reflexivity|].
  rewrite (clf_predict_run loader_drop_last clf_batches_example) by discriminate.
  simpl. intros Heq. injection Heq as Heq. lra.
Qed.

(** ** Formatting *)

Section FormatFacts.

Lemma append_assoc (a b c : string) : ((a ++ b) ++ c = a ++ (b ++ c))%string.
Proof. induction a as [|x a IH]; simpl; [reflexivity|now rewrite IH]. Qed.

Lemma holds_from_spec (check : Z -> bool) (fuel : nat) (n : Z) :
  holds_from check fuel n = true ->
  forall k, n <= k < n + Z.of_nat fuel -> check k = true.
Proof.
  revert n; induction fuel as [|fuel IH]; intros n Hall k Hk; [lia|].
  simpl in Hall. apply andb_prop in Hall. destruct Hall as [Hn Hrest].
  destruct (Z.eq_dec k n) as [->|Hne]; [exact Hn|].
  apply (IH (n + 1) Hrest). lia.
Qed.

(** An index below 1000 is printed by [{:03d}] as exactly three digits. *)
Lemma fmt_03d_field (n : Z) : 0 <= n < 1000 -> is_field 3 n (fmt_0d 3 n) = true.
Proof.
  intros Hn.
  apply (@holds_from_spec (fun n => is_field 3 n (fmt_0d 3 n)) 1000 0); [|lia].
  vm_compute. reflexivity.
Qed.

Lemma length_append (a b : string) :
  String.length (a ++ b) = (String.length a + String.length b)%nat.
Proof. induction a as [|x a IH]; simpl; [reflexivity|now rewrite IH]. Qed.

Lemma all_digits_append (a b : string) :
  all_digits (a ++ b) = all_digits a && all_digits b.
Proof.
  induction a as [|x a IH]; simpl; [reflexivity|].
  now rewrite IH, andb_assoc.
Qed.

Lemma zeros_string_digits (n : nat) :
  String.length (zeros_string n) = n /\ all_digits (zeros_string n) = true.
Proof. induction n as [|n [IHl IHd]]; simpl; [auto|]. now rewrite IHl, IHd. Qed.

Lemma is_digit_digit_char (d : Z) : 0 <= d < 10 -> is_digit (digit_char d) = true.
Proof.
  intros Hd.
  apply (@holds_from_spec (fun d => is_digit (digit_char d)) 10 0); [|lia].
  vm_compute. reflexivity.
Qed.

Lemma all_digits_digits_acc (fuel : nat) (n : Z) (acc : string) :
  all_digits acc = true -> all_digits (digits_acc fuel n acc) = true.
Proof.
  revert n acc; induction fuel as [|fuel IH]; intros n acc Hacc.
  - cbn [digits_acc all_digits].
    rewrite Hacc, is_digit_digit_char by (apply Z.mod_pos_bound; lia).
    reflexivity.
  - cbn [digits_acc].
    assert (Hacc' : all_digits (String (digit_char (n mod 10)) acc) = true).
    { cbn [all_digits].
      rewrite Hacc, is_digit_digit_char by (apply Z.mod_pos_bound; lia).
      reflexivity. }
    destruct (n <? 10); [exact Hacc'|]. now apply IH.
Qed.

Lemma length_digits_acc (fuel : nat) (k : nat) (n : Z) (acc : string) :
  n < 10 ^ Z.of_nat (S k) ->
  (String.length (digits_acc fuel n acc) <= String.length acc + S k)%nat.
Proof.
  revert k n acc; induction fuel as [|fuel IH]; intros k n acc Hn.
  - cbn [digits_acc String.length]. lia.
  - cbn [digits_acc]. destruct (n <? 10) eqn:E; [cbn [String.length]; lia|].
    apply Z.ltb_ge in E. destruct k as [|k].
    + change (10 ^ Z.of_nat 1) with 10 in Hn. lia.
    + assert (Hq : n / 10 < 10 ^ Z.of_nat (S k)).
      { apply Z.div_lt_upper_bound; [lia|].
        replace (Z.of_nat (S (S k))) with (Z.succ (Z.of_nat (S k))) in Hn by lia.
        rewrite Z.pow_succ_r in Hn by lia. exact Hn. }
      specialize (IH k (n / 10) (String (digit_char (n mod 10)) acc) Hq).
      cbn [String.length] in IH. lia.
Qed.

Lemma fmt_05d_digits (n : Z) :
  0 <= n < 100000 ->
  Nat.eqb (String.length (fmt_0d 5 n)) 5 && all_digits (fmt_0d 5 n) = true.
Proof.
  intros Hn. unfold fmt_0d.
  destruct (n <? 0) eqn:E; [lia|]. rewrite Z.abs_eq by lia. cbn [append String.length].
  assert (Hl : (String.length (digits n) <= 5)%nat).
  { unfold digits.
    apply (@length_digits_acc _ 4 n EmptyString). change (10 ^ Z.of_nat 5) with 100000. lia. }
  assert (Hd : all_digits (digits n) = true).
  { unfold digits. now apply all_digits_digits_acc. }
  destruct (zeros_string_digits (5 - 0 - String.length (digits n))) as [Hzl Hzd].
  rewrite length_append, all_digits_append, Hzl, Hzd, Hd.
  apply andb_true_intro. split; [apply Nat.eqb_eq; lia|reflexivity].
Qed.

(** [{:.5f}] prints five decimals after the point. *)
Lemma fmt_5f_decimals {F} `{Scalar F} (x : F) :
  exists int_part decimals,
    fmt_5f x = (int_part ++ "." ++ decimals)%string /\
    String.length decimals = 5%nat /\ all_digits decimals = true.
Proof.
  unfold fmt_5f. set (n := fround5 x).
  exists ((if (n <? 0)%Z then "-" else "") ++ digits (Z.abs n / 100000))%string,
         (fmt_0d 5 (Z.abs n mod 100000)).
  split; [now rewrite append_assoc|].
  assert (Hm : 0 <= Z.abs n mod 100000 < 100000) by (apply Z.mod_pos_bound; lia).
  pose proof (fmt_05d_digits Hm) as Hd. apply andb_prop in Hd.
  destruct Hd as [Hl Ha]. apply Nat.eqb_eq in Hl. now split.
Qed.

Lemma clf_msg_fields {F} `{BaseModule F} (est_idx epoch batch_idx : Z) (loss : F)
    (correct total : Z) :
  BaggingClassifier.msg est_idx epoch batch_idx loss correct total
  = clf_log_line est_idx epoch batch_idx loss correct total.
Proof.
  unfold BaggingClassifier.msg, clf_log_line. cbn [String.concat].
  rewrite !append_assoc. reflexivity.
Qed.

Lemma reg_msg_fields {F} `{BaseModule F} (est_idx epoch batch_idx : Z) (loss : F) :
  BaggingRegressor.msg est_idx epoch batch_idx loss
  = reg_log_line est_idx epoch batch_idx loss.
Proof.
  unfold BaggingRegressor.msg, reg_log_line. cbn [String.concat].
  rewrite !append_assoc. reflexivity.
Qed.
End FormatFacts.

(** ** One training step *)

Section StepFacts.
Context {F : Type} `{BaseModule F}.

Lemma bind_ok {A B} (c : M A) (k : A -> M B) (w w' : World) (a : A) :
  c w = (Ok a, w') -> bind c k w = k a w'.
Proof. intros Hc. unfold bind. now rewrite Hc. Qed.

Lemma rmap_all_length {A B} (f : A -> result B) (l : list A) (l' : list B) :
  rmap_all f l = Ok l' -> length l' = length l.
Proof.
  revert l'; induction l as [|x l IH]; intros l' Hl; simpl in Hl.
  - injection Hl as <-. reflexivity.
  - destruct (f x) as [y|e]; simpl in Hl; [|discriminate].
    destruct (rmap_all f l) as [ys|e]; simpl in Hl; [|discriminate].
    injection Hl as <-. simpl. now rewrite (IH ys).
Qed.

Lemma max1_indices_ok (t : Tensor F) :
  Forall (fun r => r <> []) t ->
  exists ys, max1_indices t = Ok ys /\ length ys = length t.
Proof.
  unfold max1_indices. induction 1 as [|r t Hr _ (ys & Hys & Hl)]; simpl.
  - now exists [].
  - destruct r as [|x r]; [congruence|]. simpl. rewrite Hys. simpl.
    eexists. split; [reflexivity|]. simpl. now rewrite Hl.
Qed.

Lemma eq_sum_same_length (p q : list Z) :
  length p = length q -> eq_sum p q = Ok (count_eq p q).
Proof. intros Hl. unfold eq_sum. now rewrite Hl, Nat.eqb_refl. Qed.

Lemma mask_of_facts (w : World) (B : nat) :
  (1 <= B)%nat ->
  StronglySorted Z.lt (mask_of w B) /\
  (forall i, In i (mask_of w B) -> 0 <= i < Z.of_nat B).
Proof.
  intros HB. split; [apply sorted_unique|].
  intros i Hi. unfold mask_of in Hi. rewrite in_unique in Hi.
  apply in_map_iff in Hi. destruct Hi as (x & <- & _).
  apply Z.mod_pos_bound. lia.
Qed.

Lemma length_keep_indices {A} (w : World) (l : list A) :
  l <> [] -> length (keep_indices (mask_of w (length l)) l) = length (mask_of w (length l)).
Proof.
  intros Hl.
  assert (HB : (1 <= length l)%nat) by (destruct l; [congruence|simpl; lia]).
  destruct (mask_of_facts w HB) as [Hs Hr].
  apply (rmap_all_length (index_one l)). apply (select_sorted l Hs Hr).
Qed.

(** The draw of the mask and the two selections at the head of a step. *)
Lemma step_selection {T} (w : World) (X : list Input) (y : list T) :
  X <> [] -> length y = length X ->
  bootstrap_mask (length X) w =
    (Ok (mask_of w (length X)),
     {| self := self w; gen := gen_after w (length X); stdout := stdout w |})
  /\ select X (mask_of w (length X)) = Ok (keep_indices (mask_of w (length X)) X)
  /\ select y (mask_of w (length X)) = Ok (keep_indices (mask_of w (length X)) y).
Proof.
  intros HX Hy.
  assert (HB : (1 <= length X)%nat) by (destruct X; [congruence|simpl; lia]).
  destruct (mask_of_facts w HB) as [Hs Hr].
  split; [apply (bootstrap_mask_run w HB)|]. split.
  - apply (select_sorted X Hs Hr).
  - apply (select_sorted y Hs). now rewrite Hy.
Qed.

(** The optimizer step on the parameters [p] of the learner it was built
    on. *)
Lemma Adam_step_run (o : Adam) (g p : Params) (w : World) :
  nth_error (estimators_ (self w)) (param_ref o) = Some p ->
  Adam_step o g w =
    (Ok {| param_ref := param_ref o; adam_lr := adam_lr o;
           adam_weight_decay := adam_weight_decay o;
           adam_state := fst (adam_update (adam_lr o) (adam_weight_decay o)
                                          (adam_state o) p g) |},
     {| self := with_estimators (self w)
                  (list_update (estimators_ (self w)) (param_ref o)
                     (snd (adam_update (adam_lr o) (adam_weight_decay o)
                                       (adam_state o) p g)));
        gen := gen w; stdout := stdout w |}).
Proof.
  intros Hp. unfold Adam_step, read_estimator, write_estimator, bind, get_self, put_self.
  cbn [fst snd]. rewrite Hp. cbn [ret].
  destruct (adam_update _ _ _ p g) as [st' p']. reflexivity.
Qed.
End StepFacts.

Section StepRuns.
Context {F : Type} `{BaseModule F}.

(** One call through a reference, in whatever mode. *)
Lemma call_estimator_world (w : World) (i : nat) (p : Params) (X : list Input) :
  nth_error (estimators_ (self w)) i = Some p ->
  call_estimator i X w =
    (Ok (fst (fst (call (training (self w)) p X (gen w)))),
     {| self := with_estimators (self w)
                  (list_update (estimators_ (self w)) i
                     (snd (fst (call (training (self w)) p X (gen w)))));
        gen := snd (call (training (self w)) p X (gen w));
        stdout := stdout w |}).
Proof.
  intros Hp. rewrite (call_estimator_run _ _ X Hp).
  destruct (training (self w)); [reflexivity|].
  unfold call. cbn [fst snd]. rewrite (list_update_same _ _ Hp).
  now rewrite world_eta.
Qed.

(** A step of the classifier's [fit], from the draw of the mask to the
    line it may print: what it returns or raises, and the world it
    leaves. *)
Lemma clf_fit_batch_spec (est_idx epoch batch_idx : Z) (i : nat) (opt : Adam)
    (X : list Input) (y : list Z) (w : World) (p : Params) :
  nth_error (estimators_ (self w)) i = Some p ->
  param_ref opt = i ->
  X <> [] -> length y = length X ->
  BaggingClassifier.fit_batch est_idx i epoch opt (batch_idx, (X, y)) w =
    match cross_entropy (step_output w X p) (keep_indices (mask_of w (length X)) y) with
    | Raise e => (Raise e, stepped w X i p (snd (fst (step_call w X p))))
    | Ok l =>
        let u := step_update opt w X p (step_grad_cross_entropy w X y p) in
        if log_interval (self w) =? 0
        then (Raise ZeroDivisionError, stepped w X i p (snd u))
        else if batch_idx mod log_interval (self w) =? 0 then
          match max1_indices (softmax (step_output w X p)) with
          | Raise e => (Raise e, stepped w X i p (snd u))
          | Ok y_pred =>
              match eq_sum y_pred (keep_indices (mask_of w (length X)) y) with
              | Raise e => (Raise e, stepped w X i p (snd u))
              | Ok correct =>
                  (Ok (optimizer_after opt (fst u)),
                   printed (stepped w X i p (snd u))
                     (BaggingClassifier.msg est_idx epoch batch_idx (fadd f0 l) correct
                        (Z.of_nat (length y_pred))))
              end
          end
        else (Ok (optimizer_after opt (fst u)), stepped w X i p (snd u))
    end.
Proof.
  intros Hp Href HX Hy. subst i.
  destruct (step_selection w y HX Hy) as (Hmask & HsX & Hsy).
  assert (Hi : (param_ref opt < length (estimators_ (self w)))%nat)
    by (apply nth_error_Some; congruence).
  unfold BaggingClassifier.fit_batch.
  erewrite bind_ok by exact Hmask. unfold bind at 1, lift at 1. rewrite HsX.
  unfold bind at 1, lift at 1. rewrite Hsy.
  unfold bind at 1, get_self at 1. unfold bind at 1, get_gen at 1.
  unfold bind at 1, read_estimator at 1, bind at 1, get_self at 1. cbn [self gen fst snd].
  rewrite Hp. unfold ret at 1.
  unfold bind at 1. erewrite call_estimator_world by (cbn [self]; exact Hp).
  cbn [self gen stdout]. fold (step_call w X p). fold (step_output w X p).
  unfold bind at 1, lift at 1.
  destruct (cross_entropy (step_output w X p) _) as [l|e]; [|reflexivity].
  unfold bind at 1.
  erewrite Adam_step_run
    by (cbn [self estimators_ with_estimators];
        apply nth_error_list_update_eq; exact Hi).
  cbn [self gen stdout estimators_ with_estimators n_estimators output_dim lr
       weight_decay epochs log_interval training].
  rewrite list_update_twice.
  unfold bind at 1, get_self at 1. cbn [self log_interval with_estimators].
  unfold bind at 1, py_mod.
  destruct (log_interval (self w) =? 0); [reflexivity|].
  unfold ret at 1.
  destruct (batch_idx mod log_interval (self w) =? 0); [|reflexivity].
  unfold bind at 1, lift at 1.
  destruct (max1_indices (softmax (step_output w X p))) as [y_pred|e]; [|reflexivity].
  unfold bind at 1, lift at 1.
  destruct (eq_sum y_pred _) as [correct|e]; reflexivity.
Qed.

Lemma reg_fit_batch_spec (est_idx epoch batch_idx : Z) (i : nat) (opt : Adam)
    (X : list Input) (y : Tensor F) (w : World) (p : Params) :
  nth_error (estimators_ (self w)) i = Some p ->
  param_ref opt = i ->
  X <> [] -> length y = length X ->
  BaggingRegressor.fit_batch est_idx i epoch opt (batch_idx, (X, y)) w =
    match mse_loss (step_output w X p) (keep_indices (mask_of w (length X)) y) with
    | Raise e => (Raise e, stepped w X i p (snd (fst (step_call w X p))))
    | Ok l =>
        let u := step_update opt w X p (step_grad_mse w X y p) in
        if log_interval (self w) =? 0
        then (Raise ZeroDivisionError, stepped w X i p (snd u))
        else if batch_idx mod log_interval (self w) =? 0 then
          (Ok (optimizer_after opt (fst u)),
           printed (stepped w X i p (snd u))
             (BaggingRegressor.msg est_idx epoch batch_idx (fadd f0 l)))
        else (Ok (optimizer_after opt (fst u)), stepped w X i p (snd u))
    end.
Proof.
  intros Hp Href HX Hy. subst i.
  destruct (step_selection w y HX Hy) as (Hmask & HsX & Hsy).
  assert (Hi : (param_ref opt < length (estimators_ (self w)))%nat)
    by (apply nth_error_Some; congruence).
  unfold BaggingRegressor.fit_batch.
  erewrite bind_ok by exact Hmask. unfold bind at 1, lift at 1. rewrite HsX.
  unfold bind at 1, lift at 1. rewrite Hsy.
  unfold bind at 1, get_self at 1. unfold bind at 1, get_gen at 1.
  unfold bind at 1, read_estimator at 1, bind at 1, get_self at 1. cbn [self gen fst snd].
  rewrite Hp. unfold ret at 1.
  unfold bind at 1. erewrite call_estimator_world by (cbn [self]; exact Hp).
  cbn [self gen stdout]. fold (step_call w X p). fold (step_output w X p).
  unfold bind at 1, lift at 1.
  destruct (mse_loss (step_output w X p) _) as [l|e]; [|reflexivity].
  unfold bind at 1.
  erewrite Adam_step_run
    by (cbn [self estimators_ with_estimators];
        apply nth_error_list_update_eq; exact Hi).
  cbn [self gen stdout estimators_ with_estimators n_estimators output_dim lr
       weight_decay epochs log_interval training].
  rewrite list_update_twice.
  unfold bind at 1, get_self at 1. cbn [self log_interval with_estimators].
  unfold bind at 1, py_mod.
  destruct (log_interval (self w) =? 0); [reflexivity|].
  unfold ret at 1.
  destruct (batch_idx mod log_interval (self w) =? 0); reflexivity.
Qed.

(** The predictions on the bootstrap subset, for an output of one row per
    selected example and at least one column. *)
Lemma step_predictions (w : World) (X : list Input) (y : list Z) (p : Params) (D : nat) :
  X <> [] -> length y = length X ->
  has_shape (length (keep_indices (mask_of w (length X)) X)) D (step_output w X p) ->
  (1 <= D)%nat ->
  exists y_pred,
    max1_indices (softmax (step_output w X p)) = Ok y_pred /\
    length y_pred = length (mask_of w (length X)) /\
    eq_sum y_pred (keep_indices (mask_of w (length X)) y)
      = Ok (count_eq y_pred (keep_indices (mask_of w (length X)) y)).
Proof.
  intros HX Hy Hsh HD.
  destruct (@max1_indices_ok F _ (softmax (step_output w X p))) as (y_pred & Hmax & Hlen).
  { destruct (has_shape_softmax Hsh) as [_ Hrows]. revert Hrows. apply Forall_impl.
    intros r Hr Hnil. rewrite Hnil in Hr. simpl in Hr. lia. }
  assert (Hlen1 : length y_pred = length (mask_of w (length X))).
  { rewrite Hlen. unfold softmax. rewrite length_map. destruct Hsh as [-> _].
    now apply length_keep_indices. }
  exists y_pred. split; [exact Hmax|]. split; [exact Hlen1|].
  apply eq_sum_same_length. rewrite Hlen1, <- Hy. symmetry.
  apply length_keep_indices.
  intros Hnil. rewrite Hnil in Hy. destruct X; [congruence|discriminate].
Qed.

(** The world after a successful step of the learner at [estimator]. *)
Lemma clf_fit_batch_run (est_idx epoch batch_idx : Z) (estimator D : nat) (opt : Adam)
    (X : list Input) (y : list Z) (w : World) (p : Params) (l : F) :
  let mask := mask_of w (length X) in
  let sub_X := keep_indices mask X in
  let sub_y := keep_indices mask y in
  nth_error (estimators_ (self w)) estimator = Some p ->
  param_ref opt = estimator ->
  X <> [] -> length y = length X -> log_interval (self w) <> 0 ->
  has_shape (length sub_X) D (step_output w X p) -> (1 <= D)%nat ->
  cross_entropy (step_output w X p) sub_y = Ok l ->
  exists y_pred opt' w',
    max1_indices (softmax (step_output w X p)) = Ok y_pred /\
    BaggingClassifier.fit_batch est_idx estimator epoch opt (batch_idx, (X, y)) w
      = (Ok opt', w') /\
    param_ref opt' = estimator /\
    stdout w' = stdout w ++
      (if batch_idx mod log_interval (self w) =? 0
       then [clf_log_line est_idx epoch batch_idx (fadd f0 l)
               (count_eq y_pred sub_y) (Z.of_nat (length mask))]
       else []).
Proof.
  intros mask sub_X sub_y Hp Href HX Hy Hli Hsh HD Hl.
  edestruct step_predictions as (y_pred & Hmax & Hlen & Heq);
    [exact HX|exact Hy|exact Hsh|exact HD|].
  exists y_pred.
  erewrite clf_fit_batch_spec; [|exact Hp|exact Href|exact HX|exact Hy].
  fold mask sub_y. rewrite Hl. cbn zeta.
  destruct (Z.eqb_spec (log_interval (self w)) 0) as [E|_]; [contradiction|].
  destruct (batch_idx mod log_interval (self w) =? 0).
  - rewrite Hmax. fold mask sub_y in Heq. rewrite Heq.
    do 2 eexists. split; [reflexivity|]. split; [reflexivity|].
    split; [exact Href|]. cbn [stdout printed stepped].
    rewrite clf_msg_fields. now rewrite Hlen.
  - do 2 eexists. split; [exact Hmax|]. split; [reflexivity|].
    split; [exact Href|]. cbn [stdout stepped]. now rewrite app_nil_r.
Qed.

Lemma reg_fit_batch_run (est_idx epoch batch_idx : Z) (estimator : nat) (opt : Adam)
    (X : list Input) (y : Tensor F) (w : World) (p : Params) (l : F) :
  let mask := mask_of w (length X) in
  let sub_y := keep_indices mask y in
  nth_error (estimators_ (self w)) estimator = Some p ->
  param_ref opt = estimator ->
  X <> [] -> length y = length X -> log_interval (self w) <> 0 ->
  mse_loss (step_output w X p) sub_y = Ok l ->
  exists opt' w',
    BaggingRegressor.fit_batch est_idx estimator epoch opt (batch_idx, (X, y)) w
      = (Ok opt', w') /\
    param_ref opt' = estimator /\
    stdout w' = stdout w ++
      (if batch_idx mod log_interval (self w) =? 0
       then [reg_log_line est_idx epoch batch_idx (fadd f0 l)]
       else []).
Proof.
  intros mask sub_y Hp Href HX Hy Hli Hl.
  erewrite reg_fit_batch_spec; [|exact Hp|exact Href|exact HX|exact Hy].
  fold mask sub_y. rewrite Hl. cbn zeta.
  destruct (Z.eqb_spec (log_interval (self w)) 0) as [E|_]; [contradiction|].
  destruct (batch_idx mod log_interval (self w) =? 0).
  - do 2 eexists. split; [reflexivity|]. split; [exact Href|].
    cbn [stdout printed stepped]. now rewrite reg_msg_fields.
  - do 2 eexists. split; [reflexivity|]. split; [exact Href|].
    cbn [stdout stepped]. now rewrite app_nil_r.
Qed.
End StepRuns.

Section TrainingLog.
Context {F : Type} `{BaseModule F}.

(** C8, as the code has it. In a step of [fit] on a batch that is not
    empty, with a log interval other than 0, by an optimizer built on the
    learner being trained, the loss being defined on the bootstrap subset:
    a line is printed exactly when the index of the batch is a multiple of
    [log_interval], and nothing else is printed.
    The line is made of fields separated by [" | "]: the index of the
    estimator, the epoch and the index of the batch, each padded with
    zeros to at least three digits, the loss with five decimals and, for
    the classifier only, the number of right predictions on the bootstrap
    subset over the size of that subset.  An index below 1000 is printed
    as exactly three digits. *)
Theorem fit_batch_log (est_idx epoch batch_idx : Z) (estimator : nat) (opt : Adam)
    (X : list Input) (w : World) (p : Params) :
  nth_error (estimators_ (self w)) estimator = Some p ->
  param_ref opt = estimator ->
  X <> [] -> log_interval (self w) <> 0 ->
  (forall (y : list Z) (D : nat) (loss : F),
     length y = length X ->
     has_shape (length (keep_indices (mask_of w (length X)) X)) D (step_output w X p) ->
     (1 <= D)%nat ->
     cross_entropy (step_output w X p) (keep_indices (mask_of w (length X)) y) = Ok loss ->
     exists y_pred opt' w',
       max1_indices (softmax (step_output w X p)) = Ok y_pred /\
       BaggingClassifier.fit_batch est_idx estimator epoch opt (batch_idx, (X, y)) w
         = (Ok opt', w') /\
       stdout w' = stdout w ++
         (if batch_idx mod log_interval (self w) =? 0
          then [clf_log_line est_idx epoch batch_idx (fadd f0 loss)
                  (count_eq y_pred (keep_indices (mask_of w (length X)) y))
                  (Z.of_nat (length (mask_of w (length X))))]
          else []))
  /\ (forall (y : Tensor F) (loss : F),
        length y = length X ->
        mse_loss (step_output w X p) (keep_indices (mask_of w (length X)) y) = Ok loss ->
        exists opt' w',
          BaggingRegressor.fit_batch est_idx estimator epoch opt (batch_idx, (X, y)) w
            = (Ok opt', w') /\
          stdout w' = stdout w ++
            (if batch_idx mod log_interval (self w) =? 0
             then [reg_log_line est_idx epoch batch_idx (fadd f0 loss)]
             else []))
  /\ (forall n, 0 <= n < 1000 -> is_field 3 n (fmt_0d 3 n) = true)
  /\ (forall x : F, exists int_part decimals,
        fmt_5f x = (int_part ++ "." ++ decimals)%string /\
        String.length decimals = 5%nat /\ all_digits decimals = true).
Proof.
  intros Hp Href HX Hli. split; [|split; [|split]].
  - intros y D loss Hy Hsh HD Hl.
    destruct (@clf_fit_batch_run F _ _ _ est_idx epoch batch_idx estimator D opt X y w p loss
                Hp Href HX Hy Hli Hsh HD Hl) as (y_pred & opt' & w' & Hmax & Hrun & _ & Hout).
    now exists y_pred, opt', w'.
  - intros y loss Hy Hl.
    destruct (@reg_fit_batch_run F _ _ _ est_idx epoch batch_idx estimator opt X y w p loss
                Hp Href HX Hy Hli Hl) as (opt' & w' & Hrun & _ & Hout).
    now exists opt', w'.
  - apply fmt_03d_field.
  - apply fmt_5f_decimals.
Qed.
End TrainingLog.

Lemma fit_batch_log_witness :
  (forall (y : list Z) (D : nat) (loss : R),
     length y = length X2 ->
     has_shape (length (keep_indices (mask_of world2 (length X2)) X2)) D
               (step_output world2 X2 [1%R]) ->
     (1 <= D)%nat ->
     cross_entropy (step_output world2 X2 [1%R])
                   (keep_indices (mask_of world2 (length X2)) y) = Ok loss ->
     exists y_pred opt' w',
       max1_indices (softmax (step_output world2 X2 [1%R])) = Ok y_pred /\
       BaggingClassifier.fit_batch 0 0 0 opt0 (0, (X2, y)) world2 = (Ok opt', w') /\
       stdout w' = stdout world2 ++
         (if 0 mod log_interval (self world2) =? 0
          then [clf_log_line 0 0 0 (fadd f0 loss)
                  (count_eq y_pred (keep_indices (mask_of world2 (length X2)) y))
                  (Z.of_nat (length (mask_of world2 (length X2))))]
          else []))
  /\ (forall (y : Tensor R) (loss : R),
        length y = length X2 ->
        mse_loss (step_output world2 X2 [1%R])
                 (keep_indices (mask_of world2 (length X2)) y) = Ok loss ->
        exists opt' w',
          BaggingRegressor.fit_batch 0 0 0 opt0 (0, (X2, y)) world2 = (Ok opt', w') /\
          stdout w' = stdout world2 ++
            (if 0 mod log_interval (self world2) =? 0
             then [reg_log_line 0 0 0 (fadd f0 loss)]
             else []))
  /\ (forall n, 0 <= n < 1000 -> is_field 3 n (fmt_0d 3 n) = true)
  /\ (forall x : R, exists int_part decimals,
        fmt_5f x = (int_part ++ "." ++ decimals)%string /\
        String.length decimals = 5%nat /\ all_digits decimals = true).
Proof.
  apply (@fit_batch_log R R_Scalar engine base_module 0 0 0 0%nat opt0 X2 world2 [1%R]).
  - reflexivity.
  - reflexivity.
  - discriminate.
  - discriminate.
Defined.

(** ** Training one base learner does not involve the others *)

Section Isolation.
Context {F : Type} `{BaseModule F}.

Section Sim.
Variable ps : list Params.
Variable i : nat.
Hypothesis Hi : (i < length ps)%nat.

Lemma sim_ret {A A'} (RA : A -> A' -> Prop) (a : A) (a' : A') :
  RA a a' -> sim ps i RA (ret a) (ret a').
Proof. intros Ha w w' Hw. simpl. auto. Qed.

Lemma sim_lift {A} (r : result A) : sim ps i eq (lift r) (lift r).
Proof. intros w w' Hw. unfold lift. destruct r; auto. Qed.

Lemma sim_bind {A A' B B'} (RA : A -> A' -> Prop) (RB : B -> B' -> Prop)
    (c : M A) (c' : M A') (k : A -> M B) (k' : A' -> M B') :
  sim ps i RA c c' ->
  (forall a a', RA a a' -> sim ps i RB (k a) (k' a')) ->
  sim ps i RB (bind c k) (bind c' k').
Proof.
  intros Hc Hk w w' Hw. unfold bind. specialize (Hc w w' Hw).
  destruct (c w) as [[a|e] w1], (c' w') as [[a'|e'] w1']; try contradiction.
  - destruct Hc as [Ha Hw1]. apply (Hk a a' Ha w1 w1' Hw1).
  - exact Hc.
Qed.

Lemma sim_for_fold {A S S'} (RS : S -> S' -> Prop)
    (body : S -> A -> M S) (body' : S' -> A -> M S') (l : list A) :
  (forall acc acc' x, RS acc acc' -> sim ps i RS (body acc x) (body' acc' x)) ->
  forall acc acc', RS acc acc' ->
    sim ps i RS (for_fold l acc body) (for_fold l acc' body').
Proof.
  intros Hb. induction l as [|x l IH]; intros acc acc' Hacc; simpl.
  - now apply sim_ret.
  - apply (sim_bind (RA := RS)); [now apply Hb|]. intros a a' Ha. now apply IH.
Qed.

Lemma sim_get_self : sim ps i same_config get_self get_self.
Proof.
  intros w w' (p & Hp & ->). simpl. split; [reflexivity|]. now exists p.
Qed.

Lemma sim_bootstrap_mask (B : nat) :
  sim ps i eq (bootstrap_mask B) (bootstrap_mask B).
Proof.
  intros w w' (p & Hp & ->).
  unfold bootstrap_mask, bind, randint, ret. cbn [gen solo].
  destruct (Z.of_nat B <=? 0).
  - split; [reflexivity|]. now exists p.
  - destruct (draws B (gen w)) as [xs g']. split; [reflexivity|]. now exists p.
Qed.

Lemma sim_get_gen : sim ps i eq get_gen get_gen.
Proof.
  intros w w' (p & Hp & ->). simpl. split; [reflexivity|]. now exists p.
Qed.

Lemma sim_call_estimator (X : list Input) :
  sim ps i eq (call_estimator i X) (call_estimator O X).
Proof.
  intros w w' (p & Hp & ->).
  assert (Hn : nth_error (estimators_ (self w)) i = Some p).
  { rewrite Hp. now apply nth_error_list_update_eq. }
  assert (Hn' : nth_error (estimators_ (self (solo w p))) O = Some p) by reflexivity.
  rewrite (call_estimator_world _ _ X Hn), (call_estimator_world _ _ X Hn').
  cbn [self gen stdout solo training with_estimators estimators_ list_update].
  split; [reflexivity|].
  eexists. split; [|reflexivity].
  cbn [self estimators_ with_estimators]. rewrite Hp. apply list_update_twice.
Qed.

Lemma sim_read_estimator : sim ps i eq (read_estimator i) (read_estimator O).
Proof.
  intros w w' (p & Hp & ->).
  unfold read_estimator, bind, get_self. cbn [fst snd self solo estimators_ with_estimators].
  rewrite Hp, nth_error_list_update_eq by exact Hi. simpl.
  split; [reflexivity|]. now exists p.
Qed.

Lemma sim_Adam_step (o o' : Adam) (g : Params) :
  same_opt i o o' -> sim ps i (same_opt i) (Adam_step o g) (Adam_step o' g).
Proof.
  intros (Hr & Hr' & Hlr & Hwd & Hst) w w' (p & Hp & ->).
  assert (Hn : nth_error (estimators_ (self w)) (param_ref o) = Some p).
  { rewrite Hp, Hr. now apply nth_error_list_update_eq. }
  assert (Hn' : nth_error (estimators_ (self (solo w p))) (param_ref o') = Some p).
  { now rewrite Hr'. }
  erewrite (Adam_step_run o) by exact Hn. erewrite (Adam_step_run o') by exact Hn'.
  rewrite <- Hlr, <- Hwd, <- Hst, Hr, Hr'. split.
  - repeat split; assumption.
  - eexists. cbn [self estimators_ with_estimators solo]. split.
    + rewrite Hp. apply list_update_twice.
    + reflexivity.
Qed.

Lemma sim_py_mod (a b : Z) : sim ps i eq (py_mod a b) (py_mod a b).
Proof.
  intros w w' Hw. unfold py_mod. destruct (b =? 0); simpl; auto.
Qed.

Lemma sim_print (line : string) : sim ps i eq (print line) (print line).
Proof.
  intros w w' (p & Hp & ->). simpl. split; [reflexivity|]. now exists p.
Qed.
End Sim.
End Isolation.

Section SessionSim.
Context {F : Type} `{BaseModule F}.
Variable ps : list Params.
Variable i : nat.
Hypothesis Hi : (i < length ps)%nat.

Lemma same_config_fields (e e' : Ensemble) :
  same_config e e' ->
  lr e = lr e' /\ weight_decay e = weight_decay e' /\ epochs e = epochs e' /\
  log_interval e = log_interval e'.
Proof.
  intros He. unfold same_config in He.
  repeat split;
    [ apply (f_equal lr) in He | apply (f_equal weight_decay) in He
    | apply (f_equal epochs) in He | apply (f_equal log_interval) in He ];
    exact He.
Qed.

Lemma same_config_training (e e' : Ensemble) :
  same_config e e' -> training e = training e'.
Proof. intros He. apply (f_equal training) in He. exact He. Qed.

Lemma clf_fit_batch_sim (est_idx epoch : Z) (o o' : Adam) (b : Z * (list Input * list Z)) :
  same_opt i o o' ->
  sim ps i (same_opt i) (BaggingClassifier.fit_batch est_idx i epoch o b)
                        (BaggingClassifier.fit_batch est_idx O epoch o' b).
Proof.
  intros Ho. destruct b as [batch_idx [X y]]. unfold BaggingClassifier.fit_batch.
  apply sim_bind with (RA := eq); [apply sim_bootstrap_mask|]. intros mask ? <-.
  apply sim_bind with (RA := eq); [apply sim_lift|]. intros sX ? <-.
  apply sim_bind with (RA := eq); [apply sim_lift|]. intros sy ? <-.
  apply sim_bind with (RA := same_config); [apply sim_get_self|]. intros e0 e0' He0.
  rewrite <- (same_config_training He0).
  apply sim_bind with (RA := eq); [apply sim_get_gen|]. intros g ? <-.
  apply sim_bind with (RA := eq); [now apply sim_read_estimator|]. intros p ? <-.
  apply sim_bind with (RA := eq); [now apply sim_call_estimator|]. intros out ? <-.
  apply sim_bind with (RA := eq); [apply sim_lift|]. intros l ? <-.
  apply sim_bind with (RA := same_opt i); [now apply sim_Adam_step|]. intros o1 o1' Ho1.
  apply sim_bind with (RA := same_config); [apply sim_get_self|]. intros e e' He.
  destruct (same_config_fields He) as (_ & _ & _ & <-).
  apply sim_bind with (RA := eq); [apply sim_py_mod|]. intros r ? <-.
  destruct (r =? 0).
  - apply sim_bind with (RA := eq); [apply sim_lift|]. intros yp ? <-.
    apply sim_bind with (RA := eq); [apply sim_lift|]. intros c ? <-.
    apply sim_bind with (RA := eq); [apply sim_print|]. intros _ _ _.
    now apply sim_ret.
  - now apply sim_ret.
Qed.

Lemma reg_fit_batch_sim (est_idx epoch : Z) (o o' : Adam) (b : Z * (list Input * Tensor F)) :
  same_opt i o o' ->
  sim ps i (same_opt i) (BaggingRegressor.fit_batch est_idx i epoch o b)
                        (BaggingRegressor.fit_batch est_idx O epoch o' b).
Proof.
  intros Ho. destruct b as [batch_idx [X y]]. unfold BaggingRegressor.fit_batch.
  apply sim_bind with (RA := eq); [apply sim_bootstrap_mask|]. intros mask ? <-.
  apply sim_bind with (RA := eq); [apply sim_lift|]. intros sX ? <-.
  apply sim_bind with (RA := eq); [apply sim_lift|]. intros sy ? <-.
  apply sim_bind with (RA := same_config); [apply sim_get_self|]. intros e0 e0' He0.
  rewrite <- (same_config_training He0).
  apply sim_bind with (RA := eq); [apply sim_get_gen|]. intros g ? <-.
  apply sim_bind with (RA := eq); [now apply sim_read_estimator|]. intros p ? <-.
  apply sim_bind with (RA := eq); [now apply sim_call_estimator|]. intros out ? <-.
  apply sim_bind with (RA := eq); [apply sim_lift|]. intros l ? <-.
  apply sim_bind with (RA := same_opt i); [now apply sim_Adam_step|]. intros o1 o1' Ho1.
  apply sim_bind with (RA := same_config); [apply sim_get_self|]. intros e e' He.
  destruct (same_config_fields He) as (_ & _ & _ & <-).
  apply sim_bind with (RA := eq); [apply sim_py_mod|]. intros r ? <-.
  destruct (r =? 0).
  - apply sim_bind with (RA := eq); [apply sim_print|]. intros _ _ _.
    now apply sim_ret.
  - now apply sim_ret.
Qed.

Lemma same_opt_new (lr_ wd : F) : same_opt i (Adam_new i lr_ wd) (Adam_new O lr_ wd).
Proof. repeat split. Qed.

(** A training session of the learner at [i] in the ensemble and the
    session of that learner on its own have the same outcome. *)
Lemma clf_fit_estimator_sim (l : DataLoader (list Z)) (est_idx : Z) :
  sim ps i eq (BaggingClassifier.fit_estimator l tt (est_idx, i))
              (BaggingClassifier.fit_estimator l tt (est_idx, O)).
Proof.
  unfold BaggingClassifier.fit_estimator.
  apply sim_bind with (RA := same_config); [apply sim_get_self|]. intros e e' He.
  destruct (same_config_fields He) as (<- & <- & <- & _).
  apply sim_bind with (RA := same_opt i); [|intros; now apply sim_ret].
  apply sim_for_fold; [|apply same_opt_new].
  intros o o' epoch Ho. unfold BaggingClassifier.fit_epoch.
  apply sim_for_fold; [|exact Ho].
  intros o1 o1' b Ho1. now apply clf_fit_batch_sim.
Qed.

Lemma reg_fit_estimator_sim (l : DataLoader (Tensor F)) (est_idx : Z) :
  sim ps i eq (BaggingRegressor.fit_estimator l tt (est_idx, i))
              (BaggingRegressor.fit_estimator l tt (est_idx, O)).
Proof.
  unfold BaggingRegressor.fit_estimator.
  apply sim_bind with (RA := same_config); [apply sim_get_self|]. intros e e' He.
  destruct (same_config_fields He) as (<- & <- & <- & _).
  apply sim_bind with (RA := same_opt i); [|intros; now apply sim_ret].
  apply sim_for_fold; [|apply same_opt_new].
  intros o o' epoch Ho. unfold BaggingRegressor.fit_epoch.
  apply sim_for_fold; [|exact Ho].
  intros o1 o1' b Ho1. now apply reg_fit_batch_sim.
Qed.
End SessionSim.

Section OneByOne.
Context {F : Type} `{BaseModule F}.

Lemma with_own_estimators (w : World) :
  with_world_estimators w (estimators_ (self w)) = w.
Proof. destruct w as [[] g out]. reflexivity. Qed.

Lemma with_world_estimators_twice (w : World) (a b : list Params) :
  with_world_estimators (with_world_estimators w a) b = with_world_estimators w b.
Proof. reflexivity. Qed.

Lemma one_by_one_with (session : Z -> M unit) (todo : list Params) :
  forall (k : Z) (w : World) (qs : list Params),
    one_by_one session k todo (with_world_estimators w qs) = one_by_one session k todo w.
Proof. destruct todo; reflexivity. Qed.

Lemma enumerate_seq (n : nat) :
  enumerate (seq 0 n) = map (fun j => (Z.of_nat j, j)) (seq 0 n).
Proof.
  unfold enumerate, range. rewrite length_seq, Nat2Z.id. generalize O.
  induction n as [|n IH]; intros k; simpl; [reflexivity|]. now rewrite IH.
Qed.

(** A loop over the learners in the order of their index, each step of
    which is a session on one learner, trains them one by one. *)
Lemma loop_one_by_one (big : unit -> Z * nat -> M unit) (small : Z -> M unit) :
  (forall ps i est_idx, (i < length ps)%nat ->
     sim ps i eq (big tt (est_idx, i)) (small est_idx)) ->
  forall (todo done : list Params) (w : World),
    estimators_ (self w) = done ++ todo ->
    for_fold (map (fun j => (Z.of_nat j, j)) (seq (length done) (length todo))) tt big w
    = let '(r, w2) := one_by_one small (Z.of_nat (length done)) todo w in
      (r, with_world_estimators w2 (done ++ estimators_ (self w2))).
Proof.
  intros Hsim. induction todo as [|p todo IH]; intros done w Hw.
  - cbn [length seq map for_fold one_by_one]. unfold ret. f_equal.
    change (w = with_world_estimators w (done ++ [])).
    rewrite <- Hw. symmetry. apply with_own_estimators.
  - cbn [length seq map for_fold one_by_one].
    assert (Hlen : (length done < length (done ++ p :: todo))%nat).
    { rewrite length_app. simpl. lia. }
    assert (Hslot : in_slot (done ++ p :: todo) (length done) w (solo w p)).
    { exists p. split; [|reflexivity]. now rewrite list_update_middle. }
    pose proof (Hsim _ _ (Z.of_nat (length done)) Hlen w (solo w p) Hslot) as Hs.
    unfold bind.
    destruct (big tt (Z.of_nat (length done), length done) w) as [[[]|e] w1];
      destruct (small (Z.of_nat (length done)) (solo w p)) as [[[]|e'] w1'];
      try contradiction.
    + destruct Hs as (_ & p1 & Hp1 & ->). rewrite list_update_middle in Hp1.
      specialize (IH (done ++ [p1]) w1).
      rewrite length_app, <- app_assoc in IH. cbn [length app] in IH.
      rewrite Nat.add_1_r in IH. rewrite (IH Hp1).
      change (solo w1 p1) with (with_world_estimators w1 [p1]).
      rewrite one_by_one_with.
      replace (Z.of_nat (length done) + 1) with (Z.of_nat (S (length done))) by lia.
      destruct (one_by_one small (Z.of_nat (S (length done))) todo w1) as [r w2].
      cbn [with_world_estimators self estimators_ with_estimators gen stdout].
      now rewrite <- app_assoc.
    + destruct Hs as (<- & p1 & Hp1 & ->). rewrite list_update_middle in Hp1.
      f_equal. change (w1 = with_world_estimators w1 (done ++ ([p1] ++ todo))).
      cbn [app]. rewrite <- Hp1. symmetry. apply with_own_estimators.
Qed.
End OneByOne.

Section FitIsolation.
Context {F : Type} `{BaseModule F}.

Lemma session_frame (session : Z * nat -> M unit) (small : Z -> M unit) (est_idx : Z)
    (i : nat) (w w' : World) (r : result unit) :
  (forall ps, (i < length ps)%nat -> sim ps i eq (session (est_idx, i)) (small est_idx)) ->
  (i < length (estimators_ (self w)))%nat ->
  session (est_idx, i) w = (r, w') ->
  forall j, j <> i ->
    nth_error (estimators_ (self w')) j = nth_error (estimators_ (self w)) j.
Proof.
  intros Hsim Hi Hrun j Hj.
  destruct (nth_error (estimators_ (self w)) i) as [p|] eqn:Hp.
  2:{ apply nth_error_None in Hp. lia. }
  assert (Hslot : in_slot (estimators_ (self w)) i w (solo w p)).
  { exists p. split; [|reflexivity]. symmetry. now apply list_update_same. }
  pose proof (Hsim _ Hi w (solo w p) Hslot) as Hs. rewrite Hrun in Hs.
  destruct r as [u|e], (small est_idx (solo w p)) as [[u'|e'] w1']; try contradiction;
    destruct Hs as (_ & p1 & -> & _); now apply nth_error_list_update_ne.
Qed.

Lemma for_fold_ext {A S} (body body' : S -> A -> M S) (l : list A) :
  (forall acc x w, body acc x w = body' acc x w) ->
  forall acc w, for_fold l acc body w = for_fold l acc body' w.
Proof.
  intros Hb. induction l as [|x l IH]; intros acc w; simpl; [reflexivity|].
  unfold bind. rewrite Hb. destruct (body' acc x w) as [[a|e] w1]; auto.
Qed.

Lemma for_fold_map {A B S} (g : A -> B) (body : S -> B -> M S) (l : list A) :
  forall acc w, for_fold (map g l) acc body w = for_fold l acc (fun a x => body a (g x)) w.
Proof.
  induction l as [|x l IH]; intros acc w; simpl; [reflexivity|].
  unfold bind. destruct (body acc (g x) w) as [[a|e] w1]; auto.
Qed.

Lemma for_fold_app {A S} (body : S -> A -> M S) (l1 l2 : list A) :
  forall acc w,
    for_fold (l1 ++ l2) acc body w
    = bind (for_fold l1 acc body) (fun a => for_fold l2 a body) w.
Proof.
  induction l1 as [|x l1 IH]; intros acc w; simpl; [reflexivity|].
  unfold bind at 1 2 3. destruct (body acc x w) as [[a|e] w1]; [|reflexivity].
  rewrite IH. reflexivity.
Qed.

(** Nested loops are one loop over the pairs. *)
Lemma for_fold_flat_map {A B S} (f : A -> list B) (body : S -> B -> M S) (l : list A) :
  forall acc w,
    for_fold (flat_map f l) acc body w
    = for_fold l acc (fun a x => for_fold (f x) a body) w.
Proof.
  induction l as [|x l IH]; intros acc w; simpl; [reflexivity|].
  rewrite for_fold_app. unfold bind.
  destruct (for_fold (f x) acc body w) as [[a|e] w1]; auto.
Qed.

(** A training session is the sequence of its steps, the first made with
    a new optimizer and each next one with the optimizer the step before
    returned. *)
Lemma clf_fit_estimator_steps (l : DataLoader (list Z)) (est_idx : Z) (i : nat) (w : World) :
  BaggingClassifier.fit_estimator l tt (est_idx, i) w =
    (for_fold (steps l (epochs (self w)))
              (Adam_new i (lr (self w)) (weight_decay (self w)))
              (fun o s => BaggingClassifier.fit_batch est_idx i (fst s) o (snd s)) ;;;
     ret tt) w.
Proof.
  unfold BaggingClassifier.fit_estimator. unfold bind at 1, get_self at 1.
  unfold bind. unfold steps. rewrite for_fold_flat_map.
  erewrite for_fold_ext; [reflexivity|].
  intros o epoch w0. unfold BaggingClassifier.fit_epoch. now rewrite for_fold_map.
Qed.

Lemma reg_fit_estimator_steps (l : DataLoader (Tensor F)) (est_idx : Z) (i : nat) (w : World) :
  BaggingRegressor.fit_estimator l tt (est_idx, i) w =
    (for_fold (steps l (epochs (self w)))
              (Adam_new i (lr (self w)) (weight_decay (self w)))
              (fun o s => BaggingRegressor.fit_batch est_idx i (fst s) o (snd s)) ;;;
     ret tt) w.
Proof.
  unfold BaggingRegressor.fit_estimator. unfold bind at 1, get_self at 1.
  unfold bind. unfold steps. rewrite for_fold_flat_map.
  erewrite for_fold_ext; [reflexivity|].
  intros o epoch w0. unfold BaggingRegressor.fit_epoch. now rewrite for_fold_map.
Qed.

(** What a step that returns has done: the learner it was made on has the
    state the optimizer computed, the optimizer returned is the same
    optimizer with its new running state, the other learners are as they
    were. *)
Lemma stepped_learners (w : World) (X : list Input) (i : nat) (p p' : Params) :
  (i < length (estimators_ (self w)))%nat ->
  forall w', (w' = stepped w X i p p' \/ exists s, w' = printed (stepped w X i p p') s) ->
    nth_error (estimators_ (self w')) i = Some p' /\
    forall j, j <> i ->
      nth_error (estimators_ (self w')) j = nth_error (estimators_ (self w)) j.
Proof.
  intros Hi w' [->|[s ->]]; cbn [printed stepped self estimators_ with_estimators];
    (split; [now apply nth_error_list_update_eq
            |intros j Hj; now apply nth_error_list_update_ne]).
Qed.

Lemma clf_step_trains (est_idx epoch batch_idx : Z) (i : nat) (o o' : Adam)
    (X : list Input) (y : list Z) (w w' : World) (p : Params) :
  nth_error (estimators_ (self w)) i = Some p ->
  param_ref o = i -> X <> [] -> length y = length X ->
  BaggingClassifier.fit_batch est_idx i epoch o (batch_idx, (X, y)) w = (Ok o', w') ->
  o' = optimizer_after o (fst (step_update o w X p (step_grad_cross_entropy w X y p)))
  /\ nth_error (estimators_ (self w')) i
     = Some (snd (step_update o w X p (step_grad_cross_entropy w X y p)))
  /\ (forall j, j <> i ->
        nth_error (estimators_ (self w')) j = nth_error (estimators_ (self w)) j).
Proof.
  intros Hp Href HX Hy.
  assert (Hi : (i < length (estimators_ (self w)))%nat)
    by (apply nth_error_Some; congruence).
  erewrite clf_fit_batch_spec; [|exact Hp|exact Href|exact HX|exact Hy].
  destruct (cross_entropy _ _) as [l|e]; [|discriminate]. cbn zeta.
  destruct (log_interval (self w) =? 0); [discriminate|].
  destruct (batch_idx mod log_interval (self w) =? 0).
  - destruct (max1_indices _) as [y_pred|e]; [|discriminate].
    destruct (eq_sum _ _) as [c|e]; [|discriminate].
    intros [= <- <-]. split; [reflexivity|].
    eapply stepped_learners; [exact Hi|]. right. eexists. reflexivity.
  - intros [= <- <-]. split; [reflexivity|].
    eapply stepped_learners; [exact Hi|]. left. reflexivity.
Qed.

Lemma reg_step_trains (est_idx epoch batch_idx : Z) (i : nat) (o o' : Adam)
    (X : list Input) (y : Tensor F) (w w' : World) (p : Params) :
  nth_error (estimators_ (self w)) i = Some p ->
  param_ref o = i -> X <> [] -> length y = length X ->
  BaggingRegressor.fit_batch est_idx i epoch o (batch_idx, (X, y)) w = (Ok o', w') ->
  o' = optimizer_after o (fst (step_update o w X p (step_grad_mse w X y p)))
  /\ nth_error (estimators_ (self w')) i
     = Some (snd (step_update o w X p (step_grad_mse w X y p)))
  /\ (forall j, j <> i ->
        nth_error (estimators_ (self w')) j = nth_error (estimators_ (self w)) j).
Proof.
  intros Hp Href HX Hy.
  assert (Hi : (i < length (estimators_ (self w)))%nat)
    by (apply nth_error_Some; congruence).
  erewrite reg_fit_batch_spec; [|exact Hp|exact Href|exact HX|exact Hy].
  destruct (mse_loss _ _) as [l|e]; [|discriminate]. cbn zeta.
  destruct (log_interval (self w) =? 0); [discriminate|].
  destruct (batch_idx mod log_interval (self w) =? 0).
  - intros [= <- <-]. split; [reflexivity|].
    eapply stepped_learners; [exact Hi|]. right. eexists. reflexivity.
  - intros [= <- <-]. split; [reflexivity|].
    eapply stepped_learners; [exact Hi|]. left. reflexivity.
Qed.

(** C7. [fit] sets the training mode, validates the parameters and then
    trains the base learners one by one in the order of their index: its
    outcome (the states of the learners, the generator, the output and the
    exception, if any) is that of training each learner on its own, in a
    world that holds no other learner; what one session hands to the next
    is the generator and the output, no optimizer.
    A session of the learner at [i] is the sequence of its steps over the
    epochs and the batches, the first step made with a new optimizer built
    on that learner ([Adam_new], whose running state is [adam_init]) and
    each next step with the optimizer the step before returned.
    A step that returns has replaced the state of the learner at [i] by
    the update that this optimizer computed, returns the same optimizer
    with its new running state, and leaves every other learner as it was;
    so does a whole session, whatever it returns or raises. *)
Theorem fit_trains_one_by_one
    (cl : DataLoader (list Z)) (rl : DataLoader (Tensor F)) (w : World) :
  BaggingClassifier.fit cl w =
    match _validate_parameters (self (train_world w)) with
    | Raise e => (Raise e, train_world w)
    | Ok _ =>
        one_by_one (fun est_idx => BaggingClassifier.fit_estimator cl tt (est_idx, O))
                   0 (estimators_ (self w)) (train_world w)
    end
  /\ BaggingRegressor.fit rl w =
    match _validate_parameters (self (train_world w)) with
    | Raise e => (Raise e, train_world w)
    | Ok _ =>
        one_by_one (fun est_idx => BaggingRegressor.fit_estimator rl tt (est_idx, O))
                   0 (estimators_ (self w)) (train_world w)
    end
  /\ (forall est_idx i,
        BaggingClassifier.fit_estimator cl tt (est_idx, i) w =
          (for_fold (steps cl (epochs (self w)))
                    {| param_ref := i; adam_lr := lr (self w);
                       adam_weight_decay := weight_decay (self w);
                       adam_state := adam_init |}
                    (fun o s => BaggingClassifier.fit_batch est_idx i (fst s) o (snd s)) ;;;
           ret tt) w
        /\ BaggingRegressor.fit_estimator rl tt (est_idx, i) w =
          (for_fold (steps rl (epochs (self w)))
                    {| param_ref := i; adam_lr := lr (self w);
                       adam_weight_decay := weight_decay (self w);
                       adam_state := adam_init |}
                    (fun o s => BaggingRegressor.fit_batch est_idx i (fst s) o (snd s)) ;;;
           ret tt) w)
  /\ (forall est_idx epoch batch_idx i o o' X p w' (y : list Z),
        nth_error (estimators_ (self w)) i = Some p ->
        param_ref o = i -> X <> [] -> length y = length X ->
        BaggingClassifier.fit_batch est_idx i epoch o (batch_idx, (X, y)) w = (Ok o', w') ->
        o' = optimizer_after o (fst (step_update o w X p (step_grad_cross_entropy w X y p)))
        /\ nth_error (estimators_ (self w')) i
           = Some (snd (step_update o w X p (step_grad_cross_entropy w X y p)))
        /\ (forall j, j <> i ->
              nth_error (estimators_ (self w')) j = nth_error (estimators_ (self w)) j))
  /\ (forall est_idx epoch batch_idx i o o' X p w' (y : Tensor F),
        nth_error (estimators_ (self w)) i = Some p ->
        param_ref o = i -> X <> [] -> length y = length X ->
        BaggingRegressor.fit_batch est_idx i epoch o (batch_idx, (X, y)) w = (Ok o', w') ->
        o' = optimizer_after o (fst (step_update o w X p (step_grad_mse w X y p)))
        /\ nth_error (estimators_ (self w')) i
           = Some (snd (step_update o w X p (step_grad_mse w X y p)))
        /\ (forall j, j <> i ->
              nth_error (estimators_ (self w')) j = nth_error (estimators_ (self w)) j))
  /\ (forall est_idx i r w',
        (i < length (estimators_ (self w)))%nat ->
        BaggingClassifier.fit_estimator cl tt (est_idx, i) w = (r, w') ->
        forall j, j <> i ->
          nth_error (estimators_ (self w')) j = nth_error (estimators_ (self w)) j)
  /\ (forall est_idx i r w',
        (i < length (estimators_ (self w)))%nat ->
        BaggingRegressor.fit_estimator rl tt (est_idx, i) w = (r, w') ->
        forall j, j <> i ->
          nth_error (estimators_ (self w')) j = nth_error (estimators_ (self w)) j).
Proof.
  split; [|split; [|split; [|split; [|split; [|split]]]]].
  - unfold BaggingClassifier.fit.
    unfold bind at 1. unfold set_training, bind at 1, get_self at 1, put_self.
    cbn [fst snd]. fold (train_world w).
    unfold bind at 1, get_self at 1. unfold bind at 1, lift at 1.
    destruct (_validate_parameters (self (train_world w))) as [u|e]; [|reflexivity].
    rewrite enumerate_seq.
    pose proof (@loop_one_by_one F _ _ (BaggingClassifier.fit_estimator cl)
               (fun est_idx => BaggingClassifier.fit_estimator cl tt (est_idx, O))
               (fun ps i est_idx Hi => clf_fit_estimator_sim Hi cl est_idx)
               (estimators_ (self (train_world w))) [] (train_world w) eq_refl) as Hloop.
    cbn [train_world self with_training estimators_ length app Z.of_nat] in Hloop |- *.
    rewrite Hloop.
    destruct (one_by_one _ _ _ _) as [r w2]. now rewrite with_own_estimators.
  - unfold BaggingRegressor.fit.
    unfold bind at 1. unfold set_training, bind at 1, get_self at 1, put_self.
    cbn [fst snd]. fold (train_world w).
    unfold bind at 1, get_self at 1. unfold bind at 1, lift at 1.
    destruct (_validate_parameters (self (train_world w))) as [u|e]; [|reflexivity].
    rewrite enumerate_seq.
    pose proof (@loop_one_by_one F _ _ (BaggingRegressor.fit_estimator rl)
               (fun est_idx => BaggingRegressor.fit_estimator rl tt (est_idx, O))
               (fun ps i est_idx Hi => reg_fit_estimator_sim Hi rl est_idx)
               (estimators_ (self (train_world w))) [] (train_world w) eq_refl) as Hloop.
    cbn [train_world self with_training estimators_ length app Z.of_nat] in Hloop |- *.
    rewrite Hloop.
    destruct (one_by_one _ _ _ _) as [r w2]. now rewrite with_own_estimators.
  - intros est_idx i. split.
    + apply clf_fit_estimator_steps.
    + apply reg_fit_estimator_steps.
  - intros est_idx epoch batch_idx i o o' X p w' y Hp Href HX Hy Hrun.
    eapply clf_step_trains; eassumption.
  - intros est_idx epoch batch_idx i o o' X p w' y Hp Href HX Hy Hrun.
    eapply reg_step_trains; eassumption.
  - intros est_idx i r w' Hi Hrun.
    eapply session_frame
      with (session := BaggingClassifier.fit_estimator cl tt)
           (small := fun est_idx => BaggingClassifier.fit_estimator cl tt (est_idx, O));
      [|exact Hi|exact Hrun].
    intros ps Hps. now apply clf_fit_estimator_sim.
  - intros est_idx i r w' Hi Hrun.
    eapply session_frame
      with (session := BaggingRegressor.fit_estimator rl tt)
           (small := fun est_idx => BaggingRegressor.fit_estimator rl tt (est_idx, O));
      [|exact Hi|exact Hrun].
    intros ps Hps. now apply reg_fit_estimator_sim.
Qed.
End FitIsolation.

(** C8, as it is stated, fails from the thousandth batch on: at the batch
    of index 1000 (with a log interval of 1) the line printed has the field
    [Batch: 1000], of four digits. *)
Lemma log_line_of_batch_1000 :
  exists opt' w',
    BaggingRegressor.fit_batch 0 0 0 opt0 (1000, (X2, [[2]; [4]]%R)) world2 = (Ok opt', w') /\
    stdout w' =
      [("Estimator: 000 | Epoch: 000 | Batch: 1000 | Loss: " ++
        fmt_5f (fadd f0 (mse (step_output world2 X2 [1%R])
                             (keep_indices (mask_of world2 (length X2)) [[2]; [4]]%R))))%string] /\
    is_field 3 1000 (fmt_0d 3 1000) = false.
Proof.
  destruct (@reg_fit_batch_run R R_Scalar engine base_module 0 0 1000 0%nat opt0
              X2 [[2]; [4]]%R world2 [1%R]
              (mse (step_output world2 X2 [1%R])
                   (keep_indices (mask_of world2 (length X2)) [[2]; [4]]%R)))
    as (opt' & w' & Hrun & _ & Hout);
    [reflexivity | reflexivity | discriminate | reflexivity | discriminate | reflexivity |].
  exists opt', w'. split; [exact Hrun|]. split; [|reflexivity].
  rewrite Hout. change (1000 mod log_interval (self world2) =? 0) with true.
  cbn [stdout world2 app]. f_equal.
Qed.

(** ** The definitions on concrete data *)

Example unique_sorts_and_dedups : unique [3; 1; 3; 0; 1] = [0; 1; 3].
Proof. reflexivity. Qed.

Example select_negative_index : select [10; 20; 30] [0; -1] = Ok [10; 30].
Proof. reflexivity. Qed.

Example select_out_of_range : select [10; 20; 30] [3] = Raise IndexError.
Proof. reflexivity. Qed.

Example fmt_03d_pads : fmt_0d 3 7 = "007"%string /\ fmt_0d 3 42 = "042"%string.
Proof. split; reflexivity. Qed.

Example fmt_03d_wide : fmt_0d 3 1000 = "1000"%string.
Proof. reflexivity. Qed.

Example mask_of_world2 :
  map (fun x => x mod 5) (fst (draws 5 (gen world2))) = [0; 0; 2; 3; 4]
  /\ mask_of world2 5 = [0; 2; 3; 4].
Proof. split; vm_compute; reflexivity. Qed.

Example keep_indices_in_order :
  keep_indices [0; 2; 3; 4] ["a"; "b"; "c"; "d"; "e"]%string = ["a"; "c"; "d"; "e"]%string.
Proof. reflexivity. Qed.

Example eq_sum_counts : eq_sum [0; 1; 1] [0; 1; 0] = Ok 2.
Proof. reflexivity. Qed.

Example log_line_shape :
  reg_log_line 0 0 0 (0%R) =
    ("Estimator: 000 | Epoch: 000 | Batch: 000 | Loss: " ++ fmt_5f 0%R)%string.
Proof. reflexivity. Qed.

Example clf_predict_empty_dataset :
  fst (BaggingClassifier.predict {| dataset_len := 0; batches := [] |} world2)
  = Raise ZeroDivisionError.
Proof. reflexivity. Qed.

Example reg_predict_no_batch :
  fst (BaggingRegressor.predict {| dataset_len := 0; batches := [] |} world2)
  = Raise ZeroDivisionError.
Proof. reflexivity. Qed.

(** * Further properties of the code *)

(** ** forward: shapes and failures *)

Section ForwardShapes.
Context {F : Type} `{BaseModule F}.

Lemma expand_row_length (D : nat) (r r' : list F) :
  expand_row D r = Ok r' -> length r' = D.
Proof.
  unfold expand_row. destruct (Nat.eqb_spec (length r) D) as [E|E].
  - intros [= <-]. exact E.
  - destruct r as [|x [|y r]]; try discriminate. intros [= <-]. apply repeat_length.
Qed.

Lemma rmap_all_Forall {A B} (f : A -> result B) (P : B -> Prop) (l : list A) (l' : list B) :
  (forall x y, f x = Ok y -> P y) -> rmap_all f l = Ok l' -> Forall P l'.
Proof.
  intros Hf. revert l'; induction l as [|x l IH]; intros l' Hl; simpl in Hl.
  - injection Hl as <-. constructor.
  - destruct (f x) as [y|e] eqn:Hx; simpl in Hl; [|discriminate].
    destruct (rmap_all f l) as [ys|e]; simpl in Hl; [|discriminate].
    injection Hl as <-. constructor; [now apply (Hf x)|now apply IH].
Qed.

Lemma expand_as_shape (B D : nat) (t t' : Tensor F) :
  expand_as B D t = Ok t' -> has_shape B D t'.
Proof.
  unfold expand_as. destruct (Nat.eqb_spec (length t) B) as [E|E].
  - intros Ht. split.
    + rewrite (rmap_all_length _ _ Ht). exact E.
    + apply (rmap_all_Forall (expand_row D) (fun r => length r = D) t);
        [apply expand_row_length|exact Ht].
  - destruct t as [|r [|s t]]; try discriminate.
    destruct (expand_row D r) as [r'|e] eqn:Hr; simpl; [|discriminate].
    intros [= <-]. split; [apply repeat_length|].
    apply Forall_forall. intros x Hx. apply repeat_spec in Hx. subst x.
    now apply expand_row_length with (r := r).
Qed.

Lemma rfold_iadd_shape {A} (B D : nat) (out : A -> Tensor F) (ps : list A) :
  forall y0 y, has_shape B D y0 ->
    rfold (fun y p => iadd B D y (out p)) ps y0 = Ok y -> has_shape B D y.
Proof.
  induction ps as [|p ps IH]; intros y0 y Hy0 Hrun; simpl in Hrun.
  - now injection Hrun as <-.
  - unfold iadd at 1 in Hrun.
    destruct (expand_as B D (out p)) as [b|e] eqn:Hb; simpl in Hrun; [|discriminate].
    apply (IH (add_tensors y0 b)); [|exact Hrun].
    apply has_shape_add; [exact Hy0|]. now apply expand_as_shape with (t := out p).
Qed.

Lemma accumulate_shape {A} (B : nat) (D n : Z) (out : A -> Tensor F) (ps : list A)
    (t : Tensor F) :
  rbind (zeros B D) (fun y0 =>
    rbind (rfold (fun y p => iadd B (Z.to_nat D) y (out p)) ps y0) (fun y =>
      Ok (idiv y (of_Z n)))) = Ok t ->
  has_shape B (Z.to_nat D) t.
Proof.
  unfold zeros. destruct (D <? 0); simpl; [discriminate|].
  destruct (rfold _ ps _) as [y|e] eqn:Hy; simpl; [|discriminate].
  intros [= <-]. apply has_shape_idiv.
  eapply rfold_iadd_shape; [apply has_shape_repeat|exact Hy].
Qed.

(** Whatever the shapes of the outputs of the base learners, a [forward]
    that returns returns a tensor of one row per example and [output_dim]
    entries per row. *)
Theorem forward_output_shape (w : World) (X : list Input) (out : Tensor F) :
  fst (BaggingClassifier.forward X w) = Ok out \/
  fst (BaggingRegressor.forward X w) = Ok out ->
  has_shape (length X) (Z.to_nat (output_dim (self w))) out.
Proof.
  destruct (clf_forward_result w X) as (wc & -> & _).
  destruct (reg_forward_result w X) as (wr & -> & _). cbn [fst].
  intros [Hrun|Hrun].
  - eapply accumulate_shape with (out := softmax). exact Hrun.
  - eapply accumulate_shape with (out := fun o : Tensor F => o). exact Hrun.
Qed.

Lemma expand_as_raises_runtime (B D : nat) (t : Tensor F) (e : exn) :
  expand_as B D t = Raise e -> e = RuntimeError.
Proof.
  assert (Hrow : forall (r : list F) e', expand_row D r = Raise e' -> e' = RuntimeError).
  { intros r e'. unfold expand_row. destruct (Nat.eqb (length r) D); [discriminate|].
    destruct r as [|x [|y r]]; try discriminate; now intros [= <-]. }
  unfold expand_as. destruct (Nat.eqb (length t) B).
  - induction t as [|r t IH]; simpl; [discriminate|].
    destruct (expand_row D r) as [r'|e'] eqn:Hr; simpl.
    + destruct (rmap_all (expand_row D) t) as [ts|e'']; simpl; [discriminate|].
      intros [= <-]. now apply IH.
    + intros [= <-]. now apply (Hrow r).
  - destruct t as [|r [|s t]]; try (now intros [= <-]).
    destruct (expand_row D r) as [r'|e'] eqn:Hr; simpl; [discriminate|].
    intros [= <-]. now apply (Hrow r).
Qed.

Lemma expand_as_rows_mismatch (B D : nat) (t : Tensor F) :
  length t <> B -> length t <> 1%nat -> expand_as B D t = Raise RuntimeError.
Proof.
  intros HB Hone. unfold expand_as.
  destruct (Nat.eqb_spec (length t) B) as [E|_]; [contradiction|].
  destruct t as [|r [|s t]]; try reflexivity. simpl in Hone. congruence.
Qed.

Lemma rfold_iadd_raises {A} (B D : nat) (out : A -> Tensor F) (ps : list A) (p : A) :
  In p ps -> length (out p) <> B -> length (out p) <> 1%nat ->
  forall y0, rfold (fun y q => iadd B D y (out q)) ps y0 = Raise RuntimeError.
Proof.
  intros Hin HB Hone. induction ps as [|q ps IH]; intros y0; [contradiction|].
  simpl. unfold iadd at 1.
  destruct (expand_as B D (out q)) as [b|e] eqn:Hb; simpl.
  - destruct Hin as [->|Hin]; [|now apply IH].
    rewrite expand_as_rows_mismatch in Hb by assumption. discriminate.
  - apply expand_as_raises_runtime in Hb. now subst e.
Qed.

(** A call of a base learner whose output has neither one row per example
    nor a single row makes [forward] raise a RuntimeError; in evaluation
    mode the state is as before.  In evaluation mode the outputs of the
    calls are the values of [net] on the learners. *)
Theorem forward_rows_mismatch_raises (w : World) (X : list Input) (o : Tensor F) :
  In o (learner_outputs w X) ->
  length o <> length X -> length o <> 1%nat ->
  fst (BaggingClassifier.forward X w) = Raise RuntimeError
  /\ fst (BaggingRegressor.forward X w) = Raise RuntimeError
  /\ (training (self w) = false ->
        BaggingClassifier.forward X w = (Raise RuntimeError, w)
        /\ BaggingRegressor.forward X w = (Raise RuntimeError, w)
        /\ learner_outputs w X = map (fun p => net p X) (estimators_ (self w))).
Proof.
  intros Hin HB Hone.
  destruct (clf_forward_result w X) as (wc & Hc & Ec & _).
  destruct (reg_forward_result w X) as (wr & Hr & Er & _).
  assert (Hcr : fst (BaggingClassifier.forward X w) = Raise RuntimeError).
  { rewrite Hc. cbn [fst]. unfold zeros.
    destruct (output_dim (self w) <? 0); [reflexivity|]. cbn [rbind].
    rewrite (@rfold_iadd_raises _ _ _ softmax _ o Hin); [reflexivity| |];
      unfold softmax; now rewrite length_map. }
  assert (Hrr : fst (BaggingRegressor.forward X w) = Raise RuntimeError).
  { rewrite Hr. cbn [fst]. unfold zeros.
    destruct (output_dim (self w) <? 0); [reflexivity|]. cbn [rbind].
    now rewrite (@rfold_iadd_raises _ _ _ (fun t => t) _ o Hin HB Hone). }
  split; [exact Hcr|]. split; [exact Hrr|].
  intros Ht. rewrite Hc in Hcr |- *. rewrite Hr in Hrr |- *. cbn [fst] in Hcr, Hrr.
  rewrite Hcr, Hrr, (Ec Ht), (Er Ht). split; [reflexivity|]. split; [reflexivity|].
  now apply learner_outputs_eval.
Qed.
End ForwardShapes.

Lemma forward_output_shape_witness :
  has_shape (length X2) (Z.to_nat (output_dim (self world2)))
            (mean_outputs (map softmax (learner_outputs world2 X2)) (length X2)
                          (Z.to_nat (output_dim (self world2)))).
Proof.
  apply (forward_output_shape world2 X2). left.
  rewrite (clf_forward_run (w := world2) (X := X2)); [reflexivity|reflexivity|simpl; lia|].
  repeat constructor.
Defined.

Lemma forward_rows_mismatch_raises_witness :
  fst (@BaggingClassifier.forward R R_Scalar engine_two_rows [1; 2; 3]%R world_two_rows)
    = Raise RuntimeError
  /\ fst (@BaggingRegressor.forward R R_Scalar engine_two_rows [1; 2; 3]%R world_two_rows)
    = Raise RuntimeError
  /\ (training (self world_two_rows) = false ->
        @BaggingClassifier.forward R R_Scalar engine_two_rows [1; 2; 3]%R world_two_rows
          = (Raise RuntimeError, world_two_rows)
        /\ @BaggingRegressor.forward R R_Scalar engine_two_rows [1; 2; 3]%R world_two_rows
          = (Raise RuntimeError, world_two_rows)
        /\ @learner_outputs R R_Scalar engine_two_rows world_two_rows [1; 2; 3]%R
          = map (fun p => @net R R_Scalar engine_two_rows p [1; 2; 3]%R)
                (estimators_ (self world_two_rows))).
Proof.
  apply (@forward_rows_mismatch_raises R R_Scalar engine_two_rows world_two_rows
           [1; 2; 3]%R [[1%R]; [1%R]]).
  - left. reflexivity.
  - discriminate.
  - discriminate.
Defined.

(** ** forward of a single base learner *)

Section SingleLearner.
Context {E : @Engine R R_Scalar}.
Local Open Scope R_scope.

Lemma mean_of_one (o : Tensor R) (B D : nat) :
  has_shape B D o -> mean_outputs [o] B D = o.
Proof.
  intros Ho. apply (@tensor_ext R _ B D); [apply has_shape_tabulate|exact Ho|].
  intros i j Hi Hj. unfold mean_outputs, tabulate.
  rewrite entry_tabulate by assumption. simpl. unfold fsum. simpl. field.
Qed.

(** With one base learner ([n_estimators = 1]) the classifier's [forward]
    returns the softmax of the output of the call of that learner and the
    regressor's its output, in real arithmetic; in evaluation mode this
    output is the value of [net] and the state is left as it was. *)
Theorem forward_single_learner (w : World) (X : list Input) (p : Params) :
  estimators_ (self w) = [p] -> n_estimators (self w) = 1%Z ->
  has_shape (length X) (Z.to_nat (output_dim (self w)))
            (fst (fst (call (training (self w)) p X (gen w)))) ->
  (0 <= output_dim (self w))%Z ->
  BaggingClassifier.forward X w
    = (Ok (softmax (fst (fst (call (training (self w)) p X (gen w))))), after_calls w X)
  /\ BaggingRegressor.forward X w
    = (Ok (fst (fst (call (training (self w)) p X (gen w)))), after_calls w X)
  /\ (training (self w) = false ->
        fst (fst (call (training (self w)) p X (gen w))) = net p X
        /\ after_calls w X = w).
Proof.
  intros He Hn Hsh HD.
  assert (Hout : learner_outputs w X = [fst (fst (call (training (self w)) p X (gen w)))]).
  { unfold learner_outputs. rewrite He, calls_cons. reflexivity. }
  assert (Hall : outputs_shaped w X).
  { unfold outputs_shaped. rewrite Hout. constructor; [exact Hsh|constructor]. }
  assert (Hlen : Z.of_nat (length (estimators_ (self w))) = n_estimators (self w)).
  { now rewrite He, Hn. }
  rewrite (clf_forward_run Hlen HD Hall), (reg_forward_run Hlen HD Hall), Hout.
  cbn [map]. rewrite !mean_of_one; [|exact Hsh|now apply has_shape_softmax].
  split; [reflexivity|]. split; [reflexivity|].
  intros Ht. split; [now rewrite Ht|now apply after_calls_eval].
Qed.
End SingleLearner.

Lemma forward_single_learner_witness :
  BaggingClassifier.forward X2 world1
    = (Ok (softmax (fst (fst (call (training (self world1)) [1%R] X2 (gen world1))))),
       after_calls world1 X2)
  /\ BaggingRegressor.forward X2 world1
    = (Ok (fst (fst (call (training (self world1)) [1%R] X2 (gen world1)))),
       after_calls world1 X2)
  /\ (training (self world1) = false ->
        fst (fst (call (training (self world1)) [1%R] X2 (gen world1))) = net [1%R] X2
        /\ after_calls world1 X2 = world1).
Proof.
  apply (forward_single_learner world1 X2 (p := [1%R])).
  - reflexivity.
  - reflexivity.
  - split; simpl; auto.
  - simpl. lia.
Defined.

(** ** predict: what it changes, empty loaders, the range of the accuracy *)

Section PredictEdges.
Context {F : Type} `{BaseModule F}.

(** Whatever it returns or raises, [predict] changes nothing of the world
    but the mode, which it sets to evaluation: it prints nothing, draws
    nothing from the generator and leaves the configuration and the base
    learners as they are; a second call leaves the world as the first left
    it. *)
Theorem predict_only_switches_mode
    (cl cl' : DataLoader (list Z)) (rl rl' : DataLoader (Tensor F)) (w : World) :
  snd (BaggingClassifier.predict cl w) = eval_world w /\
  snd (BaggingRegressor.predict rl w) = eval_world w /\
  snd (BaggingClassifier.predict cl' (snd (BaggingClassifier.predict cl w)))
    = snd (BaggingClassifier.predict cl w) /\
  snd (BaggingRegressor.predict rl' (snd (BaggingRegressor.predict rl w)))
    = snd (BaggingRegressor.predict rl w).
Proof.
  rewrite !clf_predict_frame, !reg_predict_frame. repeat split.
Qed.

(** On a loader that yields no batch the regressor's [predict] raises
    ZeroDivisionError; the classifier's raises it when the data set of the
    loader is empty and otherwise returns 100 * 0. / len(dataset). *)
Theorem predict_without_batches
    (cl : DataLoader (list Z)) (rl : DataLoader (Tensor F)) (w : World) :
  batches cl = [] -> batches rl = [] ->
  BaggingRegressor.predict rl w = (Raise ZeroDivisionError, eval_world w) /\
  BaggingClassifier.predict cl w =
    (if Nat.eqb (dataset_len cl) 0 then Raise ZeroDivisionError
     else Ok (fdiv (fmul (of_Z 100) f0) (of_Z (Z.of_nat (dataset_len cl)))),
     eval_world w).
Proof.
  intros Hc Hr. unfold BaggingRegressor.predict, BaggingClassifier.predict, loader_len.
  rewrite Hc, Hr. split.
  - reflexivity.
  - cbn. destruct (Nat.eqb (dataset_len cl) 0); reflexivity.
Qed.

Lemma clf_forward_ok_shape (w w' : World) (X : list Input) (out : Tensor F) :
  BaggingClassifier.forward X w = (Ok out, w') ->
  has_shape (length X) (Z.to_nat (output_dim (self w))) out.
Proof.
  destruct (clf_forward_result w X) as (wc & -> & _).
  intros [= Hrun _]. eapply accumulate_shape with (out := softmax). exact Hrun.
Qed.

Lemma count_eq_bounds (p q : list Z) : 0 <= count_eq p q <= Z.of_nat (length p).
Proof.
  revert q; induction p as [|x p IH]; intros [|y q]; simpl length; simpl count_eq; try lia.
  specialize (IH q). destruct (x =? y); lia.
Qed.

(** The count of a batch with one target per example is between 0 and the
    size of the batch. *)
Lemma batch_count_bounds (w w' : World) (X : list Input) (y y_pred : list Z)
    (out : Tensor F) (c : Z) :
  BaggingClassifier.forward X w = (Ok out, w') ->
  max1_indices out = Ok y_pred -> eq_sum y_pred y = Ok c ->
  length y = length X ->
  0 <= c <= Z.of_nat (length X).
Proof.
  intros Hf Hm He Hy.
  apply clf_forward_ok_shape in Hf. destruct Hf as [Hrows _].
  assert (Hp : length y_pred = length X).
  { unfold max1_indices in Hm. apply rmap_all_length in Hm. congruence. }
  rewrite eq_sum_same_length in He by congruence. injection He as <-.
  rewrite <- Hp. apply count_eq_bounds.
Qed.
End PredictEdges.

Lemma predict_without_batches_witness :
  BaggingRegressor.predict loader_none_reg world2 = (Raise ZeroDivisionError, eval_world world2) /\
  BaggingClassifier.predict loader_none_clf world2 =
    (if Nat.eqb (dataset_len loader_none_clf) 0 then Raise ZeroDivisionError
     else Ok (fdiv (fmul (of_Z 100) f0) (of_Z (Z.of_nat (dataset_len loader_none_clf)))),
     eval_world world2).
Proof.
  apply (predict_without_batches loader_none_clf loader_none_reg world2); reflexivity.
Defined.

Section AccuracyRange.
Context {E : @Engine R R_Scalar} {BM : @BaseModule R R_Scalar E}.
Local Open Scope R_scope.

Lemma counts_bounded (w : World) (bs : list (list Input * list Z)) (cs : list Z) :
  Forall2 (fun b c => exists out y_pred,
             BaggingClassifier.forward (fst b) w = (Ok out, w)
             /\ max1_indices out = Ok y_pred
             /\ eq_sum y_pred (snd b) = Ok c) bs cs ->
  Forall (fun b => length (snd b) = length (fst b)) bs ->
  (0 <= Zsum cs <= Z.of_nat (total_examples bs))%Z.
Proof.
  induction 1 as [|b c bs cs (out & y_pred & Hf & Hm & He) _ IH]; intros Hp.
  - simpl. lia.
  - inversion Hp as [|? ? Hb Hbs]; subst. specialize (IH Hbs).
    assert (Hc : (0 <= c <= Z.of_nat (length (fst b)))%Z)
      by (eapply batch_count_bounds; eassumption).
    unfold total_examples in *. simpl. lia.
Qed.

(** When every batch has one target per example and the stream yields no
    more examples than the data set of the loader has, the accuracy that
    the classifier's [predict] returns is between 0 and 100. *)
Theorem clf_predict_accuracy_range
    (l : DataLoader (list Z)) (w : World) (cs : list Z) :
  Forall2 (fun b c => exists out y_pred,
             BaggingClassifier.forward (fst b) (eval_world w) = (Ok out, eval_world w)
             /\ max1_indices out = Ok y_pred
             /\ eq_sum y_pred (snd b) = Ok c)
          (batches l) cs ->
  Forall (fun b => length (snd b) = length (fst b)) (batches l) ->
  dataset_len l <> O ->
  (total_examples (batches l) <= dataset_len l)%nat ->
  exists acc,
    BaggingClassifier.predict l w = (Ok acc, eval_world w) /\ 0 <= acc <= 100.
Proof.
  intros Hb Hp Hne Hle.
  rewrite (clf_predict_run l Hb Hne). eexists. split; [reflexivity|].
  simpl. rewrite fold_left_count, <- INR_IZR_INZ.
  assert (Hcs : (0 <= Zsum cs <= Z.of_nat (total_examples (batches l)))%Z)
    by (eapply counts_bounded; eassumption).
  destruct Hcs as [Hc0 Hc1].
  assert (Hs0 : 0 <= IZR (Zsum cs)) by (now apply IZR_le).
  assert (Hs1 : IZR (Zsum cs) <= INR (dataset_len l)).
  { rewrite INR_IZR_INZ. apply IZR_le. lia. }
  assert (Hn : 0 < INR (dataset_len l)) by (apply lt_0_INR; lia).
  split.
  - apply Rmult_le_pos; [lra|]. left. now apply Rinv_0_lt_compat.
  - apply Rmult_le_reg_r with (r := INR (dataset_len l)); [exact Hn|].
    unfold Rdiv. rewrite Rmult_assoc, Rinv_l by lra. lra.
Qed.
End AccuracyRange.

Lemma clf_predict_accuracy_range_witness :
  exists acc,
    BaggingClassifier.predict loader_drop_last world2 = (Ok acc, eval_world world2)
    /\ (0 <= acc <= 100)%R.
Proof.
  apply (clf_predict_accuracy_range loader_drop_last clf_batches_example).
  - repeat constructor.
  - discriminate.
  - unfold total_examples. simpl. lia.
Defined.

(** ** The bootstrap subset keeps each example with its target *)

Section Pairs.
Context {F : Type} `{Engine F}.

Lemma nth_error_combine {A B} (l : list A) (l' : list B) (n : nat) (a : A) (b : B) :
  nth_error l n = Some a -> nth_error l' n = Some b ->
  nth_error (combine l l') n = Some (a, b).
Proof.
  revert l' n; induction l as [|x l IH]; intros [|y l'] [|n]; simpl; try discriminate.
  - now intros [= ->] [= ->].
  - apply IH.
Qed.

Lemma index_one_combine {A B} (l : list A) (l' : list B) (i : Z) (a : A) (b : B) :
  length l' = length l ->
  index_one l i = Ok a -> index_one l' i = Ok b ->
  index_one (combine l l') i = Ok (a, b).
Proof.
  intros Hl. unfold index_one. rewrite length_combine, Hl, Nat.min_id.
  destruct ((0 <=? (if i <? 0 then i + Z.of_nat (length l) else i))
            && ((if i <? 0 then i + Z.of_nat (length l) else i) <? Z.of_nat (length l)));
    [|discriminate].
  destruct (nth_error l _) as [a'|] eqn:Ha; [|discriminate].
  destruct (nth_error l' _) as [b'|] eqn:Hb; [|discriminate].
  intros [= ->] [= ->]. now rewrite (nth_error_combine _ _ _ Ha Hb).
Qed.

Lemma select_combine {A B} (l : list A) (l' : list B) (mask : list Z) :
  length l' = length l ->
  forall s s', select l mask = Ok s -> select l' mask = Ok s' ->
    select (combine l l') mask = Ok (combine s s').
Proof.
  intros Hl. unfold select. induction mask as [|i mask IH]; intros s s' Hs Hs'; simpl in *.
  - injection Hs as <-. reflexivity.
  - destruct (index_one l i) as [a|e] eqn:Ha; simpl in Hs; [|discriminate].
    destruct (rmap_all (index_one l) mask) as [r|e]; simpl in Hs; [|discriminate].
    destruct (index_one l' i) as [b|e] eqn:Hb; simpl in Hs'; [|discriminate].
    destruct (rmap_all (index_one l') mask) as [r'|e]; simpl in Hs'; [|discriminate].
    injection Hs as <-. injection Hs' as <-.
    rewrite (index_one_combine _ _ _ Hl Ha Hb). simpl.
    now rewrite (IH r r' eq_refl eq_refl).
Qed.

(** In a step of [fit] the inputs and the targets are selected by the same
    mask: the pairs of the bootstrap subset are the pairs (example, target)
    of the batch whose index is in the mask, in the order of the batch. *)
Theorem bootstrap_keeps_pairs {T} (X : list Input) (y : list T) (w : World) :
  X <> [] -> length y = length X ->
  exists mask w' sampling_X sampling_y,
    bootstrap_mask (length X) w = (Ok mask, w') /\
    select X mask = Ok sampling_X /\
    select y mask = Ok sampling_y /\
    combine sampling_X sampling_y = keep_indices mask (combine X y).
Proof.
  intros HX Hy.
  destruct (step_selection w y HX Hy) as (Hmask & HsX & Hsy).
  do 4 eexists. split; [exact Hmask|]. split; [exact HsX|]. split; [exact Hsy|].
  assert (HB : (1 <= length X)%nat) by (destruct X; [congruence|simpl; lia]).
  destruct (mask_of_facts w HB) as [Hs Hr].
  assert (Hc : select (combine X y) (mask_of w (length X)) =
               Ok (combine (keep_indices (mask_of w (length X)) X)
                           (keep_indices (mask_of w (length X)) y)))
    by (apply select_combine; assumption).
  rewrite select_sorted in Hc.
  - now injection Hc as <-.
  - exact Hs.
  - intros i Hi. rewrite length_combine, Hy, Nat.min_id. now apply Hr.
Qed.
End Pairs.

Lemma bootstrap_keeps_pairs_witness :
  exists mask w' sampling_X sampling_y,
    bootstrap_mask (length X2) world2 = (Ok mask, w') /\
    select X2 mask = Ok sampling_X /\
    select [0; 1] mask = Ok sampling_y /\
    combine sampling_X sampling_y = keep_indices mask (combine X2 [0; 1]).
Proof.
  apply (@bootstrap_keeps_pairs R R_Scalar engine Z X2 [0; 1] world2).
  - discriminate.
  - reflexivity.
Defined.

(** ** fit: what it keeps *)

Section FitKeeps.
Context {F : Type} `{BaseModule F}.

Lemma grows_refl (w : World) : grows w w.
Proof. repeat split. exists []. now rewrite app_nil_r. Qed.

Lemma grows_trans (w1 w2 w3 : World) : grows w1 w2 -> grows w2 w3 -> grows w1 w3.
Proof.
  intros (Hc & Hl & l1 & Ho) (Hc' & Hl' & l2 & Ho'). repeat split; try congruence.
  exists (l1 ++ l2). now rewrite Ho', Ho, app_assoc.
Qed.

Lemma keeps_ret {A} (a : A) : keeps (ret a).
Proof. intros w. apply grows_refl. Qed.

Lemma keeps_lift {A} (r : result A) : keeps (lift r).
Proof. intros w. apply grows_refl. Qed.

Lemma keeps_bind {A B} (c : M A) (k : A -> M B) :
  keeps c -> (forall a, keeps (k a)) -> keeps (bind c k).
Proof.
  intros Hc Hk w. unfold bind. specialize (Hc w).
  destruct (c w) as [[a|e] w1]; simpl in Hc; [|exact Hc].
  apply (grows_trans Hc), Hk.
Qed.

Lemma keeps_for_fold {A S} (body : S -> A -> M S) (l : list A) :
  (forall acc x, keeps (body acc x)) -> forall acc, keeps (for_fold l acc body).
Proof.
  intros Hb. induction l as [|x l IH]; intros acc; simpl.
  - apply keeps_ret.
  - apply keeps_bind; [apply Hb|exact IH].
Qed.

Lemma keeps_get_self : keeps get_self.
Proof. intros w. apply grows_refl. Qed.

Lemma keeps_bootstrap_mask (B : nat) : keeps (bootstrap_mask B).
Proof.
  intros w. unfold bootstrap_mask, bind, randint, ret.
  destruct (Z.of_nat B <=? 0); [apply grows_refl|].
  destruct (draws B (gen w)) as [xs g']. simpl. repeat split.
  exists []. now rewrite app_nil_r.
Qed.

Lemma keeps_read_estimator (ref : nat) : keeps (read_estimator ref).
Proof.
  unfold read_estimator. apply keeps_bind; [apply keeps_get_self|].
  intros e w. destruct (nth_error (estimators_ e) ref); apply grows_refl.
Qed.

Lemma keeps_write_estimator (ref : nat) (p : Params) : keeps (write_estimator ref p).
Proof.
  intros w. simpl. repeat split.
  - apply length_list_update.
  - exists []. now rewrite app_nil_r.
Qed.

Lemma keeps_get_gen : keeps get_gen.
Proof. intros w. apply grows_refl. Qed.

Lemma keeps_put_gen (g : Gen) : keeps (put_gen g).
Proof. intros w. simpl. repeat split. exists []. now rewrite app_nil_r. Qed.

Lemma keeps_call_estimator (ref : nat) (X : list Input) : keeps (call_estimator ref X).
Proof.
  unfold call_estimator. apply keeps_bind; [apply keeps_get_self|]. intros e.
  apply keeps_bind; [apply keeps_read_estimator|]. intros p.
  destruct (training e); [|apply keeps_ret].
  apply keeps_bind; [apply keeps_get_gen|]. intros g.
  destruct (net_train p X g) as [[output p'] g'].
  apply keeps_bind; [apply keeps_write_estimator|]. intros _.
  apply keeps_bind; [apply keeps_put_gen|]. intros _. apply keeps_ret.
Qed.

Lemma keeps_Adam_step (o : Adam) (g : Params) : keeps (Adam_step o g).
Proof.
  unfold Adam_step. apply keeps_bind; [apply keeps_read_estimator|]. intros p.
  destruct (adam_update _ _ _ p g) as [st' p'].
  apply keeps_bind; [apply keeps_write_estimator|]. intros _. apply keeps_ret.
Qed.

Lemma keeps_py_mod (a b : Z) : keeps (py_mod a b).
Proof. intros w. unfold py_mod. destruct (b =? 0); apply grows_refl. Qed.

Lemma keeps_print (line : string) : keeps (print line).
Proof. intros w. simpl. repeat split. now exists [line]. Qed.

Lemma keeps_clf_fit_batch (est_idx epoch : Z) (estimator : nat) (o : Adam)
    (b : Z * (list Input * list Z)) :
  keeps (BaggingClassifier.fit_batch est_idx estimator epoch o b).
Proof.
  destruct b as [batch_idx [X y]]. unfold BaggingClassifier.fit_batch.
  apply keeps_bind; [apply keeps_bootstrap_mask|]. intros mask.
  apply keeps_bind; [apply keeps_lift|]. intros sX.
  apply keeps_bind; [apply keeps_lift|]. intros sy.
  apply keeps_bind; [apply keeps_get_self|]. intros e0.
  apply keeps_bind; [apply keeps_get_gen|]. intros g.
  apply keeps_bind; [apply keeps_read_estimator|]. intros p.
  apply keeps_bind; [apply keeps_call_estimator|]. intros out.
  apply keeps_bind; [apply keeps_lift|]. intros l.
  apply keeps_bind; [apply keeps_Adam_step|]. intros o1.
  apply keeps_bind; [apply keeps_get_self|]. intros e.
  apply keeps_bind; [apply keeps_py_mod|]. intros r.
  destruct (r =? 0); [|apply keeps_ret].
  apply keeps_bind; [apply keeps_lift|]. intros yp.
  apply keeps_bind; [apply keeps_lift|]. intros c.
  apply keeps_bind; [apply keeps_print|]. intros _. apply keeps_ret.
Qed.

Lemma keeps_reg_fit_batch (est_idx epoch : Z) (estimator : nat) (o : Adam)
    (b : Z * (list Input * Tensor F)) :
  keeps (BaggingRegressor.fit_batch est_idx estimator epoch o b).
Proof.
  destruct b as [batch_idx [X y]]. unfold BaggingRegressor.fit_batch.
  apply keeps_bind; [apply keeps_bootstrap_mask|]. intros mask.
  apply keeps_bind; [apply keeps_lift|]. intros sX.
  apply keeps_bind; [apply keeps_lift|]. intros sy.
  apply keeps_bind; [apply keeps_get_self|]. intros e0.
  apply keeps_bind; [apply keeps_get_gen|]. intros g.
  apply keeps_bind; [apply keeps_read_estimator|]. intros p.
  apply keeps_bind; [apply keeps_call_estimator|]. intros out.
  apply keeps_bind; [apply keeps_lift|]. intros l.
  apply keeps_bind; [apply keeps_Adam_step|]. intros o1.
  apply keeps_bind; [apply keeps_get_self|]. intros e.
  apply keeps_bind; [apply keeps_py_mod|]. intros r.
  destruct (r =? 0); [|apply keeps_ret].
  apply keeps_bind; [apply keeps_print|]. intros _. apply keeps_ret.
Qed.

Lemma keeps_clf_fit_estimator (l : DataLoader (list Z)) (u : unit) (ie : Z * nat) :
  keeps (BaggingClassifier.fit_estimator l u ie).
Proof.
  destruct ie as [est_idx estimator]. unfold BaggingClassifier.fit_estimator.
  apply keeps_bind; [apply keeps_get_self|]. intros e.
  apply keeps_bind; [|intros; apply keeps_ret].
  apply keeps_for_fold. intros o epoch. unfold BaggingClassifier.fit_epoch.
  apply keeps_for_fold. intros o1 b. apply keeps_clf_fit_batch.
Qed.

Lemma keeps_reg_fit_estimator (l : DataLoader (Tensor F)) (u : unit) (ie : Z * nat) :
  keeps (BaggingRegressor.fit_estimator l u ie).
Proof.
  destruct ie as [est_idx estimator]. unfold BaggingRegressor.fit_estimator.
  apply keeps_bind; [apply keeps_get_self|]. intros e.
  apply keeps_bind; [|intros; apply keeps_ret].
  apply keeps_for_fold. intros o epoch. unfold BaggingRegressor.fit_epoch.
  apply keeps_for_fold. intros o1 b. apply keeps_reg_fit_batch.
Qed.

Lemma grows_after_fit (w w1 : World) : grows (train_world w) w1 -> after_fit w w1.
Proof.
  intros (Hc & Hl & Ho). unfold after_fit.
  repeat split;
    [ apply (f_equal n_estimators) in Hc | apply (f_equal output_dim) in Hc
    | apply (f_equal lr) in Hc | apply (f_equal weight_decay) in Hc
    | apply (f_equal epochs) in Hc | apply (f_equal log_interval) in Hc
    | apply (f_equal training) in Hc | | ]; try exact Hc; assumption.
Qed.

(** The part of [fit] that follows [self.train()]. *)
Lemma clf_fit_after_train (l : DataLoader (list Z)) (w : World) :
  BaggingClassifier.fit l w =
    bind get_self (fun e =>
      bind (lift (_validate_parameters e)) (fun _ =>
        for_fold (enumerate (seq 0 (length (estimators_ e)))) tt
                 (BaggingClassifier.fit_estimator l))) (train_world w).
Proof. reflexivity. Qed.

Lemma reg_fit_after_train (l : DataLoader (Tensor F)) (w : World) :
  BaggingRegressor.fit l w =
    bind get_self (fun e =>
      bind (lift (_validate_parameters e)) (fun _ =>
        for_fold (enumerate (seq 0 (length (estimators_ e)))) tt
                 (BaggingRegressor.fit_estimator l))) (train_world w).
Proof. reflexivity. Qed.

(** Whatever [fit] returns or raises, and wherever it stops, it leaves the
    hyper-parameters and the number of base learners as they were, the
    ensemble in training mode, and what had been printed at the head of the
    output. *)
Theorem fit_keeps_configuration
    (cl : DataLoader (list Z)) (rl : DataLoader (Tensor F)) (w : World) :
  after_fit w (snd (BaggingClassifier.fit cl w)) /\
  after_fit w (snd (BaggingRegressor.fit rl w)).
Proof.
  split; apply grows_after_fit.
  - rewrite clf_fit_after_train.
    apply keeps_bind; [apply keeps_get_self|]. intros e.
    apply keeps_bind; [apply keeps_lift|]. intros _.
    apply keeps_for_fold. intros u ie. apply keeps_clf_fit_estimator.
  - rewrite reg_fit_after_train.
    apply keeps_bind; [apply keeps_get_self|]. intros e.
    apply keeps_bind; [apply keeps_lift|]. intros _.
    apply keeps_for_fold. intros u ie. apply keeps_reg_fit_estimator.
Qed.

(** When [_validate_parameters] rejects the configuration, [fit] raises
    its exception after the mode has been set to training; nothing is
    trained, drawn or printed. *)
Theorem fit_rejected_parameters
    (cl : DataLoader (list Z)) (rl : DataLoader (Tensor F)) (w : World) (e : exn) :
  _validate_parameters (self (train_world w)) = Raise e ->
  BaggingClassifier.fit cl w = (Raise e, train_world w) /\
  BaggingRegressor.fit rl w = (Raise e, train_world w).
Proof.
  intros Hv. rewrite clf_fit_after_train, reg_fit_after_train.
  unfold bind, get_self, lift. rewrite Hv. split; reflexivity.
Qed.
End FitKeeps.

Lemma fit_rejected_parameters_witness :
  BaggingClassifier.fit loader_clf world_bad = (Raise ValueError, train_world world_bad) /\
  BaggingRegressor.fit loader_reg world_bad = (Raise ValueError, train_world world_bad).
Proof.
  apply (fit_rejected_parameters loader_clf loader_reg world_bad). reflexivity.
Defined.

(** ** fit: nothing to train, an empty batch, a log interval of 0 *)

Section FitEdges.
Context {F : Type} `{BaseModule F}.













End FitEdges.



Section LogIntervalZero.
Context {F : Type} `{BaseModule F}.

(** With a log interval of 0 a step of [fit] on which the loss is defined
    raises ZeroDivisionError at the test [batch_idx % log_interval], which
    comes after the optimizer step: the state of the learner being trained
    has been replaced by its update, the generator is the one the draw of
    the mask and the call left, and nothing is printed. *)
Theorem step_updates_before_logging (est_idx epoch batch_idx : Z) (estimator : nat)
    (opt : Adam) (X : list Input) (w : World) (p : Params) :
  nth_error (estimators_ (self w)) estimator = Some p ->
  param_ref opt = estimator ->
  X <> [] -> log_interval (self w) = 0 ->
  (forall (y : list Z) (loss : F), length y = length X ->
     cross_entropy (step_output w X p) (keep_indices (mask_of w (length X)) y) = Ok loss ->
     BaggingClassifier.fit_batch est_idx estimator epoch opt (batch_idx, (X, y)) w =
       (Raise ZeroDivisionError,
        stepped w X estimator p
          (snd (step_update opt w X p (step_grad_cross_entropy w X y p)))))
  /\ (forall (y : Tensor F) (loss : F), length y = length X ->
        mse_loss (step_output w X p) (keep_indices (mask_of w (length X)) y) = Ok loss ->
        BaggingRegressor.fit_batch est_idx estimator epoch opt (batch_idx, (X, y)) w =
          (Raise ZeroDivisionError,
           stepped w X estimator p
             (snd (step_update opt w X p (step_grad_mse w X y p)))))
  /\ (forall p', stdout (stepped w X estimator p p') = stdout w
                 /\ nth_error (estimators_ (self (stepped w X estimator p p'))) estimator
                    = Some p').
Proof.
  intros Hp Href HX Hli. split; [|split].
  - intros y loss Hy Hl.
    erewrite clf_fit_batch_spec; [|exact Hp|exact Href|exact HX|exact Hy].
    rewrite Hl, Hli. reflexivity.
  - intros y loss Hy Hl.
    erewrite reg_fit_batch_spec; [|exact Hp|exact Href|exact HX|exact Hy].
    rewrite Hl, Hli. reflexivity.
  - intros p'. split; [reflexivity|].
    cbn [stepped self estimators_ with_estimators].
    apply nth_error_list_update_eq. apply nth_error_Some. congruence.
Qed.
End LogIntervalZero.

Lemma step_updates_before_logging_witness :
  (forall (y : list Z) (loss : R), length y = length X2 ->
     cross_entropy (step_output world_bad X2 [1%R])
                   (keep_indices (mask_of world_bad (length X2)) y) = Ok loss ->
     BaggingClassifier.fit_batch 0 0 0 opt0 (0, (X2, y)) world_bad =
       (Raise ZeroDivisionError,
        stepped world_bad X2 0 [1%R]
          (snd (step_update opt0 world_bad X2 [1%R]
                  (step_grad_cross_entropy world_bad X2 y [1%R])))))
  /\ (forall (y : Tensor R) (loss : R), length y = length X2 ->
        mse_loss (step_output world_bad X2 [1%R])
                 (keep_indices (mask_of world_bad (length X2)) y) = Ok loss ->
        BaggingRegressor.fit_batch 0 0 0 opt0 (0, (X2, y)) world_bad =
          (Raise ZeroDivisionError,
           stepped world_bad X2 0 [1%R]
             (snd (step_update opt0 world_bad X2 [1%R]
                     (step_grad_mse world_bad X2 y [1%R])))))
  /\ (forall p', stdout (stepped world_bad X2 0 [1%R] p') = stdout world_bad
                 /\ nth_error (estimators_ (self (stepped world_bad X2 0 [1%R] p'))) 0
                    = Some p').
Proof.
  apply (@step_updates_before_logging R R_Scalar engine 0 0 0 0%nat opt0 X2 world_bad [1%R]).
  - reflexivity.
  - reflexivity.
  - discriminate.
  - reflexivity.
Defined.

(** ** fit of the regressor: it returns, and how many lines it prints *)

Section FitLines.
Context {F : Type} `{BaseModule F}.











Section Regressor.
Variable D : nat.
Hypothesis Hshape :
  forall (p : Params) (X : list Input) (g : Gen),
    has_shape (length X) D (fst (fst (net_train p X g))).
Hypothesis Hloss :
  forall (out y : Tensor F) (n : nat),
    has_shape n D out -> has_shape n D y -> exists l, mse_loss out y = Ok l.



End Regressor.
End FitLines.




(** ** fit of the classifier: it returns, and how many lines it prints *)

Section ClfFitLines.
Context {F : Type} `{BaseModule F}.
Variable D : nat.
Hypothesis HD : (1 <= D)%nat.
Hypothesis Hshape :
  forall (p : Params) (X : list Input) (g : Gen),
    has_shape (length X) D (fst (fst (net_train p X g))).
Hypothesis Hloss :
  forall (out : Tensor F) (y : list Z) (n : nat),
    has_shape n D out -> length y = n -> Forall (fun c => 0 <= c < Z.of_nat D) y ->
    exists l, cross_entropy out y = Ok l.



End ClfFitLines.


(** ** What a successful step changes *)

Section StepEffect.
Context {F : Type} `{BaseModule F}.

(** A step of [fit] that succeeds replaces the state of the learner being
    trained by the update that the optimizer computes, from the gradient of
    the loss on the bootstrap subset, of the state the call left; it
    advances the generator by the draw of the mask and by the call, and
    the optimizer by one update, and changes nothing else of the ensemble.
    In evaluation mode the call leaves the state of the learner and the
    generator as they are. *)
Theorem step_effect (est_idx epoch batch_idx : Z) (estimator : nat) (opt : Adam)
    (X : list Input) (w : World) (p : Params) :
  nth_error (estimators_ (self w)) estimator = Some p ->
  param_ref opt = estimator ->
  X <> [] -> log_interval (self w) <> 0 ->
  (forall (y : Tensor F) (loss : F), length y = length X ->
     mse_loss (step_output w X p) (keep_indices (mask_of w (length X)) y) = Ok loss ->
     exists w',
       BaggingRegressor.fit_batch est_idx estimator epoch opt (batch_idx, (X, y)) w
         = (Ok (optimizer_after opt
                  (fst (step_update opt w X p (step_grad_mse w X y p)))), w') /\
       self w' = with_estimators (self w)
                   (list_update (estimators_ (self w)) estimator
                      (snd (step_update opt w X p (step_grad_mse w X y p)))) /\
       gen w' = snd (step_call w X p))
  /\ (forall (y : list Z) (D : nat) (loss : F), length y = length X ->
        has_shape (length (keep_indices (mask_of w (length X)) X)) D (step_output w X p) ->
        (1 <= D)%nat ->
        cross_entropy (step_output w X p) (keep_indices (mask_of w (length X)) y) = Ok loss ->
        exists w',
          BaggingClassifier.fit_batch est_idx estimator epoch opt (batch_idx, (X, y)) w
            = (Ok (optimizer_after opt
                     (fst (step_update opt w X p (step_grad_cross_entropy w X y p)))), w') /\
          self w' = with_estimators (self w)
                      (list_update (estimators_ (self w)) estimator
                         (snd (step_update opt w X p (step_grad_cross_entropy w X y p)))) /\
          gen w' = snd (step_call w X p))
  /\ (training (self w) = false ->
        step_call w X p
        = (net p (keep_indices (mask_of w (length X)) X), p, gen_after w (length X))).
Proof.
  intros Hp Href HX Hli. split; [|split].
  - intros y loss Hy Hl.
    erewrite reg_fit_batch_spec; [|exact Hp|exact Href|exact HX|exact Hy].
    rewrite Hl. cbn zeta.
    destruct (Z.eqb_spec (log_interval (self w)) 0) as [E|_]; [contradiction|].
    destruct (batch_idx mod log_interval (self w) =? 0);
      eexists; (split; [reflexivity|split; reflexivity]).
  - intros y D loss Hy Hsh HD Hl.
    edestruct step_predictions as (y_pred & Hmax & Hlen & Heq);
      [exact HX|exact Hy|exact Hsh|exact HD|].
    erewrite clf_fit_batch_spec; [|exact Hp|exact Href|exact HX|exact Hy].
    rewrite Hl. cbn zeta.
    destruct (Z.eqb_spec (log_interval (self w)) 0) as [E|_]; [contradiction|].
    destruct (batch_idx mod log_interval (self w) =? 0).
    + rewrite Hmax, Heq. eexists. split; [reflexivity|split; reflexivity].
    + eexists. split; [reflexivity|split; reflexivity].
  - intros Ht. unfold step_call, call. now rewrite Ht.
Qed.
End StepEffect.

Lemma step_effect_witness :
  (forall (y : Tensor R) (loss : R), length y = length X2 ->
     mse_loss (step_output world2 X2 [1%R])
              (keep_indices (mask_of world2 (length X2)) y) = Ok loss ->
     exists w',
       BaggingRegressor.fit_batch 0 0 0 opt0 (0, (X2, y)) world2
         = (Ok (optimizer_after opt0
                  (fst (step_update opt0 world2 X2 [1%R]
                          (step_grad_mse world2 X2 y [1%R])))), w') /\
       self w' = with_estimators (self world2)
                   (list_update (estimators_ (self world2)) 0
                      (snd (step_update opt0 world2 X2 [1%R]
                              (step_grad_mse world2 X2 y [1%R])))) /\
       gen w' = snd (step_call world2 X2 [1%R]))
  /\ (forall (y : list Z) (D : nat) (loss : R), length y = length X2 ->
        has_shape (length (keep_indices (mask_of world2 (length X2)) X2)) D
                  (step_output world2 X2 [1%R]) ->
        (1 <= D)%nat ->
        cross_entropy (step_output world2 X2 [1%R])
                      (keep_indices (mask_of world2 (length X2)) y) = Ok loss ->
        exists w',
          BaggingClassifier.fit_batch 0 0 0 opt0 (0, (X2, y)) world2
            = (Ok (optimizer_after opt0
                     (fst (step_update opt0 world2 X2 [1%R]
                             (step_grad_cross_entropy world2 X2 y [1%R])))), w') /\
          self w' = with_estimators (self world2)
                      (list_update (estimators_ (self world2)) 0
                         (snd (step_update opt0 world2 X2 [1%R]
                                 (step_grad_cross_entropy world2 X2 y [1%R])))) /\
          gen w' = snd (step_call world2 X2 [1%R]))
  /\ (training (self world2) = false ->
        step_call world2 X2 [1%R]
        = (net [1%R] (keep_indices (mask_of world2 (length X2)) X2), [1%R],
           gen_after world2 (length X2))).
Proof.
  apply (@step_effect R R_Scalar engine 0 0 0 0%nat opt0 X2 world2 [1%R]).
  - reflexivity.
  - reflexivity.
  - discriminate.
  - discriminate.
Defined.

(** ** The order of the batches and of the base learners *)

Section LoopOrder.
Context {F : Type} `{BaseModule F}.







End LoopOrder.

Section Orders.
Context {E : @Engine R R_Scalar} {BM : @BaseModule R R_Scalar E}.
Local Open Scope R_scope.

Lemma Rsum_permutation (l l' : list R) : Permutation l l' -> Rsum l = Rsum l'.
Proof. induction 1; simpl; lra. Qed.

Lemma mean_outputs_permutation (out : Params -> Tensor R) (ps ps' : list Params) (B D : nat) :
  Permutation ps ps' ->
  mean_outputs (map out ps) B D = mean_outputs (map out ps') B D.
Proof.
  intros HP. unfold mean_outputs, tabulate.
  apply map_ext. intros i. apply map_ext. intros j.
  rewrite !length_map, (Permutation_length HP). f_equal.
  rewrite !fsum_Rsum. apply Rsum_permutation.
  now apply Permutation_map, Permutation_map.
Qed.

(** In exact arithmetic and in evaluation mode the output of [forward]
    does not depend on the order in which [estimators_] holds the base
    learners: an ensemble that holds the same learners in another order
    returns the same tensor.  (In training mode the calls may draw from
    the generator one after the other, and the order matters.) *)
Theorem forward_order_of_learners (w : World) (ps' : list Params) (X : list Input) :
  training (self w) = false ->
  Permutation (estimators_ (self w)) ps' ->
  Z.of_nat (length (estimators_ (self w))) = n_estimators (self w) ->
  (0 <= output_dim (self w))%Z ->
  outputs_shaped w X ->
  BaggingClassifier.forward X (with_world_estimators w ps')
    = (fst (BaggingClassifier.forward X w), with_world_estimators w ps')
  /\ BaggingRegressor.forward X (with_world_estimators w ps')
    = (fst (BaggingRegressor.forward X w), with_world_estimators w ps').
Proof.
  intros Ht HP Hn HD Hsh0.
  pose proof (proj1 (outputs_shaped_eval _ X Ht) Hsh0) as Hsh.
  assert (Ht' : training (self (with_world_estimators w ps')) = false) by exact Ht.
  assert (Hn' : Z.of_nat (length (estimators_ (self (with_world_estimators w ps'))))
                = n_estimators (self (with_world_estimators w ps'))).
  { cbn. now rewrite <- (Permutation_length HP). }
  assert (Hsh' : forall p, In p (estimators_ (self (with_world_estimators w ps'))) ->
                   has_shape (length X)
                     (Z.to_nat (output_dim (self (with_world_estimators w ps')))) (net p X)).
  { intros p Hp. cbn in *. apply Hsh. apply Permutation_in with (l := ps'); [|exact Hp].
    now apply Permutation_sym. }
  split.
  - rewrite (clf_forward_eval _ X Ht' Hn' HD Hsh'), (clf_forward_eval _ X Ht Hn HD Hsh).
    cbn [fst self with_world_estimators with_estimators estimators_ output_dim].
    do 2 f_equal. symmetry. now apply mean_outputs_permutation.
  - rewrite (reg_forward_eval _ X Ht' Hn' HD Hsh'), (reg_forward_eval _ X Ht Hn HD Hsh).
    cbn [fst self with_world_estimators with_estimators estimators_ output_dim].
    do 2 f_equal. symmetry. now apply mean_outputs_permutation.
Qed.

End Orders.


Lemma forward_order_of_learners_witness :
  BaggingClassifier.forward X2 (with_world_estimators world2' [[3%R]; [1%R]])
    = (fst (BaggingClassifier.forward X2 world2'), with_world_estimators world2' [[3%R]; [1%R]])
  /\ BaggingRegressor.forward X2 (with_world_estimators world2' [[3%R]; [1%R]])
    = (fst (BaggingRegressor.forward X2 world2'), with_world_estimators world2' [[3%R]; [1%R]]).
Proof.
  apply (forward_order_of_learners (w := world2') (ps' := [[3%R]; [1%R]]) (X := X2)).
  - reflexivity.
  - apply perm_swap.
  - reflexivity.
  - simpl; lia.
  - repeat constructor.
Defined.

